(** * library-cli: the Neo4j integrity-and-workflow engine

    A shallow embedding of [library_cli/neo4j/neo4j_api.py] (class
    [Neo4jAPI]).  The Python methods become functions in a small
    state-and-exception monad; every Cypher statement the methods send
    through [session.run] becomes a function on an explicit graph store.

    Modelling choices, all read off the source:
    - [__setup] declares [book.isbn], [user.username] and [author.name]
      to be NODE KEYs, so the store itself keeps them unique: Book and
      User nodes are finite maps from their key, Author nodes (whose only
      property is the key) a finite set.
    - Relations are kept in lists, in creation order; the position of a
      relation in its list is its identity.  [Author_Of] may hold the same
      pair twice ([CREATE]), which is why it is a list and not a set.
    - [session.run] may raise [CypherError]: either because the statement
      is refused by the store (a key that exists already, a node deleted
      while relations still hang on it) or for a reason outside the graph
      (a transient failure).  The latter is modelled by a list of pending
      faults carried in the world, one entry consumed per [session.run].
    - Of the logger only the [error] and [success] lines are recorded;
      [info] lines take part in no decision.
    - Statement texts built with [format] or [+] are assumed to parse as
      the statement they are meant to be (no quote character or Cypher
      syntax smuggled in through a field name or a value). *)

From stdpp Require Import gmap strings list fin_maps.
From Stdlib Require Import ZArith Ascii.

Local Open Scope string_scope.
Local Open Scope Z_scope.

(** ** Data model *)

(** Modelled from the spec: [api/book.py] is not among the sources; a Book
    carries isbn, title, authors, pages and quantity (section 3). *)
Module Book.
Record t := mk {
  isbn : string;
  title : string;
  authors : list string;
  pages : Z;
  quantity : Z }.
End Book.

(** Modelled from the spec: [api/user.py] is not among the sources; a User
    carries username, name and phone (section 3). *)
Module User.
Record t := mk {
  username : string;
  name : string;
  phone : Z }.
End User.

(** Properties of a Book node other than its key.  [b_extra] holds the
    properties that [edit_book] sets under a field name of its own. *)
Record book_node := BookNode {
  b_title : string;
  b_pages : Z;
  b_quantity : Z;
  b_extra : gmap string string }.

Record user_node := UserNode {
  u_name : string;
  u_phone : Z;
  u_extra : gmap string string }.

(** Author_Of: (author name, isbn). Borrows: (username, isbn, quantity).
    Rates: (username, isbn, score). *)
Record store := Store {
  book_nodes : gmap string book_node;
  user_nodes : gmap string user_node;
  author_nodes : gset string;
  author_of : list (string * string);
  borrows : list (string * string * Z);
  rates : list (string * string * Z) }.

Definition empty_store : store := Store ∅ ∅ ∅ [] [] [].

Definition with_books (f : gmap string book_node → gmap string book_node) (s : store) : store :=
  Store (f (book_nodes s)) (user_nodes s) (author_nodes s) (author_of s) (borrows s) (rates s).
Definition with_users (f : gmap string user_node → gmap string user_node) (s : store) : store :=
  Store (book_nodes s) (f (user_nodes s)) (author_nodes s) (author_of s) (borrows s) (rates s).
Definition with_authors (f : gset string → gset string) (s : store) : store :=
  Store (book_nodes s) (user_nodes s) (f (author_nodes s)) (author_of s) (borrows s) (rates s).
Definition with_author_of (f : list (string * string) → list (string * string)) (s : store) : store :=
  Store (book_nodes s) (user_nodes s) (author_nodes s) (f (author_of s)) (borrows s) (rates s).
Definition with_borrows (f : list (string * string * Z) → list (string * string * Z)) (s : store) : store :=
  Store (book_nodes s) (user_nodes s) (author_nodes s) (author_of s) (f (borrows s)) (rates s).
Definition with_rates (f : list (string * string * Z) → list (string * string * Z)) (s : store) : store :=
  Store (book_nodes s) (user_nodes s) (author_nodes s) (author_of s) (borrows s) (f (rates s)).

Definition set_quantity (q : Z) (b : book_node) : book_node :=
  BookNode (b_title b) (b_pages b) q (b_extra b).
Definition set_pages (p : Z) (b : book_node) : book_node :=
  BookNode (b_title b) p (b_quantity b) (b_extra b).
Definition set_title (t : string) (b : book_node) : book_node :=
  BookNode t (b_pages b) (b_quantity b) (b_extra b).
Definition set_bextra (k v : string) (b : book_node) : book_node :=
  BookNode (b_title b) (b_pages b) (b_quantity b) (<[k:=v]> (b_extra b)).
Definition add_quantity (d : Z) (b : book_node) : book_node :=
  set_quantity (b_quantity b + d) b.

(** Keys of a relation entry. *)
Definition rel_user {A} (r : string * string * A) : string := r.1.1.
Definition rel_isbn {A} (r : string * string * A) : string := r.1.2.
Definition rel_val {A} (r : string * string * A) : A := r.2.

Definition is_pair {A} (username isbn : string) (r : string * string * A) : bool :=
  bool_decide (rel_user r = username) && bool_decide (rel_isbn r = isbn).

(** Rewriting the value carried by the relations of one pair. *)
Definition on_pair {A} (username isbn : string) (g : A → A) (r : string * string * A)
  : string * string * A :=
  if is_pair username isbn r then (r.1, g r.2) else r.

(** ** Observations used in the statements of the theorems *)

(** The value carried by the first relation of a pair, if any. *)
Definition lookup_pair {A} (username isbn : string) (l : list (string * string * A)) : option A :=
  rel_val <$> head (filter (λ r, is_pair username isbn r = true) l).

(** The [quantity] property of the Borrows relation of a pair. *)
Definition borrow_count (s : store) (username isbn : string) : option Z :=
  lookup_pair username isbn (borrows s).

(** The [score] property of the Rates relation of a pair. *)
Definition rating (s : store) (username isbn : string) : option Z :=
  lookup_pair username isbn (rates s).

(** Copies of a book that are out: the sum of [quantity] over its Borrows
    relations. *)
Definition total (l : list Z) : Z := foldr Z.add 0 l.
Definition borrowed (s : store) (isbn : string) : Z :=
  total (rel_val <$> filter (λ r, rel_isbn r = isbn) (borrows s)).

(** ** The world: store, pending store faults, log *)

Inductive exn :=
| CypherError (message : string)
| ValueError (message : string).

Inductive arg := AStr (s : string) | AInt (z : Z) | AList (l : list string).
Inductive level := LError | LSuccess.
Record event := Event { lvl : level; template : string; args : list arg }.

Record world := World {
  db : store;
  pending : list (option string);
  log : list event }.

Definition M (A : Type) : Type := world → (exn + A) * world.

Definition ret {A} (a : A) : M A := λ w, (inr a, w).
Definition bind {A B} (m : M A) (k : A → M B) : M B :=
  λ w, match m w with
       | (inl e, w') => (inl e, w')
       | (inr a, w') => k a w'
       end.
Definition raise {A} (e : exn) : M A := λ w, (inl e, w).

(** [try: m except CypherError as e: h e.message] *)
Definition try_except_cypher {A} (m : M A) (h : string → M A) : M A :=
  λ w, match m w with
       | (inl (CypherError msg), w') => h msg w'
       | r => r
       end.

Notation "'do' x <- m ; k" := (bind m (λ x, k))
  (at level 10, x name, m at level 100, k at level 200).
Notation "'exec' m ; k" := (bind m (λ _, k))
  (at level 10, m at level 100, k at level 200).

Definition emit (l : level) (t : string) (a : list arg) : M unit :=
  λ w, (inr tt, World (db w) (pending w) (log w ++ [Event l t a])%list).
Definition error := emit LError.
Definition success := emit LSuccess.

(** A statement: refused with the store's message, or rows and a new store. *)
Definition query (R : Type) : Type := store → string + (R * store).

(** [session.run(statement, params)] *)
Definition session_run {R} (q : query R) : M R :=
  λ w, match pending w with
       | Some msg :: rest => (inl (CypherError msg), World (db w) rest (log w))
       | _ =>
         match q (db w) with
         | inl msg => (inl (CypherError msg), World (db w) (tail (pending w)) (log w))
         | inr (r, d) => (inr r, World d (tail (pending w)) (log w))
         end
       end.

(** [__handle_cyphererror]: log the store's message, answer [False]. *)
Definition handle_cyphererror (message : string) : M bool :=
  exec error "{}" [AStr message]; ret false.

(** [__run_session]: run one statement, never let [CypherError] out.
    ([__log_result] only writes [info] lines.) *)
Definition run_session {R} (q : query R) : M bool :=
  try_except_cypher (exec session_run q; ret true) handle_cyphererror.

(** ** The Cypher statements

    One function per statement text of the source, named after what it
    does.  A pattern anchored at a node by its key binds nothing when the
    node is absent.  Clauses after a [MATCH] run once per matched row, and
    a [SET] reads what earlier rows wrote.  An aggregate without grouping
    key ([RETURN COUNT(r)]) yields exactly one row, also over no match. *)
Module Cypher.

Definition ok {R} (rows : R) (s : store) : string + (R * store) := inr (rows, s).

Definition key_exists : string := "node already exists with this key".
Definition still_has_relationships : string :=
  "cannot delete node, because it still has relationships".

Definition has_book (s : store) (isbn : string) : bool :=
  bool_decide (is_Some (book_nodes s !! isbn)).
Definition has_user (s : store) (username : string) : bool :=
  bool_decide (is_Some (user_nodes s !! username)).
Definition has_author (s : store) (name : string) : bool :=
  bool_decide (name ∈ author_nodes s).

(** [CREATE (book:Book {isbn, title, pages, quantity}) RETURN book] *)
Definition create_book (b : Book.t) : query unit := λ s,
  if has_book s (Book.isbn b) then inl key_exists
  else ok tt (with_books
    <[Book.isbn b := BookNode (Book.title b) (Book.pages b) (Book.quantity b) ∅]> s).

(** [CREATE (user:User {username, name, phone}) RETURN user] *)
Definition create_user (u : User.t) : query unit := λ s,
  if has_user s (User.username u) then inl key_exists
  else ok tt (with_users
    <[User.username u := UserNode (User.name u) (User.phone u) ∅]> s).

(** [MATCH(book {isbn}) MERGE(author {name})
    CREATE(book) <- [relation: Author_Of] - (author) RETURN author] *)
Definition link_author (isbn name : string) : query unit := λ s,
  if has_book s isbn
  then ok tt (with_author_of (λ l, (l ++ [(name, isbn)])%list)
               (with_authors (λ a, a ∪ {[name]}) s))
  else ok tt s.

(** [MATCH (book {isbn}) - [relationship:Author_Of] - (author)
    DELETE relationship RETURN author]: one row per relation. *)
Definition unlink_authors (isbn : string) : query (list string) := λ s,
  if has_book s isbn
  then ok (fst <$> filter (λ r, r.2 = isbn) (author_of s))
          (with_author_of (filter (λ r, r.2 ≠ isbn)) s)
  else ok [] s.

(** [MATCH (author {name}) - [relation:Author_Of] - (:Book)
    RETURN COUNT(relation)] *)
Definition count_author_books (name : string) : query (list Z) := λ s,
  if has_author s name
  then ok [Z.of_nat (length (filter (λ r, r.1 = name) (author_of s)))] s
  else ok [0] s.

(** [MATCH (author {name}) DELETE author] *)
Definition delete_author (name : string) : query unit := λ s,
  if has_author s name then
    if bool_decide (Exists (λ r, r.1 = name) (author_of s))
    then inl still_has_relationships
    else ok tt (with_authors (λ a, a ∖ {[name]}) s)
  else ok tt s.

(** The fields [edit_book] writes as a number, and the others. *)
Inductive num_field := Pages | Quantity.
Inductive text_field := Key | Title | Other (field : string).

(** [MATCH (book {isbn}) SET book.<field> = <value> RETURN book],
    the value written as a number. *)
Definition set_book_number (isbn : string) (f : num_field) (value : Z) : query unit := λ s,
  ok tt (with_books (alter (match f with
                            | Pages => set_pages value
                            | Quantity => set_quantity value
                            end) isbn) s).

Definition rename {A} (old new : string) (k : A * string) : A * string :=
  (k.1, if bool_decide (k.2 = old) then new else k.2).
Definition rename_isbn {A} (old new : string) (r : string * string * A) : string * string * A :=
  (rename old new r.1, r.2).

(** The same statement, the value written between quotes.  Writing the
    key moves the node, with every relation that hangs on it, to the new
    key; the NODE KEY constraint refuses a key that is taken. *)
Definition set_book_text (isbn : string) (f : text_field) (value : string) : query unit := λ s,
  match book_nodes s !! isbn with
  | None => ok tt s
  | Some b =>
    match f with
    | Title => ok tt (with_books <[isbn := set_title value b]> s)
    | Other field => ok tt (with_books <[isbn := set_bextra field value b]> s)
    | Key =>
      if bool_decide (value = isbn) then ok tt s
      else if has_book s value then inl key_exists
      else ok tt (Store (<[value := b]> (delete isbn (book_nodes s)))
                        (user_nodes s) (author_nodes s)
                        (rename isbn value <$> author_of s)
                        (rename_isbn isbn value <$> borrows s)
                        (rename_isbn isbn value <$> rates s))
    end
  end.

Inductive user_text_field := UKey | UName | UOther (field : string).

(** [MATCH (user {username}) SET user.phone = <value> RETURN user] *)
Definition set_user_phone (username : string) (value : Z) : query unit := λ s,
  ok tt (with_users (alter (λ u, UserNode (u_name u) value (u_extra u)) username) s).

Definition rename_user {A} (old new : string) (r : string * string * A) : string * string * A :=
  (if bool_decide (r.1.1 = old) then new else r.1.1, r.1.2, r.2).

(** [MATCH (user {username}) SET user.<field> = "<value>" RETURN user] *)
Definition set_user_text (username : string) (f : user_text_field) (value : string) : query unit := λ s,
  match user_nodes s !! username with
  | None => ok tt s
  | Some u =>
    match f with
    | UName => ok tt (with_users <[username := UserNode value (u_phone u) (u_extra u)]> s)
    | UOther field =>
      ok tt (with_users <[username := UserNode (u_name u) (u_phone u) (<[field:=value]> (u_extra u))]> s)
    | UKey =>
      if bool_decide (value = username) then ok tt s
      else if has_user s value then inl key_exists
      else ok tt (Store (book_nodes s)
                        (<[value := u]> (delete username (user_nodes s)))
                        (author_nodes s) (author_of s)
                        (rename_user username value <$> borrows s)
                        (rename_user username value <$> rates s))
    end
  end.

(** [MATCH (book:Book {isbn}) RETURN book] *)
Definition match_book (isbn : string) : query (list book_node) := λ s,
  ok (option_list (book_nodes s !! isbn)) s.

(** [MATCH (user:User {username}) RETURN user] *)
Definition match_user (username : string) : query (list user_node) := λ s,
  ok (option_list (user_nodes s !! username)) s.

(** [MATCH (user {username}) MATCH (book {isbn})
    MERGE (user) - [borrows:Borrows] -> (book)
    ON CREATE SET borrows.quantity = 1
    ON MATCH SET borrows.quantity = borrows.quantity + 1 RETURN borrows] *)
Definition merge_borrows (username isbn : string) : query unit := λ s,
  if has_user s username && has_book s isbn then
    if bool_decide (Exists (λ r, is_pair username isbn r = true) (borrows s))
    then ok tt (with_borrows (fmap (on_pair username isbn (λ quantity, quantity + 1))) s)
    else ok tt (with_borrows (λ l, (l ++ [(username, isbn, 1)])%list) s)
  else ok tt s.

(** [MATCH (book {isbn}) SET book.quantity = book.quantity - 1 RETURN book] *)
Definition decrement_stock (isbn : string) : query unit := λ s,
  ok tt (with_books (alter (add_quantity (-1)) isbn) s).

(** [MATCH (user {username}) - [borrows:Borrows] - (book {isbn})
    RETURN borrows]: the [quantity] of each matched relation. *)
Definition match_borrows (username isbn : string) : query (list Z) := λ s,
  if has_user s username && has_book s isbn
  then ok (rel_val <$> filter (λ r, is_pair username isbn r = true) (borrows s)) s
  else ok [] s.

(** [MATCH (user {username}) - [borrows:Borrows] - (book {isbn})
    DELETE borrows SET book.quantity = book.quantity + 1 RETURN book] *)
Definition delete_borrows (username isbn : string) : query unit := λ s,
  if has_user s username && has_book s isbn then
    let rows := length (filter (λ r, is_pair username isbn r = true) (borrows s)) in
    ok tt (with_books (alter (add_quantity (Z.of_nat rows)) isbn)
            (with_borrows (filter (λ r, is_pair username isbn r ≠ true)) s))
  else ok tt s.

(** [MATCH (user {username}) - [borrows:Borrows] - (book {isbn})
    SET borrows.quantity = borrows.quantity - 1,
        book.quantity = book.quantity + 1 RETURN book] *)
Definition decrement_borrows (username isbn : string) : query unit := λ s,
  if has_user s username && has_book s isbn then
    let rows := length (filter (λ r, is_pair username isbn r = true) (borrows s)) in
    ok tt (with_books (alter (add_quantity (Z.of_nat rows)) isbn)
            (with_borrows (fmap (on_pair username isbn (λ quantity, quantity - 1))) s))
  else ok tt s.

(** [MATCH (book {isbn}) - [borrows:Borrows] - (user:User)
    RETURN user, borrows] *)
Definition book_borrowers (isbn : string) : query (list (string * Z)) := λ s,
  if has_book s isbn
  then ok ((λ r, (rel_user r, rel_val r)) <$> filter (λ r, rel_isbn r = isbn) (borrows s)) s
  else ok [] s.

(** [MATCH (user {username}) - [borrows:Borrows] - (book:Book)
    RETURN book, borrows] *)
Definition user_borrowings (username : string) : query (list (string * Z)) := λ s,
  if has_user s username
  then ok ((λ r, (rel_isbn r, rel_val r)) <$> filter (λ r, rel_user r = username) (borrows s)) s
  else ok [] s.

(** [MATCH (user {username}) - [rates:Rates] - (book {isbn}) RETURN rates]:
    the [score] of each matched relation. *)
Definition match_rates (username isbn : string) : query (list Z) := λ s,
  if has_user s username && has_book s isbn
  then ok (rel_val <$> filter (λ r, is_pair username isbn r = true) (rates s)) s
  else ok [] s.

(** [MATCH (user {username}) MATCH (book {isbn})
    CREATE (user) - [rates:Rates {score: <score>}] -> (book)] *)
Definition create_rates (username isbn : string) (score : Z) : query unit := λ s,
  if has_user s username && has_book s isbn
  then ok tt (with_rates (λ l, (l ++ [(username, isbn, score)])%list) s)
  else ok tt s.

(** Relations with their identity (the position in the list). *)
Definition indexed {A} (l : list A) : list (nat * A) := imap pair l.

(** [MATCH (:User {username}) - [r1:Rates] - (b1:Book) - [r2:Rates] -
          (friend:User) - [r3:Rates] - (b2:Book)
    WHERE r1.score = r2.score AND r3.score >= 3
    RETURN b2 as recommendation].
    Within one [MATCH] pattern a relation is bound at most once, so
    [r1], [r2] and [r3] are three different relations. *)
Definition recommend (username : string) : query (list string) := λ s,
  if has_user s username then
    let rs := indexed (rates s) in
    ok (r1 ← filter (λ r : nat * (string * string * Z), rel_user r.2 = username) rs;
        r2 ← filter (λ r : nat * (string * string * Z),
                       r.1 ≠ r1.1 ∧ rel_isbn r.2 = rel_isbn r1.2
                       ∧ rel_val r.2 = rel_val r1.2) rs;
        r3 ← filter (λ r : nat * (string * string * Z),
                       r.1 ≠ r1.1 ∧ r.1 ≠ r2.1 ∧ rel_user r.2 = rel_user r2.2
                       ∧ (3 ≤ rel_val r.2)%Z) rs;
        [rel_isbn r3.2]) s
  else ok [] s.

(** [MATCH (book {isbn}) - [r] - (:User) RETURN COUNT(r) as relations]:
    the relation type is left open, so Borrows and Rates both count. *)
Definition count_book_user_relations (isbn : string) : query (list Z) := λ s,
  if has_book s isbn
  then ok [Z.of_nat (length (filter (λ r, rel_isbn r = isbn) (borrows s))
                     + length (filter (λ r, rel_isbn r = isbn) (rates s)))] s
  else ok [0] s.

(** [MATCH (book {isbn}) DELETE book] *)
Definition delete_book (isbn : string) : query unit := λ s,
  if has_book s isbn then
    if bool_decide (Exists (λ r, r.2 = isbn) (author_of s))
       || bool_decide (Exists (λ r, rel_isbn r = isbn) (borrows s))
       || bool_decide (Exists (λ r, rel_isbn r = isbn) (rates s))
    then inl still_has_relationships
    else ok tt (with_books (delete isbn) s)
  else ok tt s.

(** [MATCH (user {username}) - [r] - (:Book) RETURN COUNT(r) as relations] *)
Definition count_user_book_relations (username : string) : query (list Z) := λ s,
  if has_user s username
  then ok [Z.of_nat (length (filter (λ r, rel_user r = username) (borrows s))
                     + length (filter (λ r, rel_user r = username) (rates s)))] s
  else ok [0] s.

(** [MATCH (user {username}) DELETE user] *)
Definition delete_user (username : string) : query unit := λ s,
  if has_user s username then
    if bool_decide (Exists (λ r, rel_user r = username) (borrows s))
       || bool_decide (Exists (λ r, rel_user r = username) (rates s))
    then inl still_has_relationships
    else ok tt (with_users (delete username) s)
  else ok tt s.

End Cypher.

(** ** Python's [int(str)]

    Base 10: blanks around, one optional sign, digits, single underscores
    between digits.  Only ASCII is read; a digit or blank outside ASCII,
    which Python would accept, is refused here. *)
Definition is_space (c : ascii) : bool :=
  let n := nat_of_ascii c in
  ((9 <=? n)%nat && (n <=? 13)%nat) || ((28 <=? n)%nat && (n <=? 32)%nat).

Definition digit_value (c : ascii) : option Z :=
  let n := Z.of_nat (nat_of_ascii c) in
  if (48 <=? n) && (n <=? 57) then Some (n - 48) else None.

Fixpoint read_digits (acc : Z) (after_digit : bool) (l : list ascii) : option Z :=
  match l with
  | [] => if after_digit then Some acc else None
  | c :: l' =>
    match digit_value c with
    | Some d => read_digits (10 * acc + d) true l'
    | None =>
      if Ascii.eqb c "_"%char && after_digit then read_digits acc false l' else None
    end
  end.

Fixpoint drop_spaces (l : list ascii) : list ascii :=
  match l with
  | c :: l' => if is_space c then drop_spaces l' else l
  | [] => []
  end.

Definition strip (l : list ascii) : list ascii :=
  reverse (drop_spaces (reverse (drop_spaces l))).

Definition int (value : string) : option Z :=
  match strip (String.list_ascii_of_string value) with
  | "-"%char :: l => Z.opp <$> read_digits 0 false l
  | "+"%char :: l => read_digits 0 false l
  | l => read_digits 0 false l
  end.

(** ** The operations of [Neo4jAPI] *)

Definition get_book (isbn : string) : M (list book_node) :=
  session_run (Cypher.match_book isbn).

Definition get_user (username : string) : M (list user_node) :=
  session_run (Cypher.match_user username).

(** [__link_author_to_book] *)
Definition link_author_to_book (isbn name : string) : M bool :=
  run_session (Cypher.link_author isbn name).

(** [for author in ...: if not self.__link_author_to_book(...): return False] *)
Fixpoint link_authors (isbn : string) (names : list string) : M bool :=
  match names with
  | [] => ret true
  | name :: rest =>
    do linked <- link_author_to_book isbn name;
    if linked then link_authors isbn rest else ret false
  end.

Definition add_book (book : Book.t) : M bool :=
  do created <- run_session (Cypher.create_book book);
  if negb created then ret false else
  do linked <- link_authors (Book.isbn book) (Book.authors book);
  if negb linked then ret false else
  exec success "added book {}" [AStr (Book.isbn book)];
  ret true.

Definition add_user (user : User.t) : M bool :=
  do created <- run_session (Cypher.create_user user);
  if negb created then ret false else
  exec success "added new user {}" [AStr (User.username user)];
  ret true.

(** The inner loop of the orphan clean-up in [edit_book]:
    [for count_record in result.records(): if count_record['count'] == 0: ...] *)
Fixpoint delete_if_orphan (name : string) (counts : list Z) : M bool :=
  match counts with
  | [] => ret true
  | count :: rest =>
    if count =? 0 then
      do deleted <- run_session (Cypher.delete_author name);
      if deleted then delete_if_orphan name rest else ret false
    else delete_if_orphan name rest
  end.

(** The outer loop: [for record in result.records(): ...] over the authors
    returned by the unlinking statement. *)
Fixpoint clean_up_orphans (removed : list string) : M bool :=
  match removed with
  | [] => ret true
  | name :: rest =>
    do counts <- session_run (Cypher.count_author_books name);
    do clean <- delete_if_orphan name counts;
    if clean then clean_up_orphans rest else ret false
  end.

Definition text_field_of (field : string) : Cypher.text_field :=
  if bool_decide (field = "isbn") then Cypher.Key
  else if bool_decide (field = "title") then Cypher.Title
  else Cypher.Other field.

Definition edit_book (isbn field : string) (value : list string) : M bool :=
  if bool_decide (field = "authors") then
    do removed <- session_run (Cypher.unlink_authors isbn);
    do clean <- clean_up_orphans removed;
    if negb clean then ret false else
    do linked <- link_authors isbn value;
    if negb linked then ret false else
    exec success "edited book with field={} and new value={}" [AStr field; AList value];
    ret true
  else
    match value with
    | _ :: _ :: _ =>
      exec error "field {} only accepts exactly 1 value but got {}" [AStr field; AList value];
      ret false
    | [] => raise (ValueError "not enough values to unpack (expected at least 1, got 0)")
    | [v] =>
      if bool_decide (field = "quantity") || bool_decide (field = "pages") then
        match int v with
        | None =>
          exec error "field {} requires value to be an integer but got {}" [AStr field; AStr v];
          ret false
        | Some n =>
          if n <? 0 then
            exec error "field {} requires value to be a positive integer by got {}"
                       [AStr field; AInt n];
            ret false
          else
            do written <- run_session (Cypher.set_book_number isbn
                            (if bool_decide (field = "quantity")
                             then Cypher.Quantity else Cypher.Pages) n);
            if negb written then ret false else
            exec success "edited book with field={} and new value={}" [AStr field; AInt n];
            ret true
        end
      else
        do written <- run_session (Cypher.set_book_text isbn (text_field_of field) v);
        if negb written then ret false else
        exec success "edited book with field={} and new value={}" [AStr field; AStr v];
        ret true
    end.

Definition user_text_field_of (field : string) : Cypher.user_text_field :=
  if bool_decide (field = "username") then Cypher.UKey
  else if bool_decide (field = "name") then Cypher.UName
  else Cypher.UOther field.

Definition edit_user (username field value : string) : M bool :=
  if bool_decide (field = "phone") then
    match int value with
    | None =>
      exec error "field {} requires value to be an integer but got {}" [AStr field; AStr value];
      ret false
    | Some n =>
      do written <- run_session (Cypher.set_user_phone username n);
      if negb written then ret false else
      exec success "edited book with field={} and new value={}" [AStr field; AInt n];
      ret true
    end
  else
    do written <- run_session (Cypher.set_user_text username (user_text_field_of field) value);
    if negb written then ret false else
    exec success "edited book with field={} and new value={}" [AStr field; AStr value];
    ret true.

(** In the three operations below a loop [for record in ...: x = record[..]]
    leaves in [x] the last row, or the value set before the loop.  A node
    or relation read from the store is truthy (it has a property), so
    [if not x] asks whether a row was found. *)
Definition check_out_book_for_user (isbn username : string) : M bool :=
  try_except_cypher
    (do book_result <- get_book isbn;
     let book := last book_result in
     let quantity := from_option b_quantity 0 book in
     if negb (bool_decide (is_Some book)) then
       exec error "book isbn={} does not exist" [AStr isbn]; ret false
     else if quantity <=? 0 then
       exec error "book isbn={} is out of stock" [AStr isbn]; ret false
     else
     do user_result <- get_user username;
     if negb (bool_decide (is_Some (last user_result))) then
       exec error "user username={} does not exist" [AStr username]; ret false
     else
     exec session_run (Cypher.merge_borrows username isbn);
     exec session_run (Cypher.decrement_stock isbn);
     exec success "checked out book isbn={} for user username={}" [AStr isbn; AStr username];
     ret true)
    handle_cyphererror.

Definition return_book_for_user (isbn username : string) : M bool :=
  try_except_cypher
    (do result <- session_run (Cypher.match_borrows username isbn);
     match last result with
     | None =>
       exec error "book isbn={} was not checked out by user username={}"
                  [AStr isbn; AStr username];
       ret false
     | Some quantity =>
       exec session_run (if quantity =? 1
                          then Cypher.delete_borrows username isbn
                          else Cypher.decrement_borrows username isbn);
       exec success "returned book isbn={} for user username={}" [AStr isbn; AStr username];
       ret true
     end)
    handle_cyphererror.

(** [get_book_stats] answers [False] or the list of borrowers. *)
Definition get_book_stats (isbn : string) : M (bool + list (string * Z)) :=
  do book_result <- get_book isbn;
  if negb (bool_decide (is_Some (last book_result))) then
    exec error "book isbn={} does not exist" [AStr isbn]; ret (inl false)
  else
  try_except_cypher
    (do users <- session_run (Cypher.book_borrowers isbn); ret (inr users))
    (λ message, do b <- handle_cyphererror message; ret (inl b)).

Definition get_user_stats (username : string) : M (bool + list (string * Z)) :=
  do user_result <- get_user username;
  if negb (bool_decide (is_Some (last user_result))) then
    exec error "user username={} does not exist" [AStr username]; ret (inr [])
  else
  try_except_cypher
    (do books <- session_run (Cypher.user_borrowings username); ret (inr books))
    (λ message, do b <- handle_cyphererror message; ret (inl b)).

Definition rate_book (username isbn : string) (score : Z) : M bool :=
  try_except_cypher
    (do user_result <- get_user username;
     if negb (bool_decide (is_Some (last user_result))) then
       exec error "user username={} does not exist" [AStr username]; ret false
     else
     do book_result <- get_book isbn;
     if negb (bool_decide (is_Some (last book_result))) then
       exec error "book isbn={} does not exist" [AStr isbn]; ret false
     else
     do result <- session_run (Cypher.match_rates username isbn);
     match result with
     | existing :: _ =>
       exec error "user username={} has already rated book isbn={} with score={}"
                  [AStr username; AStr isbn; AInt existing];
       ret false
     | [] =>
       do created <- run_session (Cypher.create_rates username isbn score);
       if negb created then ret false else
       exec success "added rating score={} by user username={} to book isbn={}"
                    [AInt score; AStr username; AStr isbn];
       ret true
     end)
    handle_cyphererror.

Definition recommend_books (username : string) : M (list string) :=
  try_except_cypher
    (session_run (Cypher.recommend username))
    (λ message, exec handle_cyphererror message; ret []).

(** The inner loop of the orphan check in [remove_book]. *)
Fixpoint delete_author_if_orphan (name : string) (counts : list Z) : M bool :=
  match counts with
  | [] => ret true
  | relation_count :: rest =>
    if relation_count =? 0 then
      do deleted <- run_session (Cypher.delete_author name);
      if deleted then delete_author_if_orphan name rest
      else exec error "failed to delete author name={}" [AStr name]; ret false
    else delete_author_if_orphan name rest
  end.

Fixpoint check_orphaned_authors (removed : list string) : M bool :=
  match removed with
  | [] => ret true
  | name :: rest =>
    do counts <- session_run (Cypher.count_author_books name);
    do clean <- delete_author_if_orphan name counts;
    if clean then check_orphaned_authors rest else ret false
  end.

Definition remove_book (isbn : string) : M bool :=
  try_except_cypher
    (do result <- session_run (Cypher.count_book_user_relations isbn);
     let relation_count := default 1 (last result) in
     if negb (relation_count =? 0) then
       exec error "book isbn={} is involved in {} user relations" [AStr isbn; AInt relation_count];
       ret false
     else
     do removed <- session_run (Cypher.unlink_authors isbn);
     do clean <- check_orphaned_authors removed;
     if negb clean then ret false else
     do deleted <- run_session (Cypher.delete_book isbn);
     if deleted then exec success "removed book isbn={}" [AStr isbn]; ret true
     else ret false)
    handle_cyphererror.

(** [for record in result.records(): if record['relations'] != 0: ... return False] *)
Definition first_nonzero (counts : list Z) : option Z :=
  head (filter (λ n, n ≠ 0) counts).

Definition remove_user (username : string) : M bool :=
  try_except_cypher
    (do result <- session_run (Cypher.count_user_book_relations username);
     match first_nonzero result with
     | Some book_relations =>
       exec error "user username={} is involved in {} book relations"
                  [AStr username; AInt book_relations];
       ret false
     | None =>
       exec session_run (Cypher.delete_user username);
       exec success "removed user username={}" [AStr username];
       ret true
     end)
    handle_cyphererror.

(** ** One type for all the operations

    The search and sort methods ([find_*], [sort_*]) send one read-only
    [MATCH ... RETURN] inside a [try] block and are not part of it. *)
Inductive op :=
| AddBook (book : Book.t)
| AddUser (user : User.t)
| EditBook (isbn field : string) (value : list string)
| EditUser (username field value : string)
| CheckOut (isbn username : string)
| ReturnBook (isbn username : string)
| BookStats (isbn : string)
| UserStats (username : string)
| RateBook (username isbn : string) (score : Z)
| Recommend (username : string)
| RemoveBook (isbn : string)
| RemoveUser (username : string).

Inductive answer :=
| Flag (b : bool)
| Borrowings (l : list (string * Z))
| Books (l : list string).

Definition map_answer {A} (f : A → answer) (m : M A) : M answer :=
  do a <- m; ret (f a).

Definition stats_answer (r : bool + list (string * Z)) : answer :=
  match r with inl b => Flag b | inr l => Borrowings l end.

Definition run_op (o : op) : M answer :=
  match o with
  | AddBook book => map_answer Flag (add_book book)
  | AddUser user => map_answer Flag (add_user user)
  | EditBook isbn field value => map_answer Flag (edit_book isbn field value)
  | EditUser username field value => map_answer Flag (edit_user username field value)
  | CheckOut isbn username => map_answer Flag (check_out_book_for_user isbn username)
  | ReturnBook isbn username => map_answer Flag (return_book_for_user isbn username)
  | BookStats isbn => map_answer stats_answer (get_book_stats isbn)
  | UserStats username => map_answer stats_answer (get_user_stats username)
  | RateBook username isbn score => map_answer Flag (rate_book username isbn score)
  | Recommend username => map_answer Books (recommend_books username)
  | RemoveBook isbn => map_answer Flag (remove_book isbn)
  | RemoveUser username => map_answer Flag (remove_user username)
  end.

(** A run with a store that answers every statement (no pending fault). *)
Definition calm (s : store) : world := World s [] [].

Definition run_ops (os : list op) (w : world) : world :=
  foldl (λ w o, (run_op o w).2) w os.

(** ** Scenarios *)

Definition book111 : Book.t := Book.mk "111" "Dune" ["A"; "B"] 412 2.
Definition alice : User.t := User.mk "alice" "Alice" 5550100.
Definition bob : User.t := User.mk "bob" "Bob" 5550101.

Definition library : store := db (run_ops [AddBook book111; AddUser alice; AddUser bob] (calm empty_store)).

Definition book222 : Book.t := Book.mk "222" "Emma" ["C"] 300 1.
Definition book333 : Book.t := Book.mk "333" "Ulysses" ["D"] 700 1.

(** alice holds one copy of book 111. *)
Definition one_copy_out : store := db (run_ops [CheckOut "111" "alice"] (calm library)).

(** alice has rated book 111; nobody holds a copy. *)
Definition rated_library : store := db (run_ops [RateBook "alice" "111" 5] (calm library)).

(** alice and bob gave the one book the same score. *)
Definition one_shared_book : store :=
  db (run_ops [RateBook "alice" "111" 4; RateBook "bob" "111" 4] (calm library)).

(** alice and bob agree on two books: each is recommended to alice through
    the other; bob's own third book twice. *)
Definition readers : store :=
  db (run_ops [AddBook book222; AddBook book333;
               RateBook "alice" "111" 4; RateBook "bob" "111" 4;
               RateBook "alice" "222" 5; RateBook "bob" "222" 5;
               RateBook "bob" "333" 3] (calm library)).

(** ** What the theorems speak of *)

(** What the orphan check does to the store for one removed author. *)
Definition drop_orphan (s : store) (name : string) : store :=
  if Cypher.has_author s name && negb (bool_decide (Exists (λ r, r.1 = name) (author_of s)))
  then with_authors (λ a, a ∖ {[name]}) s
  else s.

(** Some Borrows or Rates relation hangs on the book, on the user. *)
Definition book_in_use (s : store) (isbn : string) : Prop :=
  Exists (λ r, rel_isbn r = isbn) (borrows s) ∨ Exists (λ r, rel_isbn r = isbn) (rates s).
Definition user_in_use (s : store) (username : string) : Prop :=
  Exists (λ r, rel_user r = username) (borrows s) ∨ Exists (λ r, rel_user r = username) (rates s).

(** How many Borrows and Rates relations hang on the book, on the user. *)
Definition book_relations (s : store) (isbn : string) : Z :=
  Z.of_nat (length (filter (λ r, rel_isbn r = isbn) (borrows s ++ rates s)%list)).
Definition user_relations (s : store) (username : string) : Z :=
  Z.of_nat (length (filter (λ r, rel_user r = username) (borrows s ++ rates s)%list)).

(** An edit that writes the key of a node, which moves its relations. *)
Definition edits_key (o : op) : Prop :=
  match o with
  | EditBook _ field _ => field = "isbn"
  | EditUser _ field _ => field = "username"
  | _ => False
  end.

(** The Rates relations of [s0] are still there in [d], in place, as far
    as [π] can see. *)
Definition kept {X} (π : string * string * Z → X) (s0 d : store) : Prop :=
  (π <$> rates s0) `prefix_of` (π <$> rates d).

(** [π] does not look at the keys of a relation. *)
Definition blind {X} (π : string * string * Z → X) : Prop :=
  ∀ r r' : string * string * Z, r.2 = r'.2 → π r = π r'.

(** The consistency of a store: relations hang on nodes that exist, a
    pair has at most one Borrows and one Rates relation, a Borrows relation
    counts at least one copy, no stock is negative. *)
Definition ends_exist {A} (s : store) (l : list (string * string * A)) : Prop :=
  ∀ r, r ∈ l → is_Some (user_nodes s !! rel_user r) ∧ is_Some (book_nodes s !! rel_isbn r).

Record consistent (s : store) : Prop := Consistent {
  author_of_ends :
    ∀ r, r ∈ author_of s → r.1 ∈ author_nodes s ∧ is_Some (book_nodes s !! r.2);
  borrows_ends : ends_exist s (borrows s);
  rates_ends : ends_exist s (rates s);
  borrows_unique : NoDup (fst <$> borrows s);
  rates_unique : NoDup (fst <$> rates s);
  borrows_positive : ∀ r, r ∈ borrows s → 1 ≤ rel_val r;
  stock_nonnegative : ∀ isbn b, book_nodes s !! isbn = Some b → 0 ≤ b_quantity b }.

(** The ledger of a book: copies on the shelf plus copies out.  It is the
    total stock the book came in with, as long as nobody overwrites it. *)
Definition stock (s : store) (isbn : string) : option Z :=
  (λ b, b_quantity b + borrowed s isbn) <$> book_nodes s !! isbn.

(** Copies of [isbn] out, on a list of Borrows relations. *)
Definition out (l : list (string * string * Z)) (isbn : string) : Z :=
  total (rel_val <$> filter (λ r, rel_isbn r = isbn) l).

(** The number of relations of a pair. *)
Definition matching (username isbn : string) (l : list (string * string * Z)) : Z :=
  Z.of_nat (length (filter (λ r, is_pair username isbn r = true) l)).

(** [agree K s d]: outside the books of [K], the ledger of [d] is that of [s]. *)
Definition agree (K : list string) (s d : store) : Prop :=
  ∀ i, i ∉ K → stock d i = stock s i.

(** The ledger of the books that are there before and after. *)
Definition ledger_kept (s d : store) : Prop :=
  ∀ i, is_Some (book_nodes s !! i) → is_Some (book_nodes d !! i) → stock d i = stock s i.

(** A book comes in with a stock that is not negative (section 3). *)
Definition input_ok (o : op) : Prop :=
  match o with
  | AddBook book => 0 ≤ Book.quantity book
  | _ => True
  end.

(** The operation returned, and not [False]. *)
Definition succeeded (r : exn + answer) : Prop :=
  match r with
  | inl _ | inr (Flag false) => False
  | inr _ => True
  end.

(** Weakest preconditions over the store.  [wp m Q s]: from store [s],
    whatever the pending faults and the log, every outcome of [m] (a value
    or an exception) satisfies [Q] together with the store it leaves. *)
Definition wp {A} (m : M A) (Q : exn + A → store → Prop) (s : store) : Prop :=
  ∀ faults events r w, m (World s faults events) = (r, w) → Q r (db w).

(** What holds between the statements of an operation started in [s0], and
    what holds when it is over. *)
Definition Inv (s0 : store) (K : list string) (d : store) : Prop :=
  consistent d ∧ agree K s0 d.

(** The two ways the ledger of a book is lost: an edit of the stock that
    goes through, and a check-out that does not (its two statements are not
    one transaction). *)
Definition breaks_ledger (o : op) (r : exn + answer) : Prop :=
  match o with
  | EditBook _ field _ => field = "quantity" ∧ succeeded r
  | CheckOut _ _ => ¬ succeeded r
  | _ => False
  end.

Definition post (s0 : store) (o : op) (r : exn + answer) (d : store) : Prop :=
  consistent d ∧ (¬ breaks_ledger o r → ledger_kept s0 d).

(** ** What leaves an operation *)

(** The operations that send a statement outside every [try] block, or
    unpack a value list that may be empty. *)
Definition may_raise (o : op) : Prop :=
  match o with
  | EditBook _ field value => field = "authors" ∨ value = []
  | BookStats _ | UserStats _ => True
  | _ => False
  end.

(** [m] returns, whatever the world. *)
Definition returns {A} (m : M A) : Prop := ∀ w, ∃ a, (m w).1 = inr a.

(** [m] raises nothing but [CypherError]. *)
Definition raises_cypher_only {A} (m : M A) : Prop :=
  ∀ w message, (m w).1 ≠ inl (ValueError message).

(** The line [__handle_cyphererror] writes for a store error. *)
Definition fault_line (message : string) : event := Event LError "{}" [AStr message].

(** Between [w] and [w'] every store fault that came up is on the log with
    its message, except the one that leaves as the exception in [r]. *)
Definition accounted {A} (w : world) (r : exn + A) (w' : world) : Prop :=
  ∃ consumed added,
    pending w = (consumed ++ pending w')%list ∧ log w' = (log w ++ added)%list ∧
    ∀ message, Some message ∈ consumed →
      fault_line message ∈ added ∨ r = inl (CypherError message).

Definition accounts {A} (m : M A) : Prop := ∀ w, accounted w (m w).1 (m w).2.

(** A handler that logs the message it is given and meets no fault. *)
Definition logs_message {A} (h : string → M A) : Prop :=
  ∀ message w, ∃ added,
    pending (h message w).2 = pending w ∧ log (h message w).2 = (log w ++ added)%list ∧
    fault_line message ∈ added.

(** ** Authors without a book *)

(** No Author node is an orphan: each has an Author_Of relation. *)
Definition tidy (s : store) : Prop :=
  ∀ a, a ∈ author_nodes s → a ∈ (author_of s).*1.

(** The operations that create, link, unlink or delete authors. *)
Definition touches_authors (o : op) : Prop :=
  match o with
  | AddBook _ | RemoveBook _ => True
  | EditBook _ field _ => field = "authors"
  | _ => False
  end.

(** [d] has the Author nodes of [s], each with the relations it has in [s]. *)
Definition same_authors (s d : store) : Prop :=
  author_nodes d = author_nodes s ∧ (author_of d).*1 = (author_of s).*1.

(** ** Relations of a pair *)

Section Pairs.
Context {A : Type}.
Implicit Types (l : list (string * string * A)) (r : string * string * A).

Lemma is_pair_true username isbn r :
  is_pair username isbn r = true ↔ r.1 = (username, isbn).
Proof.
  destruct r as [[u i] v]. unfold is_pair, rel_user, rel_isbn. simpl.
  rewrite andb_true_iff, !bool_decide_eq_true. split.
  - intros [-> ->]. done.
  - intros [= -> ->]. done.
Qed.

Lemma lookup_pair_nil username isbn : lookup_pair (A:=A) username isbn [] = None.
Proof. done. Qed.

Lemma lookup_pair_cons username isbn r l :
  lookup_pair username isbn (r :: l) =
  if is_pair username isbn r then Some (rel_val r) else lookup_pair username isbn l.
Proof.
  unfold lookup_pair. rewrite filter_cons.
  destruct (is_pair username isbn r); case_decide; done.
Qed.

Lemma lookup_pair_None username isbn l :
  lookup_pair username isbn l = None ↔ ∀ r, r ∈ l → r.1 ≠ (username, isbn).
Proof.
  induction l as [|r l IH].
  - split; [intros _ r Hr; by apply elem_of_nil in Hr | done].
  - rewrite lookup_pair_cons. destruct (is_pair username isbn r) eqn:E.
    + split; [done|]. intros H. apply is_pair_true in E.
      exfalso. by apply (H r); [left|].
    + rewrite IH. split.
      * intros H r' [->|Hr']%elem_of_cons; [|by apply H].
        intros Hk%is_pair_true. congruence.
      * intros H r' Hr'. apply H. by right.
Qed.

Lemma lookup_pair_Some_elem username isbn l v :
  lookup_pair username isbn l = Some v → (username, isbn, v) ∈ l.
Proof.
  induction l as [|r l IH]; [done|]. rewrite lookup_pair_cons.
  destruct (is_pair username isbn r) eqn:E.
  - intros [= <-]. apply is_pair_true in E. destruct r as [k v]. simpl in *. subst. by left.
  - intros H. right. by apply IH.
Qed.

Lemma lookup_pair_app username isbn l l' :
  lookup_pair username isbn (l ++ l') =
  match lookup_pair username isbn l with
  | Some v => Some v
  | None => lookup_pair username isbn l'
  end.
Proof.
  induction l as [|r l IH]; [done|]. simpl. rewrite !lookup_pair_cons.
  by destruct (is_pair username isbn r).
Qed.

Lemma on_pair_key username isbn g r : (on_pair username isbn g r).1 = r.1.
Proof. unfold on_pair. by destruct (is_pair username isbn r). Qed.

Lemma lookup_pair_on_pair username isbn g u i l :
  lookup_pair u i (on_pair username isbn g <$> l) =
  if decide ((u, i) = (username, isbn)) then g <$> lookup_pair u i l else lookup_pair u i l.
Proof.
  induction l as [|r l IH].
  - by case_decide.
  - rewrite fmap_cons, !lookup_pair_cons, IH.
    destruct (is_pair u i r) eqn:E.
    + assert (is_pair u i (on_pair username isbn g r) = true) as ->.
      { apply is_pair_true. rewrite on_pair_key. by apply is_pair_true. }
      apply is_pair_true in E. unfold on_pair. case_decide as Hd.
      * assert (is_pair username isbn r = true) as -> by (apply is_pair_true; congruence).
        done.
      * assert (is_pair username isbn r = false) as ->; [|done].
        apply not_true_is_false. rewrite is_pair_true. congruence.
    + assert (is_pair u i (on_pair username isbn g r) = false) as ->; [|done].
      apply not_true_is_false. rewrite is_pair_true, on_pair_key, <-is_pair_true. congruence.
Qed.

Lemma lookup_pair_filter_out username isbn u i l :
  lookup_pair u i (filter (λ r, is_pair username isbn r ≠ true) l) =
  if decide ((u, i) = (username, isbn)) then None else lookup_pair u i l.
Proof.
  induction l as [|r l IH].
  - by case_decide.
  - destruct (is_pair username isbn r) eqn:Hp.
    + rewrite filter_cons_False by (rewrite Hp; tauto).
      rewrite lookup_pair_cons, IH.
      destruct (is_pair u i r) eqn:E; [|done].
      case_decide as Hd; [done|]. exfalso. apply Hd.
      apply is_pair_true in E, Hp. congruence.
    + rewrite filter_cons_True by (rewrite Hp; congruence).
      rewrite !lookup_pair_cons, IH. destruct (is_pair u i r) eqn:E; [|done].
      case_decide as Hd; [|done]. exfalso.
      apply is_pair_true in E. apply not_true_iff_false in Hp. apply Hp.
      apply is_pair_true. congruence.
Qed.
End Pairs.

(** ** Check-out *)

Lemma session_run_calm {R} (q : query R) s events :
  session_run q (World s [] events) =
  match q s with
  | inl msg => (inl (CypherError msg), World s [] events)
  | inr (r, d) => (inr r, World d [] events)
  end.
Proof. done. Qed.

Lemma session_run_fault {R} (q : query R) s msg faults events :
  session_run q (World s (Some msg :: faults) events) =
  (inl (CypherError msg), World s faults events).
Proof. done. Qed.

Lemma session_run_pass {R} (q : query R) s faults events :
  session_run q (World s (None :: faults) events) =
  match q s with
  | inl msg => (inl (CypherError msg), World s faults events)
  | inr (r, d) => (inr r, World d faults events)
  end.
Proof. done. Qed.

Lemma session_run_read {R} (q : query R) s rows faults events :
  q s = inr (rows, s) →
  ∃ faults', session_run q (World s faults events) = (inr rows, World s faults' events)
             ∨ ∃ msg, session_run q (World s faults events)
                      = (inl (CypherError msg), World s faults' events).
Proof.
  intros Hq. destruct faults as [|[msg|] faults].
  - exists []. left. by rewrite session_run_calm, Hq.
  - exists faults. right. by exists msg.
  - exists faults. left. by rewrite session_run_pass, Hq.
Qed.

Lemma alter_lookup_Some {A} (f : A → A) (m : gmap string A) i x :
  m !! i = Some x → alter f i m = <[i := f x]> m.
Proof.
  intros Hx. apply map_eq. intros j. rewrite lookup_alter, lookup_insert.
  case_decide; subst; by rewrite ?Hx.
Qed.

Lemma last_option_list {A} (o : option A) : last (option_list o) = o.
Proof. by destruct o. Qed.

Lemma has_book_true s isbn : Cypher.has_book s isbn = true ↔ is_Some (book_nodes s !! isbn).
Proof. apply bool_decide_eq_true. Qed.
Lemma has_user_true s username : Cypher.has_user s username = true ↔ is_Some (user_nodes s !! username).
Proof. apply bool_decide_eq_true. Qed.

Lemma merge_borrows_count username isbn l :
  let l' := if bool_decide (Exists (λ r, is_pair username isbn r = true) l)
            then on_pair username isbn (λ n, n + 1) <$> l
            else (l ++ [(username, isbn, 1)])%list in
  lookup_pair username isbn l' = Some (default 0 (lookup_pair username isbn l) + 1) ∧
  ∀ u i, (u, i) ≠ (username, isbn) → lookup_pair u i l' = lookup_pair u i l.
Proof.
  simpl. case_bool_decide as Hex.
  - split.
    + rewrite lookup_pair_on_pair, decide_True by done.
      destruct (lookup_pair username isbn l) eqn:E; [done|].
      exfalso. apply Exists_exists in Hex as (r & Hr & Hp).
      rewrite lookup_pair_None in E. apply (E r Hr). by apply is_pair_true.
    + intros u i Hne. by rewrite lookup_pair_on_pair, decide_False.
  - assert (lookup_pair username isbn l = None) as Hnone.
    { apply lookup_pair_None. intros r Hr Hk. apply Hex, Exists_exists.
      exists r. split; [done|]. by apply is_pair_true. }
    split.
    + rewrite lookup_pair_app, Hnone, lookup_pair_cons.
      assert (is_pair username isbn (username, isbn, 1) = true) as -> by by apply is_pair_true.
      done.
    + intros u i Hne. rewrite lookup_pair_app, lookup_pair_cons.
      assert (is_pair u i (username, isbn, 1) = false) as ->.
      { apply not_true_is_false. rewrite is_pair_true. simpl. congruence. }
      by destruct (lookup_pair u i l).
Qed.

(** C2.  [check_out_book_for_user]: when the book is missing, its quantity
    is [<= 0] or the user is missing, the call returns [False] and leaves
    the store as it was, whatever store faults are pending; without faults
    the error line names the reason, tried in the order book, stock, user.
    Otherwise the call returns [True]: the Borrows relation of the pair
    carries 1 if there was none and one more than before if there was one,
    the quantity of the book is one less, and nothing else changes. *)
Theorem check_out_contract (isbn username : string) (s : store) (events : list event) :
  let run := check_out_book_for_user isbn username in
  (∀ faults,
     book_nodes s !! isbn = None
     ∨ (∃ b, book_nodes s !! isbn = Some b ∧ b_quantity b ≤ 0)
     ∨ user_nodes s !! username = None →
     ∃ w, run (World s faults events) = (inr false, w) ∧ db w = s) ∧
  (book_nodes s !! isbn = None →
     run (World s [] events) =
     (inr false, World s [] (events ++ [Event LError "book isbn={} does not exist" [AStr isbn]]))) ∧
  (∀ b, book_nodes s !! isbn = Some b → b_quantity b ≤ 0 →
     run (World s [] events) =
     (inr false, World s [] (events ++ [Event LError "book isbn={} is out of stock" [AStr isbn]]))) ∧
  (∀ b, book_nodes s !! isbn = Some b → 0 < b_quantity b → user_nodes s !! username = None →
     run (World s [] events) =
     (inr false,
      World s [] (events ++ [Event LError "user username={} does not exist" [AStr username]]))) ∧
  (∀ b u, book_nodes s !! isbn = Some b → 0 < b_quantity b → user_nodes s !! username = Some u →
     ∃ s', run (World s [] events) =
           (inr true,
            World s' [] (events ++ [Event LSuccess "checked out book isbn={} for user username={}"
                                          [AStr isbn; AStr username]])) ∧
       borrow_count s' username isbn = Some (default 0 (borrow_count s username isbn) + 1) ∧
       (∀ u' i', (u', i') ≠ (username, isbn) → borrow_count s' u' i' = borrow_count s u' i') ∧
       book_nodes s' = <[isbn := set_quantity (b_quantity b - 1) b]> (book_nodes s) ∧
       user_nodes s' = user_nodes s ∧ author_nodes s' = author_nodes s ∧
       author_of s' = author_of s ∧ rates s' = rates s).
Proof.
  intros run. subst run. unfold check_out_book_for_user, get_book, get_user.
  repeat split.
  - intros faults Hfail. unfold try_except_cypher, bind.
    destruct (session_run_read (Cypher.match_book isbn) s _ faults events eq_refl)
      as (faults1 & [-> | [msg ->]]); [|by eexists].
    rewrite last_option_list.
    destruct (book_nodes s !! isbn) as [b|] eqn:Hb; simpl; [|by eexists].
    destruct (Z.leb_spec (b_quantity b) 0) as [Hq|Hq]; [by eexists|].
    destruct Hfail as [?|[(b' & ? & ?)|Hu]]; [done|simplify_eq; lia|].
    destruct (session_run_read (Cypher.match_user username) s _ faults1 events eq_refl)
      as (faults2 & [-> | [msg ->]]); [|by eexists].
    rewrite last_option_list, Hu. simpl. by eexists.
  - intros Hb. unfold try_except_cypher, bind. rewrite session_run_calm. simpl.
    by rewrite Hb.
  - intros b Hb Hq. unfold try_except_cypher, bind. rewrite session_run_calm. simpl.
    rewrite Hb. simpl. by destruct (Z.leb_spec (b_quantity b) 0); [|lia].
  - intros b Hb Hq Hu. unfold try_except_cypher, bind. rewrite !session_run_calm. simpl.
    rewrite Hb. simpl. destruct (Z.leb_spec (b_quantity b) 0); [lia|].
    rewrite session_run_calm. simpl. by rewrite Hu.
  - intros b u Hb Hq Hu. unfold try_except_cypher, bind. rewrite !session_run_calm. simpl.
    rewrite Hb. simpl. destruct (Z.leb_spec (b_quantity b) 0); [lia|].
    rewrite session_run_calm. simpl. rewrite Hu. simpl.
    rewrite session_run_calm. unfold Cypher.merge_borrows.
    assert (Cypher.has_user s username = true) as -> by (by apply has_user_true).
    assert (Cypher.has_book s isbn = true) as -> by (by apply has_book_true).
    simpl.
    pose proof (merge_borrows_count username isbn (borrows s)) as [Hc Hframe].
    simpl in Hc, Hframe. unfold Cypher.ok.
    case_bool_decide; simpl; eexists; (split; [reflexivity|]); simpl;
      (split; [exact Hc|]); (split; [exact Hframe|]);
      (split; [|done]);
      by rewrite (alter_lookup_Some _ _ _ _ Hb).
Qed.

(** ** Return *)

Section Unique.
Context {A : Type}.
Implicit Types (l : list (string * string * A)).

Lemma filter_pair_nil username isbn l :
  (∀ r, r ∈ l → r.1 ≠ (username, isbn)) →
  filter (λ r, is_pair username isbn r = true) l = [].
Proof.
  induction l as [|r l IH]; [done|]. intros H.
  rewrite filter_cons_False.
  - apply IH. intros r' Hr'. apply H. by right.
  - rewrite is_pair_true. apply H. by left.
Qed.

Lemma filter_pair_unique username isbn l v :
  NoDup (fst <$> l) → lookup_pair username isbn l = Some v →
  filter (λ r, is_pair username isbn r = true) l = [(username, isbn, v)].
Proof.
  induction l as [|r l IH]; [done|].
  rewrite fmap_cons, NoDup_cons, lookup_pair_cons. intros [Hr Hl].
  destruct (is_pair username isbn r) eqn:E.
  - intros [= <-]. rewrite filter_cons_True by done.
    apply is_pair_true in E. rewrite filter_pair_nil.
    + destruct r as [k v]. simpl in *. by subst.
    + intros r' Hr' Hk. apply Hr. apply list_elem_of_fmap. exists r'.
      split; [congruence|done].
  - intros Hv. rewrite filter_cons_False by (rewrite E; done). by apply IH.
Qed.
End Unique.

(** C3.  [return_book_for_user]: when the pair has no Borrows relation the
    call returns [False] and leaves the store as it was, whatever store
    faults are pending, and without faults logs that the book was not
    checked out.  When the pair has its one Borrows relation with count
    [n], the call returns [True]: the relation is gone if [n = 1] and
    carries [n - 1] otherwise, the quantity of the book is one more, and
    nothing else changes. *)
Theorem return_contract (isbn username : string) (s : store) (events : list event) :
  let run := return_book_for_user isbn username in
  (∀ faults, borrow_count s username isbn = None →
     ∃ w, run (World s faults events) = (inr false, w) ∧ db w = s) ∧
  (borrow_count s username isbn = None →
     run (World s [] events) =
     (inr false,
      World s [] (events ++ [Event LError "book isbn={} was not checked out by user username={}"
                                   [AStr isbn; AStr username]]))) ∧
  (∀ b n, NoDup (fst <$> borrows s) →
     is_Some (user_nodes s !! username) → book_nodes s !! isbn = Some b →
     borrow_count s username isbn = Some n →
     ∃ s', run (World s [] events) =
           (inr true,
            World s' [] (events ++ [Event LSuccess "returned book isbn={} for user username={}"
                                          [AStr isbn; AStr username]])) ∧
       borrow_count s' username isbn = (if decide (n = 1) then None else Some (n - 1)) ∧
       (∀ u' i', (u', i') ≠ (username, isbn) → borrow_count s' u' i' = borrow_count s u' i') ∧
       book_nodes s' = <[isbn := set_quantity (b_quantity b + 1) b]> (book_nodes s) ∧
       user_nodes s' = user_nodes s ∧ author_nodes s' = author_nodes s ∧
       author_of s' = author_of s ∧ rates s' = rates s).
Proof.
  intros run. subst run. unfold return_book_for_user.
  assert (borrow_count s username isbn = None →
          Cypher.match_borrows username isbn s = inr ([], s)) as Hnone.
  { intros Hn. unfold Cypher.match_borrows.
    destruct (Cypher.has_user s username && Cypher.has_book s isbn); [|done].
    rewrite filter_pair_nil; [done|]. by apply lookup_pair_None. }
  repeat split.
  - intros faults Hn. unfold try_except_cypher, bind.
    destruct (session_run_read _ s _ faults events (Hnone Hn))
      as (faults1 & [-> | [msg ->]]); by eexists.
  - intros Hn. unfold try_except_cypher, bind.
    by rewrite session_run_calm, (Hnone Hn).
  - intros b n Hdup Hu Hb Hn. unfold try_except_cypher, bind, borrow_count in *.
    rewrite session_run_calm. unfold Cypher.match_borrows.
    assert (Cypher.has_user s username = true) as Hhu by (by apply has_user_true).
    assert (Cypher.has_book s isbn = true) as Hhb by (by apply has_book_true).
    rewrite Hhu, Hhb. simpl.
    rewrite (filter_pair_unique _ _ _ _ Hdup Hn). simpl.
    rewrite session_run_calm.
    destruct (Z.eqb_spec n 1) as [->|Hne].
    + unfold Cypher.delete_borrows. rewrite Hhu, Hhb. simpl.
      rewrite (filter_pair_unique _ _ _ _ Hdup Hn). simpl.
      eexists. split; [reflexivity|]. simpl. unfold borrow_count. simpl.
      split; [by rewrite lookup_pair_filter_out, decide_True|].
      split; [intros; by rewrite lookup_pair_filter_out, decide_False|].
      split; [|done]. by rewrite (alter_lookup_Some _ _ _ _ Hb).
    + unfold Cypher.decrement_borrows. rewrite Hhu, Hhb. simpl.
      rewrite (filter_pair_unique _ _ _ _ Hdup Hn). simpl.
      eexists. split; [reflexivity|]. simpl. unfold borrow_count. simpl.
      rewrite decide_False by done.
      split; [by rewrite lookup_pair_on_pair, decide_True, Hn|].
      split; [intros; by rewrite lookup_pair_on_pair, decide_False|].
      split; [|done]. by rewrite (alter_lookup_Some _ _ _ _ Hb).
Qed.

(** ** Removal of what is missing, validation, escaping store errors *)

Lemma has_book_false s isbn : book_nodes s !! isbn = None → Cypher.has_book s isbn = false.
Proof. intros H. apply bool_decide_eq_false. rewrite H. by intros [? ?]. Qed.
Lemma has_user_false s username :
  user_nodes s !! username = None → Cypher.has_user s username = false.
Proof. intros H. apply bool_decide_eq_false. rewrite H. by intros [? ?]. Qed.

(** C10.  Removing what is not there is reported as a success:
    [remove_book] on an isbn without Book node and [remove_user] on a
    username without User node return [True], log the success line and
    leave the store unchanged. *)
Theorem remove_missing_reports_success (s : store) (events : list event) :
  (∀ isbn, book_nodes s !! isbn = None →
     remove_book isbn (World s [] events) =
     (inr true, World s [] (events ++ [Event LSuccess "removed book isbn={}" [AStr isbn]]))) ∧
  (∀ username, user_nodes s !! username = None →
     remove_user username (World s [] events) =
     (inr true,
      World s [] (events ++ [Event LSuccess "removed user username={}" [AStr username]]))).
Proof.
  split.
  - intros isbn Hb. apply has_book_false in Hb.
    unfold remove_book, try_except_cypher, bind, run_session, try_except_cypher, bind.
    rewrite session_run_calm. unfold Cypher.count_book_user_relations. rewrite Hb. simpl.
    rewrite session_run_calm. unfold Cypher.unlink_authors. rewrite Hb. simpl.
    rewrite session_run_calm. unfold Cypher.delete_book. rewrite Hb. done.
  - intros username Hu. apply has_user_false in Hu.
    unfold remove_user, try_except_cypher, bind.
    rewrite session_run_calm. unfold Cypher.count_user_book_relations. rewrite Hu. simpl.
    rewrite session_run_calm. unfold Cypher.delete_user. rewrite Hu. done.
Qed.

(** C10 at the library of the scenarios: no book 999, no user carol. *)
Lemma remove_missing_reports_success_witness :
  remove_book "999" (calm library) =
    (inr true, World library [] [Event LSuccess "removed book isbn={}" [AStr "999"]])
  ∧ remove_user "carol" (calm library) =
    (inr true, World library [] [Event LSuccess "removed user username={}" [AStr "carol"]]).
Proof.
  destruct (remove_missing_reports_success library []) as [Hbook Huser].
  split; [apply Hbook | apply Huser]; vm_compute; reflexivity.
Defined.

(** C9.  The range check of [edit_book] on a numeric field is [value < 0],
    for [pages] as for [quantity], although its message asks for a positive
    integer: [edit_book isbn "pages" ["0"]] passes validation, the [SET]
    statement is sent, the book gets [pages = 0] and the call returns
    [True]. *)
Theorem edit_book_pages_zero_is_written (isbn : string) (s : store) (events : list event) :
  edit_book isbn "pages" ["0"] (World s [] events) =
  (inr true,
   World (with_books (alter (set_pages 0) isbn) s) []
         (events ++ [Event LSuccess "edited book with field={} and new value={}"
                           [AStr "pages"; AInt 0]])).
Proof. reflexivity. Qed.

(** What the validation of [edit_book] does reject: a value that [int]
    refuses and a negative integer, both before any [session.run] (the
    pending faults are untouched) and with the store unchanged. *)
Lemma edit_book_number_rejected (isbn field v : string) (s : store) faults events :
  field = "quantity" ∨ field = "pages" →
  (int v = None →
     edit_book isbn field [v] (World s faults events) =
     (inr false,
      World s faults (events ++ [Event LError "field {} requires value to be an integer but got {}"
                                       [AStr field; AStr v]]))) ∧
  (∀ n, int v = Some n → n < 0 →
     edit_book isbn field [v] (World s faults events) =
     (inr false,
      World s faults
        (events ++ [Event LError "field {} requires value to be a positive integer by got {}"
                          [AStr field; AInt n]]))).
Proof.
  intros Hf. unfold edit_book.
  assert (bool_decide (field = "authors") = false) as ->.
  { apply bool_decide_eq_false. by destruct Hf as [-> | ->]. }
  assert (bool_decide (field = "quantity") || bool_decide (field = "pages") = true) as ->.
  { destruct Hf as [-> | ->]; done. }
  split.
  - by intros ->.
  - intros n -> Hn. by destruct (Z.ltb_spec n 0); [|lia].
Qed.

(** C8.  Three operations call [session.run] outside any [try]: the
    authors branch of [edit_book], and [get_book_stats] and
    [get_user_stats] through [get_book] and [get_user].  When the store
    raises [CypherError] on their first statement, the exception leaves the
    operation, nothing is logged and no result is returned. *)
Theorem store_error_escapes (s : store) (message : string) faults events :
  (∀ isbn names,
     edit_book isbn "authors" names (World s (Some message :: faults) events) =
     (inl (CypherError message), World s faults events)) ∧
  (∀ isbn, get_book_stats isbn (World s (Some message :: faults) events) =
           (inl (CypherError message), World s faults events)) ∧
  (∀ username, get_user_stats username (World s (Some message :: faults) events) =
               (inl (CypherError message), World s faults events)).
Proof. repeat split. Qed.

(** ** Orphaned authors *)

Lemma length_filter_zero {A} (P : A → Prop) `{∀ x, Decision (P x)} (l : list A) :
  Z.of_nat (length (filter P l)) = 0 ↔ ¬ Exists P l.
Proof.
  rewrite Exists_exists. split.
  - intros Hlen (x & Hx & HP).
    assert (x ∈ filter P l) as Hin by (by apply list_elem_of_filter).
    destruct (filter P l); [by apply elem_of_nil in Hin|simpl in Hlen; lia].
  - intros Hno. destruct (filter P l) as [|x l'] eqn:E; [done|].
    exfalso. apply Hno. exists x.
    assert (x ∈ filter P l) as Hin by (rewrite E; left).
    apply list_elem_of_filter in Hin as [? ?]. done.
Qed.

Lemma orphan_step_calm name s events :
  (do counts <- session_run (Cypher.count_author_books name);
   delete_if_orphan name counts) (World s [] events)
  = (inr true, World (drop_orphan s name) [] events)
  ∧ (do counts <- session_run (Cypher.count_author_books name);
     delete_author_if_orphan name counts) (World s [] events)
  = (inr true, World (drop_orphan s name) [] events).
Proof.
  unfold bind, drop_orphan. rewrite session_run_calm. unfold Cypher.count_author_books.
  destruct (Cypher.has_author s name) eqn:Ha; simpl.
  - destruct (Z.eqb_spec (Z.of_nat (length (filter (λ r, r.1 = name) (author_of s)))) 0)
      as [Hz|Hz].
    + apply length_filter_zero in Hz.
      unfold run_session, try_except_cypher, bind. rewrite session_run_calm.
      unfold Cypher.delete_author. rewrite Ha.
      rewrite !bool_decide_eq_false_2 by done. done.
    + rewrite length_filter_zero in Hz. apply dec_stable in Hz.
      rewrite bool_decide_eq_true_2 by done. done.
  - unfold run_session, try_except_cypher, bind. rewrite session_run_calm.
    unfold Cypher.delete_author. rewrite Ha. done.
Qed.

Lemma clean_up_orphans_calm removed s events :
  clean_up_orphans removed (World s [] events)
  = (inr true, World (foldl drop_orphan s removed) [] events).
Proof.
  revert s. induction removed as [|name rest IH]; intros s; [done|].
  pose proof (orphan_step_calm name s events) as [Hstep _].
  simpl. unfold bind in *. 
  destruct (session_run (Cypher.count_author_books name) (World s [] events)) as [[e|counts] w].
  - done.
  - rewrite Hstep. apply IH.
Qed.

Lemma check_orphaned_authors_calm removed s events :
  check_orphaned_authors removed (World s [] events)
  = (inr true, World (foldl drop_orphan s removed) [] events).
Proof.
  revert s. induction removed as [|name rest IH]; intros s; [done|].
  pose proof (orphan_step_calm name s events) as [_ Hstep].
  simpl. unfold bind in *.
  destruct (session_run (Cypher.count_author_books name) (World s [] events)) as [[e|counts] w].
  - done.
  - rewrite Hstep. apply IH.
Qed.

Lemma drop_orphans_frame removed s :
  let s' := foldl drop_orphan s removed in
  book_nodes s' = book_nodes s ∧ user_nodes s' = user_nodes s ∧
  author_of s' = author_of s ∧ borrows s' = borrows s ∧ rates s' = rates s ∧
  ∀ a, a ∈ author_nodes s' ↔
       a ∈ author_nodes s ∧ ¬ (a ∈ removed ∧ ∀ r, r ∈ author_of s → r.1 ≠ a).
Proof.
  revert s. induction removed as [|name rest IH]; intros s; simpl.
  - split_and!; try done. intros a. split; [|by intros [? _]].
    intros ?; split; [done|]. intros [Hin _]. by apply elem_of_nil in Hin.
  - destruct (IH (drop_orphan s name)) as (Hb & Hu & Ho & Hbo & Hr & Ha).
    assert (book_nodes (drop_orphan s name) = book_nodes s ∧
            user_nodes (drop_orphan s name) = user_nodes s ∧
            author_of (drop_orphan s name) = author_of s ∧
            borrows (drop_orphan s name) = borrows s ∧
            rates (drop_orphan s name) = rates s) as (Hb1 & Hu1 & Ho1 & Hbo1 & Hr1).
    { unfold drop_orphan. by destruct (_ && _). }
    rewrite Hb, Hu, Ho, Hbo, Hr. split_and!; try done. intros a. split.
    + intros Hin. apply Ha in Hin as [Hin Hnot]. rewrite Ho1 in Hnot.
      unfold drop_orphan in Hin.
      destruct (Cypher.has_author s name) eqn:E1; simpl in Hin;
        [case_bool_decide as Hex; simpl in Hin|].
      * split; [done|]. intros [[->|Hrest]%elem_of_cons Hno]; [|tauto].
        apply Exists_exists in Hex as (r & Hr' & Hn). by apply (Hno r).
      * apply elem_of_difference in Hin as [Hin Hne]. split; [done|].
        intros [[->|Hrest]%elem_of_cons Hno]; [set_solver|tauto].
      * split; [done|]. intros [[->|Hrest]%elem_of_cons Hno]; [|tauto].
        apply bool_decide_eq_false in E1. done.
    + intros [Hin Hnot]. apply Ha. rewrite Ho1. split.
      * unfold drop_orphan.
        destruct (Cypher.has_author s name) eqn:E1; simpl; [|done].
        case_bool_decide as Hex; simpl; [done|].
        apply elem_of_difference. split; [done|]. intros ->%elem_of_singleton.
        apply Hnot. split; [left|]. intros r Hr' Hn. apply Hex, Exists_exists. eauto.
      * intros [Hrest Hno]. apply Hnot. split; [by right|done].
Qed.

(** ** Replacing the authors of a book *)

Lemma link_authors_calm isbn names s events :
  is_Some (book_nodes s !! isbn) →
  link_authors isbn names (World s [] events) =
  (inr true,
   World (Store (book_nodes s) (user_nodes s) (author_nodes s ∪ list_to_set names)
                (author_of s ++ ((λ n, (n, isbn)) <$> names))%list (borrows s) (rates s))
         [] events).
Proof.
  intros Hb. revert s Hb. induction names as [|name rest IH]; intros s Hb.
  - simpl. destruct s. simpl. by rewrite union_empty_r_L, app_nil_r.
  - simpl. unfold bind, link_author_to_book, run_session, try_except_cypher, bind.
    rewrite session_run_calm. unfold Cypher.link_author.
    rewrite (proj2 (has_book_true s isbn) Hb). simpl.
    rewrite IH by done. simpl.
    by rewrite <-(assoc_L (∪)), <-(assoc_L (++)).
Qed.

(** C5.  [edit_book isbn "authors" names] on an existing book returns
    [True] and leaves: the Author_Of relations of the other books followed
    by one relation to the book per name, in order; as Author nodes the
    names given, and the authors there before except those that had a
    relation to this book and to no other; books, users, Borrows and Rates
    as they were. *)
Theorem set_authors_replaces (isbn : string) (names : list string) (s : store)
    (events : list event) :
  is_Some (book_nodes s !! isbn) →
  ∃ s', edit_book isbn "authors" names (World s [] events) =
        (inr true,
         World s' [] (events ++ [Event LSuccess "edited book with field={} and new value={}"
                                       [AStr "authors"; AList names]])) ∧
    author_of s' = (filter (λ r, r.2 ≠ isbn) (author_of s) ++ ((λ n, (n, isbn)) <$> names))%list ∧
    (∀ a, a ∈ author_nodes s' ↔
          a ∈ names
          ∨ (a ∈ author_nodes s
             ∧ ¬ ((a, isbn) ∈ author_of s ∧ ∀ i, (a, i) ∈ author_of s → i = isbn))) ∧
    book_nodes s' = book_nodes s ∧ user_nodes s' = user_nodes s ∧
    borrows s' = borrows s ∧ rates s' = rates s.
Proof.
  intros Hb. unfold edit_book. simpl. unfold bind.
  rewrite session_run_calm. unfold Cypher.unlink_authors.
  rewrite (proj2 (has_book_true s isbn) Hb). simpl.
  rewrite clean_up_orphans_calm. simpl.
  set (s1 := with_author_of (filter (λ r, r.2 ≠ isbn)) s).
  set (removed := (filter (λ r, r.2 = isbn) (author_of s)).*1).
  destruct (drop_orphans_frame removed s1) as (Hbk & Hus & Hof & Hbo & Hra & Hau).
  rewrite link_authors_calm by (by rewrite Hbk). simpl.
  eexists. split; [reflexivity|]. simpl.
  rewrite Hof, Hbk, Hus, Hbo, Hra. split_and!; try done.
  intros a. rewrite elem_of_union, elem_of_list_to_set, Hau. simpl.
  assert (a ∈ removed ↔ (a, isbn) ∈ author_of s) as ->.
  { unfold removed. rewrite list_elem_of_fmap. split.
    - intros ([a' i] & -> & [? ?]%list_elem_of_filter). simpl in *. by subst.
    - intros Hin. exists (a, isbn). split; [done|]. by apply list_elem_of_filter. }
  assert ((∀ r, r ∈ filter (λ r, r.2 ≠ isbn) (author_of s) → r.1 ≠ a)
          ↔ ∀ i, (a, i) ∈ author_of s → i = isbn) as ->; [|tauto].
  split.
  - intros H i Hin. destruct (decide (i = isbn)) as [|Hne]; [done|].
    exfalso. apply (H (a, i)); [|done]. by apply list_elem_of_filter.
  - intros H [a' i] [Hne Hin]%list_elem_of_filter ?. simpl in *. subst. by apply Hne, H.
Qed.

(** C5 on the scenario of the specification: book 111 by A and B gets the
    authors B and C; A is deleted, B is kept, C is created. *)
Lemma set_authors_replaces_witness :
  ∃ s', edit_book "111" "authors" ["B"; "C"] (calm library) =
        (inr true,
         World s' [] [Event LSuccess "edited book with field={} and new value={}"
                            [AStr "authors"; AList ["B"; "C"]]]) ∧
    ("A" ∉ author_nodes s') ∧ ("B" ∈ author_nodes s') ∧ ("C" ∈ author_nodes s').
Proof.
  destruct (set_authors_replaces "111" ["B"; "C"] library []) as (s' & Hrun & _ & Hmem & _).
  { vm_compute. by eexists. }
  exists s'. split; [exact Hrun|]. rewrite !Hmem. split_and!.
  - change (author_of library) with [("A", "111"); ("B", "111")].
    intros [Hin | [_ Hno]].
    + repeat (apply elem_of_cons in Hin as [Hin|Hin]; [done|]). by apply elem_of_nil in Hin.
    + apply Hno. split; [apply list_elem_of_here|]. intros i Hin.
      repeat (apply elem_of_cons in Hin as [Hin|Hin]; [by simplify_eq|]).
      by apply elem_of_nil in Hin.
  - left. apply list_elem_of_here.
  - left. apply list_elem_of_further, list_elem_of_here.
Defined.

(** ** The deletion guard *)

Lemma count_two_zero {A B} (P : A → Prop) (Q : B → Prop)
    `{∀ x, Decision (P x)} `{∀ x, Decision (Q x)} (l : list A) (k : list B) :
  Z.of_nat (length (filter P l) + length (filter Q k)) = 0 ↔ ¬ (Exists P l ∨ Exists Q k).
Proof.
  rewrite Nat2Z.inj_add.
  pose proof (length_filter_zero P l). pose proof (length_filter_zero Q k). 
  split; [intros ?; assert (Z.of_nat (length (filter P l)) = 0
                           ∧ Z.of_nat (length (filter Q k)) = 0) by lia; tauto|].
  intros ?. assert (Z.of_nat (length (filter P l)) = 0) by tauto.
  assert (Z.of_nat (length (filter Q k)) = 0) by tauto. lia.
Qed.

(** C6.  The guard of [remove_book] and of [remove_user] counts every
    relation between the book and a User, between the user and a Book:
    Borrows and Rates alike.  A book (a user) in use by either is refused,
    the error line giving the number of Borrows and Rates relations that
    hang on it, and the store is unchanged;
    a book in no such relation is removed together with its Author_Of
    relations and the authors these leave without a book, a user in no such
    relation is removed, all else being kept. *)
Theorem deletion_guard (s : store) (events : list event) :
  (∀ isbn, is_Some (book_nodes s !! isbn) → book_in_use s isbn →
     book_relations s isbn ≠ 0 ∧
     remove_book isbn (World s [] events) =
     (inr false,
      World s [] (events ++ [Event LError "book isbn={} is involved in {} user relations"
                                   [AStr isbn; AInt (book_relations s isbn)]]))) ∧
  (∀ isbn, is_Some (book_nodes s !! isbn) → ¬ book_in_use s isbn →
     ∃ s', remove_book isbn (World s [] events) =
           (inr true, World s' [] (events ++ [Event LSuccess "removed book isbn={}" [AStr isbn]])) ∧
       book_nodes s' = delete isbn (book_nodes s) ∧
       author_of s' = filter (λ r, r.2 ≠ isbn) (author_of s) ∧
       (∀ a, a ∈ author_nodes s' ↔
             a ∈ author_nodes s
             ∧ ¬ ((a, isbn) ∈ author_of s ∧ ∀ i, (a, i) ∈ author_of s → i = isbn)) ∧
       user_nodes s' = user_nodes s ∧ borrows s' = borrows s ∧ rates s' = rates s) ∧
  (∀ username, is_Some (user_nodes s !! username) → user_in_use s username →
     user_relations s username ≠ 0 ∧
     remove_user username (World s [] events) =
     (inr false,
      World s [] (events ++ [Event LError "user username={} is involved in {} book relations"
                                   [AStr username; AInt (user_relations s username)]]))) ∧
  (∀ username, is_Some (user_nodes s !! username) → ¬ user_in_use s username →
     remove_user username (World s [] events) =
     (inr true,
      World (with_users (delete username) s) []
            (events ++ [Event LSuccess "removed user username={}" [AStr username]]))).
Proof.
  split_and!.
  - intros isbn Hb%has_book_true Huse.
    unfold remove_book, try_except_cypher, bind. rewrite session_run_calm.
    unfold Cypher.count_book_user_relations. rewrite Hb. simpl.
    unfold book_relations. rewrite filter_app, length_app.
    set (n := Z.of_nat _).
    assert (n ≠ 0) as Hn by (unfold n; rewrite count_two_zero; unfold book_in_use in Huse; tauto).
    split; [done|]. by destruct (Z.eqb_spec n 0).
  - intros isbn Hb%has_book_true Huse.
    unfold remove_book, try_except_cypher, bind. rewrite session_run_calm.
    unfold Cypher.count_book_user_relations. rewrite Hb. simpl.
    destruct (Z.eqb_spec (Z.of_nat (length (filter (λ r, rel_isbn r = isbn) (borrows s))
                                    + length (filter (λ r, rel_isbn r = isbn) (rates s)))) 0)
      as [Hz|Hz]; [|by rewrite count_two_zero in Hz]. simpl.
    rewrite session_run_calm. unfold Cypher.unlink_authors. rewrite Hb. simpl.
    rewrite check_orphaned_authors_calm. simpl.
    set (s1 := with_author_of (filter (λ r, r.2 ≠ isbn)) s).
    set (removed := (filter (λ r, r.2 = isbn) (author_of s)).*1).
    destruct (drop_orphans_frame removed s1) as (Hbk & Hus & Hof & Hbo & Hra & Hau).
    unfold run_session, try_except_cypher, bind. rewrite session_run_calm.
    unfold Cypher.delete_book.
    assert (Cypher.has_book (foldl drop_orphan s1 removed) isbn = true) as ->.
    { unfold Cypher.has_book. by rewrite Hbk. }
    rewrite Hof, Hbo, Hra. simpl.
    rewrite (bool_decide_eq_false_2 (Exists _ (filter _ _))); last first.
    { rewrite Exists_exists. intros (r & [? ?]%list_elem_of_filter & ?). done. }
    rewrite !bool_decide_eq_false_2 by (unfold book_in_use in Huse; tauto). simpl.
    eexists. split; [reflexivity|]. simpl. rewrite Hbk, Hof, Hus, Hbo, Hra.
    split_and!; try done.
    intros a. rewrite Hau. simpl.
    assert (a ∈ removed ↔ (a, isbn) ∈ author_of s) as ->.
    { unfold removed. rewrite list_elem_of_fmap. split.
      - intros ([a' i] & -> & [? ?]%list_elem_of_filter). simpl in *. by subst.
      - intros Hin. exists (a, isbn). split; [done|]. by apply list_elem_of_filter. }
    assert ((∀ r, r ∈ filter (λ r, r.2 ≠ isbn) (author_of s) → r.1 ≠ a)
            ↔ ∀ i, (a, i) ∈ author_of s → i = isbn) as ->; [|tauto].
    split.
    + intros H i Hin. destruct (decide (i = isbn)) as [|Hne]; [done|].
      exfalso. apply (H (a, i)); [|done]. by apply list_elem_of_filter.
    + intros H [a' i] [Hne Hin]%list_elem_of_filter ?. simpl in *. subst. by apply Hne, H.
  - intros username Hu%has_user_true Huse.
    unfold remove_user, try_except_cypher, bind. rewrite session_run_calm.
    unfold Cypher.count_user_book_relations. rewrite Hu. simpl.
    unfold user_relations. rewrite filter_app, length_app.
    set (n := Z.of_nat _).
    assert (n ≠ 0) as Hn by (unfold n; rewrite count_two_zero; unfold user_in_use in Huse; tauto).
    split; [done|]. unfold first_nonzero. by rewrite filter_cons_True.
  - intros username Hu%has_user_true Huse.
    unfold remove_user, try_except_cypher, bind. rewrite session_run_calm.
    unfold Cypher.count_user_book_relations. rewrite Hu. simpl.
    unfold first_nonzero. rewrite filter_cons_False; last first.
    { intros Hn. apply Hn. by apply count_two_zero. }
    simpl. rewrite session_run_calm. unfold Cypher.delete_user. rewrite Hu.
    rewrite !bool_decide_eq_false_2 by (unfold user_in_use in Huse; tauto). done.
Qed.

(** Against C6 as stated: nobody holds a copy of book 111, alice has rated
    it; [remove_book] and [remove_user] both return [False] and the book is
    still there. *)
Lemma rating_blocks_removal :
  borrows rated_library = []
  ∧ (remove_book "111" (calm rated_library)).1 = inr false
  ∧ db (remove_book "111" (calm rated_library)).2 = rated_library
  ∧ (remove_user "alice" (calm rated_library)).1 = inr false.
Proof. vm_compute. done. Qed.

(** ** Recommendations *)

Lemma elem_of_indexed {A} (l : list A) i x : (i, x) ∈ Cypher.indexed l ↔ l !! i = Some x.
Proof.
  unfold Cypher.indexed. rewrite elem_of_lookup_imap. split.
  - intros (j & y & [= -> ->] & ?). done.
  - intros ?. by exists i, x.
Qed.

Lemma unique_key_index {A} (l : list (string * string * A)) i j r r' :
  NoDup (fst <$> l) → l !! i = Some r → l !! j = Some r' → (i = j ↔ r.1 = r'.1).
Proof.
  intros Hnd Hi Hj. split.
  - intros ->. congruence.
  - intros Hk. eapply (NoDup_lookup _ _ _ _ Hnd); rewrite list_lookup_fmap.
    + by rewrite Hi.
    + rewrite Hj. simpl. by rewrite Hk.
Qed.

Lemma NoDup_indexed {A} (l : list A) : NoDup (Cypher.indexed l).
Proof.
  apply NoDup_alt. intros i j [k x]. unfold Cypher.indexed. rewrite !list_lookup_imap.
  destruct (l !! i), (l !! j); simpl; intros; simplify_eq. done.
Qed.

(** With one relation per pair, a relation is known by its pair. *)
Lemma indexed_key_inj {A} (l : list (string * string * A)) (x1 x2 : nat * (string * string * A)) :
  NoDup (fst <$> l) → x1 ∈ Cypher.indexed l → x2 ∈ Cypher.indexed l →
  rel_user x1.2 = rel_user x2.2 → rel_isbn x1.2 = rel_isbn x2.2 → x1 = x2.
Proof.
  destruct x1 as [i [[u b] v]], x2 as [j [[u' b'] v']]. unfold rel_user, rel_isbn. simpl.
  intros Hnd Hi%elem_of_indexed Hj%elem_of_indexed -> ->.
  assert (i = j) as -> by (by apply (unique_key_index _ _ _ _ _ Hnd Hi Hj)).
  congruence.
Qed.

Lemma fmap_bind_comm {A B C} (f : B → C) (g : A → list B) (l : list A) :
  f <$> (l ≫= g) = l ≫= (λ x, f <$> g x).
Proof.
  induction l as [|x l IH]; [done|]. by rewrite !bind_cons, fmap_app, IH.
Qed.

(** The rows of the recommendation pattern, on the list of Rates relations:
    one row per match of the pattern, a match being known by the shared
    book, the friend and the recommended book. *)
Lemma recommend_matches (s : store) (username : string) rows :
  NoDup (fst <$> rates s) →
  Cypher.recommend username s = inr (rows, s) →
  ∃ matches : list (string * string * string),
    NoDup matches
    ∧ (∀ b1 friend b2, (b1, friend, b2) ∈ matches ↔
         is_Some (user_nodes s !! username) ∧
         ∃ score score3,
           (username, b1, score) ∈ rates s ∧ (friend, b1, score) ∈ rates s ∧
           friend ≠ username ∧
           (friend, b2, score3) ∈ rates s ∧ b2 ≠ b1 ∧ 3 ≤ score3)
    ∧ rows = snd <$> matches.
Proof.
  intros Hnd. unfold Cypher.recommend, Cypher.ok.
  destruct (Cypher.has_user s username) eqn:Hu; last first.
  { intros [= <-]. exists []. split_and!; [constructor| |done].
    intros b1 friend b2. split; [by intros ?%elem_of_nil|].
    intros [Hs _]. apply has_user_true in Hs. congruence. }
  intros [= <-]. apply has_user_true in Hu.
  set (rs := Cypher.indexed (rates s)).
  exists (r1 ← filter (λ r : nat * (string * string * Z), rel_user r.2 = username) rs;
          r2 ← filter (λ r : nat * (string * string * Z),
                         r.1 ≠ r1.1 ∧ rel_isbn r.2 = rel_isbn r1.2
                         ∧ rel_val r.2 = rel_val r1.2) rs;
          r3 ← filter (λ r : nat * (string * string * Z),
                         r.1 ≠ r1.1 ∧ r.1 ≠ r2.1 ∧ rel_user r.2 = rel_user r2.2
                         ∧ (3 ≤ rel_val r.2)%Z) rs;
          [(rel_isbn r1.2, rel_user r2.2, rel_isbn r3.2)]).
  split_and!.
  - apply NoDup_bind; [| |apply NoDup_filter, NoDup_indexed].
    + intros x1 x2 y [Hp1 Hx1]%list_elem_of_filter [Hp2 Hx2]%list_elem_of_filter Hy1 Hy2.
      apply list_elem_of_bind in Hy1 as (r2 & Hy1 & _).
      apply list_elem_of_bind in Hy1 as (r3 & ->%list_elem_of_singleton & _).
      apply list_elem_of_bind in Hy2 as (r2' & Hy2 & _).
      apply list_elem_of_bind in Hy2 as (r3' & [= Hb _ _]%list_elem_of_singleton & _).
      apply (indexed_key_inj (rates s)); try done. congruence.
    + intros r1 [Hp1 Hr1]%list_elem_of_filter.
      apply NoDup_bind; [| |apply NoDup_filter, NoDup_indexed].
      * intros x1 x2 y [Hp Hx1]%list_elem_of_filter [Hp' Hx2]%list_elem_of_filter Hy1 Hy2.
        apply list_elem_of_bind in Hy1 as (r3 & ->%list_elem_of_singleton & _).
        apply list_elem_of_bind in Hy2 as (r3' & [= Hf _]%list_elem_of_singleton & _).
        apply (indexed_key_inj (rates s)); try done.
        destruct Hp as (_ & -> & _), Hp' as (_ & -> & _). done.
      * intros r2 [Hp2 Hr2]%list_elem_of_filter.
        apply NoDup_bind; [| |apply NoDup_filter, NoDup_indexed].
        -- intros x1 x2 y [Hp Hx1]%list_elem_of_filter [Hp' Hx2]%list_elem_of_filter
             ->%list_elem_of_singleton [= Hb]%list_elem_of_singleton.
           apply (indexed_key_inj (rates s)); try done.
           destruct Hp as (_ & _ & -> & _), Hp' as (_ & _ & -> & _). done.
        -- intros r3 _. apply NoDup_singleton.
  - intros b1 friend b2. split.
    + intros Hin. split; [done|].
      apply list_elem_of_bind in Hin as ([i1 [[u1 b1'] s1]] & Hin & [Hk1 Hr1]%list_elem_of_filter).
      apply list_elem_of_bind in Hin as ([i2 [[u2 b1''] s2]] & Hin & [Hk2 Hr2]%list_elem_of_filter).
      apply list_elem_of_bind in Hin as ([i3 [[u3 b3] s3]] & Hin & [Hk3 Hr3]%list_elem_of_filter).
      apply list_elem_of_singleton in Hin. unfold rel_user, rel_isbn, rel_val in *. simpl in *.
      destruct Hk2 as (Hi21 & -> & ->). destruct Hk3 as (Hi31 & Hi32 & -> & Hs3).
      simplify_eq.
      apply elem_of_indexed in Hr1, Hr2, Hr3.
      exists s1, s3. split_and!; try done; try (by eapply list_elem_of_lookup_2).
      * intros ->. apply Hi21. symmetry. by apply (unique_key_index _ _ _ _ _ Hnd Hr1 Hr2).
      * intros ->. apply Hi32. by apply (unique_key_index _ _ _ _ _ Hnd Hr3 Hr2).
    + intros (_ & sc & sc3 & H1 & H2 & Hne & H3 & Hb & Hsc).
      apply list_elem_of_lookup_1 in H1 as [i1 H1], H2 as [i2 H2], H3 as [i3 H3].
      apply list_elem_of_bind. exists (i1, (username, b1, sc)). split; last first.
      { apply list_elem_of_filter. split; [done|]. by apply elem_of_indexed. }
      apply list_elem_of_bind. exists (i2, (friend, b1, sc)). split; last first.
      { apply list_elem_of_filter. split; [|by apply elem_of_indexed].
        simpl. split_and!; try done. intros ->. simplify_eq. }
      apply list_elem_of_bind. exists (i3, (friend, b2, sc3)). split; last first.
      { apply list_elem_of_filter. split; [|by apply elem_of_indexed].
        simpl. split_and!; try done; intros ->; simplify_eq. }
      simpl. left.
  - rewrite fmap_bind_comm. apply list_bind_ext; [intros r1|done].
    rewrite fmap_bind_comm. apply list_bind_ext; [intros r2|done].
    rewrite fmap_bind_comm. by apply list_bind_ext.
Qed.

(** C7.  With one Rates relation per pair, [recommend_books] returns one
    row per match of the pattern and no other: a match is a book [b1] the
    user rated, a friend other than the user who gave [b1] the same score,
    and a book [b2] other than [b1] that this friend rated with a score of
    3 or more; the row is [b2].  The three relations of the pattern are
    distinct, so neither the user nor the shared book comes back through
    itself; a book that several matches end in is listed once for each,
    in no stated order: for alice among the readers of the scenarios,
    book 333 comes twice. *)
Theorem recommendations_characterised :
  (∀ (s : store) (username : string) (events : list event),
     NoDup (fst <$> rates s) →
     ∃ matches : list (string * string * string),
       NoDup matches
       ∧ (∀ b1 friend b2, (b1, friend, b2) ∈ matches ↔
            is_Some (user_nodes s !! username) ∧
            ∃ score score3,
              (username, b1, score) ∈ rates s ∧ (friend, b1, score) ∈ rates s ∧
              friend ≠ username ∧
              (friend, b2, score3) ∈ rates s ∧ b2 ≠ b1 ∧ 3 ≤ score3)
       ∧ recommend_books username (World s [] events)
         = (inr (snd <$> matches), World s [] events)) ∧
  (recommend_books "alice" (calm readers)).1 = inr ["222"; "333"; "111"; "333"].
Proof.
  split; [|by vm_compute].
  intros s username events Hnd. unfold recommend_books, try_except_cypher.
  rewrite session_run_calm.
  destruct (Cypher.recommend username s) as [msg|[rows d]] eqn:E.
  - unfold Cypher.recommend, Cypher.ok in E. by destruct (Cypher.has_user s username).
  - assert (d = s) as ->.
    { unfold Cypher.recommend, Cypher.ok in E.
      destruct (Cypher.has_user s username); by simplify_eq. }
    destruct (recommend_matches _ _ _ Hnd E) as (matches & Hnodup & Hmem & ->).
    by exists matches.
Qed.

Lemma readers_rates : rates readers =
    [("alice", "111", 4); ("bob", "111", 4); ("alice", "222", 5); ("bob", "222", 5);
     ("bob", "333", 3)].
Proof. by vm_compute. Qed.

Ltac pick := repeat first [apply list_elem_of_here | apply list_elem_of_further].

(** C7 among the readers: the match through book 111 and bob that ends in
    book 333 gives a row. *)
Lemma recommendations_characterised_witness :
  ∃ matches : list (string * string * string),
    recommend_books "alice" (World readers [] [])
    = (inr (snd <$> matches), World readers [] [])
    ∧ NoDup matches ∧ ("111", "bob", "333") ∈ matches.
Proof.
  destruct recommendations_characterised as [Hrows _].
  destruct (Hrows readers "alice" []) as (matches & Hnodup & Hmem & Hrun).
  { apply (bool_decide_unpack (NoDup (rates readers).*1)). by vm_compute. }
  exists matches. split; [exact Hrun|]. split; [exact Hnodup|].
  apply Hmem. rewrite readers_rates.
  split; [vm_compute; by eexists|]. exists 4, 3.
  split_and!; [pick | pick | discriminate | pick | discriminate | lia].
Defined.

(** Against C7 as stated: alice and bob gave book 111 the same score of 4,
    so every condition of the claim holds for [b2 = b1 = 111], and nothing
    is recommended to alice. *)
Lemma shared_book_not_recommended :
  (∃ b1 score friend score3,
     ("alice", b1, score) ∈ rates one_shared_book
     ∧ friend ≠ "alice" ∧ (friend, b1, score) ∈ rates one_shared_book
     ∧ (friend, "111", score3) ∈ rates one_shared_book ∧ 3 ≤ score3)
  ∧ (recommend_books "alice" (calm one_shared_book)).1 = inr [].
Proof.
  assert (rates one_shared_book = [("alice", "111", 4); ("bob", "111", 4)]) as ->
    by (by vm_compute).
  split; [|by vm_compute]. exists "111", 4, "bob", 4.
  split_and!; [pick | discriminate | pick | pick | lia].
Qed.

(** ** Weakest preconditions over the store *)

Section WP.
Context {A B : Type}.

Lemma wp_ret (a : A) Q s : Q (inr a) s → wp (ret a) Q s.
Proof. intros H faults events r w [= <- <-]. done. Qed.

Lemma wp_raise e (Q : exn + A → store → Prop) s : Q (inl e) s → wp (raise e) Q s.
Proof. intros H faults events r w [= <- <-]. done. Qed.

Lemma wp_emit l t a (Q : exn + unit → store → Prop) s : Q (inr tt) s → wp (emit l t a) Q s.
Proof. intros H faults events r w [= <- <-]. done. Qed.

Lemma wp_bind (m : M A) (k : A → M B) Q s :
  wp m (λ r s', match r with inl e => Q (inl e) s' | inr a => wp (k a) Q s' end) s →
  wp (bind m k) Q s.
Proof.
  intros H faults events r w. unfold bind.
  destruct (m (World s faults events)) as [[e|a] [s' faults' events']] eqn:E;
    apply H in E; simpl in E.
  - intros [= <- <-]. done.
  - apply E.
Qed.

Lemma wp_try (m : M A) (h : string → M A) Q s :
  wp m (λ r s', match r with
                | inl (CypherError message) => wp (h message) Q s'
                | _ => Q r s'
                end) s →
  wp (try_except_cypher m h) Q s.
Proof.
  intros H faults events r w. unfold try_except_cypher.
  destruct (m (World s faults events)) as [[[msg|msg]|a] [s' faults' events']] eqn:E;
    apply H in E; simpl in E.
  - apply E.
  - intros [= <- <-]. done.
  - intros [= <- <-]. done.
Qed.

Lemma wp_session_run (q : query A) Q s :
  (∀ message, Q (inl (CypherError message)) s) →
  (∀ rows d, q s = inr (rows, d) → Q (inr rows) d) →
  wp (session_run q) Q s.
Proof.
  intros Hfail Hok faults events r w. unfold session_run.
  destruct faults as [|[msg|] faults]; simpl.
  - destruct (q s) as [msg|[rows d]] eqn:E; intros [= <- <-]; simpl; auto.
  - intros [= <- <-]. apply Hfail.
  - destruct (q s) as [msg|[rows d]] eqn:E; intros [= <- <-]; simpl; auto.
Qed.

Lemma wp_mono (m : M A) (Q Q' : exn + A → store → Prop) s :
  (∀ r s', Q r s' → Q' r s') → wp m Q s → wp m Q' s.
Proof. intros HQ H faults events r w E. apply HQ. by eapply H. Qed.
End WP.

(** [__run_session] and [__handle_cyphererror] never raise. *)
Lemma wp_handle_cyphererror message (Q : exn + bool → store → Prop) s :
  Q (inr false) s → wp (handle_cyphererror message) Q s.
Proof. intros H. apply wp_bind, wp_emit, wp_ret, H. Qed.

Lemma wp_run_session {R} (q : query R) (Q : exn + bool → store → Prop) s :
  Q (inr false) s →
  (∀ rows d, q s = inr (rows, d) → Q (inr true) d) →
  wp (run_session q) Q s.
Proof.
  intros Hfail Hok. apply wp_try, wp_bind, wp_session_run.
  - intros message. by apply wp_handle_cyphererror.
  - intros rows d Hq. apply wp_ret. eauto.
Qed.

Ltac wp_step :=
  lazymatch goal with
  | |- wp (bind _ _) _ _ => apply wp_bind
  | |- wp (try_except_cypher _ _) _ _ => apply wp_try
  | |- wp (ret _) _ _ => apply wp_ret
  | |- wp (raise _) _ _ => apply wp_raise
  | |- wp (emit _ _ _) _ _ => apply wp_emit
  | |- wp (error _ _) _ _ => apply wp_emit
  | |- wp (success _ _) _ _ => apply wp_emit
  | |- wp (handle_cyphererror _) _ _ => apply wp_handle_cyphererror
  | |- wp (run_session _) _ _ => apply wp_run_session; [|intros ? ? ?]
  | |- wp (session_run _) _ _ => apply wp_session_run; [intros ?|intros ? ? ?]
  | |- wp (get_book _) _ _ => apply wp_session_run; [intros ?|intros ? ? ?]
  | |- wp (get_user _) _ _ => apply wp_session_run; [intros ?|intros ? ? ?]
  | |- wp (link_author_to_book _ _) _ _ => apply wp_run_session; [|intros ? ? ?]
  | |- wp (map_answer _ _) _ _ => apply wp_bind
  | |- wp (if ?b then _ else _) _ _ => destruct b eqn:?
  | |- wp (match ?x with _ => _ end) _ _ => destruct x eqn:?
  end; simpl.

(** ** Statements and loops under an invariant *)

Ltac query_inv H :=
  unfold Cypher.create_book, Cypher.create_user, Cypher.link_author, Cypher.unlink_authors,
    Cypher.count_author_books, Cypher.delete_author, Cypher.set_book_number,
    Cypher.set_book_text, Cypher.set_user_phone, Cypher.set_user_text, Cypher.match_book,
    Cypher.match_user, Cypher.merge_borrows, Cypher.decrement_stock, Cypher.match_borrows,
    Cypher.delete_borrows, Cypher.decrement_borrows, Cypher.book_borrowers,
    Cypher.user_borrowings, Cypher.match_rates, Cypher.create_rates, Cypher.recommend,
    Cypher.count_book_user_relations, Cypher.delete_book, Cypher.count_user_book_relations,
    Cypher.delete_user, Cypher.ok in H;
  repeat case_match; simplify_eq; simpl in *.

(** The loops, for an invariant kept by the statements they send. *)
Section Loops.
Variable I : store → Prop.

Lemma wp_link_authors isbn names s :
  (∀ name s rows d, I s → Cypher.link_author isbn name s = inr (rows, d) → I d) →
  I s → wp (link_authors isbn names) (λ _ d, I d) s.
Proof.
  intros Hlink. revert s. induction names as [|name rest IH]; intros s Hs; simpl.
  - by apply wp_ret.
  - repeat wp_step; eauto.
Qed.

Hypothesis count_kept :
  ∀ name s rows d, I s → Cypher.count_author_books name s = inr (rows, d) → I d.
Hypothesis delete_kept :
  ∀ name s rows d, I s → Cypher.delete_author name s = inr (rows, d) → I d.

Lemma wp_delete_if_orphan name counts s :
  I s → wp (delete_if_orphan name counts) (λ _ d, I d) s.
Proof.
  revert s. induction counts as [|c rest IH]; intros s Hs; simpl.
  - by apply wp_ret.
  - repeat wp_step; eauto.
Qed.

Lemma wp_clean_up_orphans removed s :
  I s → wp (clean_up_orphans removed) (λ _ d, I d) s.
Proof.
  revert s. induction removed as [|name rest IH]; intros s Hs; simpl.
  - by apply wp_ret.
  - repeat wp_step; eauto.
    eapply wp_mono; [|apply wp_delete_if_orphan; eauto].
    intros [e|[]] s' Hs'; simpl; eauto. by apply wp_ret.
Qed.

Lemma wp_delete_author_if_orphan name counts s :
  I s → wp (delete_author_if_orphan name counts) (λ _ d, I d) s.
Proof.
  revert s. induction counts as [|c rest IH]; intros s Hs; simpl.
  - by apply wp_ret.
  - repeat wp_step; eauto.
Qed.

Lemma wp_check_orphaned_authors removed s :
  I s → wp (check_orphaned_authors removed) (λ _ d, I d) s.
Proof.
  revert s. induction removed as [|name rest IH]; intros s Hs; simpl.
  - by apply wp_ret.
  - repeat wp_step; eauto.
    eapply wp_mono; [|apply wp_delete_author_if_orphan; eauto].
    intros [e|[]] s' Hs'; simpl; eauto. by apply wp_ret.
Qed.
End Loops.

(** Enter a loop with invariant [I]: what is left is the continuation after
    the loop, the statements of the loop, and the invariant on entry. *)
Ltac wp_loop I :=
  lazymatch goal with
  | |- wp (link_authors _ _) _ _ =>
    eapply wp_mono; [|apply (wp_link_authors I); [intros ? ? ? ? ? ?|]];
    [intros [?|[]] ? ?; simpl|..]
  | |- wp (clean_up_orphans _) _ _ =>
    eapply wp_mono; [|apply (wp_clean_up_orphans I); [intros ? ? ? ? ? ?|intros ? ? ? ? ? ?|]];
    [intros [?|[]] ? ?; simpl|..]
  | |- wp (check_orphaned_authors _) _ _ =>
    eapply wp_mono;
    [|apply (wp_check_orphaned_authors I); [intros ? ? ? ? ? ?|intros ? ? ? ? ? ?|]];
    [intros [?|[]] ? ?; simpl|..]
  end.

(** ** What no operation does to the ratings *)

Section RatesKept.
Context {X : Type} (π : string * string * Z → X).
Variable s0 : store.

Lemma kept_rename_isbn s old new :
  blind π → kept π s0 s →
  (π <$> rates s0) `prefix_of` (π <$> (Cypher.rename_isbn old new <$> rates s)).
Proof.
  intros Hb Hs. unfold kept in Hs. rewrite <-list_fmap_compose.
  erewrite (list_fmap_ext (π ∘ _)); [exact Hs|]. intros i r _. simpl. by apply Hb.
Qed.

Lemma kept_rename_user s old new :
  blind π → kept π s0 s →
  (π <$> rates s0) `prefix_of` (π <$> (Cypher.rename_user old new <$> rates s)).
Proof.
  intros Hb Hs. unfold kept in Hs. rewrite <-list_fmap_compose.
  erewrite (list_fmap_ext (π ∘ _)); [exact Hs|]. intros i r _. simpl. by apply Hb.
Qed.

Ltac kept_query H :=
  query_inv H;
  try match goal with
      | H : kept _ _ ?s |- kept _ _ _ =>
        first [ exact H
              | unfold kept in *; simpl; rewrite fmap_app; by apply prefix_app_r ]
      end.

Ltac kept_go :=
  repeat (first
    [ wp_step
    | wp_loop (kept π s0)
    | match goal with
      | H : ?q ?s = inr (_, _) |- _ => progress (kept_query H)
      end ]); try done.

Lemma kept_run_op (o : op) (s : store) :
  blind π ∨ ¬ edits_key o →
  kept π s0 s → wp (run_op o) (λ _ d, kept π s0 d) s.
Proof.
  intros Hk Hs. destruct o; simpl.
  - unfold add_book. kept_go.
  - unfold add_user. kept_go.
  - unfold edit_book. kept_go.
    unfold text_field_of in *. repeat case_bool_decide; simplify_eq.
    destruct Hk as [Hb|Hne]; [|by destruct Hne]. by apply kept_rename_isbn.
  - unfold edit_user. kept_go.
    unfold user_text_field_of in *. repeat case_bool_decide; simplify_eq.
    destruct Hk as [Hb|Hne]; [|by destruct Hne]. by apply kept_rename_user.
  - unfold check_out_book_for_user. kept_go.
  - unfold return_book_for_user. kept_go.
  - unfold get_book_stats. kept_go.
  - unfold get_user_stats. kept_go.
  - unfold rate_book. kept_go.
  - unfold recommend_books. kept_go.
  - unfold remove_book. kept_go.
  - unfold remove_user. kept_go.
Qed.
End RatesKept.

(** ** Ratings *)

Lemma wp_run {A} (m : M A) Q s faults events :
  wp m Q s → Q (m (World s faults events)).1 (db (m (World s faults events)).2).
Proof. intros H. apply (H faults events). by destruct (m _). Qed.

Lemma lookup_pair_head {A} username isbn (l : list (string * string * A)) :
  lookup_pair username isbn l
  = head (rel_val <$> filter (λ r, is_pair username isbn r = true) l).
Proof. unfold lookup_pair. by destruct (filter _ l). Qed.

(** C4.  [rate_book] on a pair that has a rating returns [False], under
    any store faults, with the store unchanged, and without faults logs the
    existing score; on a pair of an existing user and book without rating
    it appends the Rates relation with the given score; it never makes a
    second relation for a pair.  No operation of the engine, whatever the
    faults, removes a Rates relation or changes a score: the scores before
    are a prefix of the scores after, and so are the relations themselves
    unless the operation rewrites a key ([isbn], [username]), which the
    relations follow. *)
Theorem ratings_are_unique_and_kept :
  (∀ s username isbn score existing,
     is_Some (user_nodes s !! username) → is_Some (book_nodes s !! isbn) →
     rating s username isbn = Some existing →
     (∀ faults events, ∃ w,
        rate_book username isbn score (World s faults events) = (inr false, w) ∧ db w = s) ∧
     (∀ events,
        rate_book username isbn score (World s [] events) =
        (inr false,
         World s [] (events ++ [Event LError
                                  "user username={} has already rated book isbn={} with score={}"
                                  [AStr username; AStr isbn; AInt existing]])))) ∧
  (∀ s username isbn score events,
     is_Some (user_nodes s !! username) → is_Some (book_nodes s !! isbn) →
     rating s username isbn = None →
     rate_book username isbn score (World s [] events) =
     (inr true,
      World (with_rates (λ l, l ++ [(username, isbn, score)])%list s) []
            (events ++ [Event LSuccess "added rating score={} by user username={} to book isbn={}"
                              [AInt score; AStr username; AStr isbn]]))) ∧
  (∀ s username isbn score faults events,
     NoDup (fst <$> rates s) →
     NoDup (fst <$> rates (db (rate_book username isbn score (World s faults events)).2))) ∧
  (∀ o s faults events,
     let d := db (run_op o (World s faults events)).2 in
     (rel_val <$> rates s) `prefix_of` (rel_val <$> rates d)
     ∧ (¬ edits_key o → rates s `prefix_of` rates d)).
Proof.
  split_and!.
  - intros s username isbn score existing Hu Hb Hr.
    apply has_user_true in Hu. apply has_book_true in Hb.
    unfold rating in Hr. rewrite lookup_pair_head in Hr.
    destruct (rel_val <$> filter _ (rates s)) as [|x rows] eqn:Hrows; simplify_eq/=.
    split.
    + intros faults events.
      enough (wp (rate_book username isbn score) (λ r d, r = inr false ∧ d = s) s) as Hwp.
      { pose proof (wp_run _ _ _ faults events Hwp) as [H1 H2].
        destruct (rate_book _ _ _ _) as [r w]. simpl in *. subst. by exists w. }
      unfold rate_book.
      repeat (first [ wp_step
                    | match goal with
                      | H : Cypher.match_rates _ _ _ = _ |- _ =>
                        unfold Cypher.match_rates, Cypher.ok in H;
                        rewrite Hu, Hb in H; simpl in H; rewrite Hrows in H; simplify_eq
                      | H : Cypher.match_user _ _ = _ |- _ => progress (query_inv H)
                      | H : Cypher.match_book _ _ = _ |- _ => progress (query_inv H)
                      end ]); done.
    + intros events. unfold rate_book, try_except_cypher, bind, get_user, get_book.
      rewrite session_run_calm. simpl. rewrite last_option_list.
      rewrite (bool_decide_eq_true_2 _ (proj1 (has_user_true _ _) Hu)). simpl.
      rewrite ?session_run_calm. simpl. rewrite last_option_list.
      rewrite (bool_decide_eq_true_2 _ (proj1 (has_book_true _ _) Hb)). simpl.
      rewrite ?session_run_calm. unfold Cypher.match_rates. rewrite Hu, Hb. simpl.
      rewrite Hrows. done.
  - intros s username isbn score events Hu Hb Hr.
    unfold rating in Hr. rewrite lookup_pair_None in Hr.
    unfold rate_book, try_except_cypher, bind, get_user, get_book.
    rewrite session_run_calm. simpl. rewrite last_option_list.
    rewrite (bool_decide_eq_true_2 _ Hu). simpl.
    rewrite ?session_run_calm. simpl. rewrite last_option_list.
    rewrite (bool_decide_eq_true_2 _ Hb). simpl.
    rewrite ?session_run_calm. unfold Cypher.match_rates.
    rewrite (proj2 (has_user_true _ _) Hu), (proj2 (has_book_true _ _) Hb). simpl.
    rewrite (filter_pair_nil _ _ _ Hr). simpl.
    unfold run_session, try_except_cypher, bind. rewrite session_run_calm.
    unfold Cypher.create_rates.
    rewrite (proj2 (has_user_true _ _) Hu), (proj2 (has_book_true _ _) Hb). done.
  - intros s username isbn score faults events Hnd.
    apply (wp_run (rate_book username isbn score) (λ _ d, NoDup (fst <$> rates d))).
    unfold rate_book.
    repeat (first [ wp_step
                  | match goal with
                    | H : Cypher.match_user _ _ = _ |- _ => progress (query_inv H)
                    | H : Cypher.match_book _ _ = _ |- _ => progress (query_inv H)
                    end ]); try done.
    all: match goal with
         | Hm : Cypher.match_rates _ _ _ = _ |- _ => query_inv Hm; try done
         end.
    all: match goal with
         | Hc : Cypher.create_rates _ _ _ _ = _ |- _ => query_inv Hc; try done
         end.
    rewrite fmap_app. apply NoDup_app. split_and!; [done| |apply NoDup_singleton].
    intros k Hk ->%list_elem_of_singleton.
    apply list_elem_of_fmap in Hk as (r & Hk & Hr).
    match goal with
    | Hnil : _ <$> filter _ ?l = [] |- _ =>
      apply fmap_nil_inv in Hnil;
      assert (r ∈ filter (λ r, is_pair username isbn r = true) l) as Hin;
      [|rewrite Hnil in Hin; by apply elem_of_nil in Hin]
    end.
    apply list_elem_of_filter. split; [|done]. by apply is_pair_true.
  - intros o s faults events d. subst d. split.
    + apply (wp_run (run_op o) (λ _ d, kept rel_val s d)).
      apply kept_run_op; [|by unfold kept]. left. by intros r r' Hrr.
    + intros Hk. rewrite <-(list_fmap_id (rates s)), <-(list_fmap_id (rates (db _))).
      apply (wp_run (run_op o) (λ _ d, kept id s d)).
      apply kept_run_op; [|by unfold kept]. by right.
Qed.

(** ** Consistency: keys *)

Lemma consistent_empty : consistent empty_store.
Proof.
  split; simpl; try (intros r Hr; by apply elem_of_nil in Hr); try apply NoDup_nil_2.
  intros isbn b Hb. by rewrite lookup_empty in Hb.
Qed.

Section Keys.
Context {A : Type}.
Implicit Types (l : list (string * string * A)).

Lemma on_pair_keys username isbn g l : (on_pair username isbn g <$> l).*1 = l.*1.
Proof.
  rewrite <-list_fmap_compose. apply list_fmap_ext. intros i r _. apply on_pair_key.
Qed.

Lemma elem_of_on_pair username isbn g l r :
  r ∈ on_pair username isbn g <$> l →
  ∃ r0, r0 ∈ l ∧ r.1 = r0.1 ∧ (r = r0 ∨ (r0.1 = (username, isbn) ∧ r.2 = g r0.2)).
Proof.
  intros (r0 & -> & Hin)%list_elem_of_fmap. exists r0. split; [done|].
  unfold on_pair. destruct (is_pair username isbn r0) eqn:E; [|by auto].
  apply is_pair_true in E. simpl. auto.
Qed.

Lemma rename_isbn_unique old new l :
  (∀ r, r ∈ l → rel_isbn r ≠ new) →
  NoDup (l.*1) → NoDup ((Cypher.rename_isbn old new <$> l).*1).
Proof.
  intros Hnew Hnd. rewrite <-list_fmap_compose.
  rewrite (list_fmap_ext _ (Cypher.rename old new ∘ fst) l) by (by intros i [[u b] v]).
  rewrite list_fmap_compose.
  apply NoDup_fmap_2_strong; [|done].
  intros [u i] [u' i'] (r & Hr & Hin)%list_elem_of_fmap (r' & Hr' & Hin')%list_elem_of_fmap.
  apply Hnew in Hin, Hin'. unfold rel_isbn in *. rewrite <-Hr in Hin. rewrite <-Hr' in Hin'.
  simpl in *. unfold Cypher.rename. simpl.
  repeat case_bool_decide; intros Heq; simplify_eq; congruence.
Qed.

Lemma rename_user_unique old new l :
  (∀ r, r ∈ l → rel_user r ≠ new) →
  NoDup (l.*1) → NoDup ((Cypher.rename_user old new <$> l).*1).
Proof.
  intros Hnew Hnd. rewrite <-list_fmap_compose.
  rewrite (list_fmap_ext _ ((λ k : string * string,
             (if bool_decide (k.1 = old) then new else k.1, k.2)) ∘ fst) l)
    by (by intros i [[u b] v]).
  rewrite list_fmap_compose.
  apply NoDup_fmap_2_strong; [|done].
  intros [u i] [u' i'] (r & Hr & Hin)%list_elem_of_fmap (r' & Hr' & Hin')%list_elem_of_fmap.
  apply Hnew in Hin, Hin'. unfold rel_user in *. rewrite <-Hr in Hin. rewrite <-Hr' in Hin'.
  simpl in *. repeat case_bool_decide; intros Heq; simplify_eq; congruence.
Qed.
End Keys.

(** ** Consistency: statements on nodes *)

Lemma ends_exist_mono {A} s d (l : list (string * string * A)) :
  (∀ u, is_Some (user_nodes s !! u) → is_Some (user_nodes d !! u)) →
  (∀ i, is_Some (book_nodes s !! i) → is_Some (book_nodes d !! i)) →
  ends_exist s l → ends_exist d l.
Proof. intros Hu Hb Hl r Hr. destruct (Hl r Hr). auto. Qed.

Lemma is_Some_insert {A} (m : gmap string A) i j x :
  is_Some (m !! j) → is_Some (<[i:=x]> m !! j).
Proof. intros. rewrite lookup_insert_is_Some'. auto. Qed.

Lemma is_Some_alter {A} (f : A → A) (m : gmap string A) i j :
  is_Some (m !! j) → is_Some (alter f i m !! j).
Proof. intros. by rewrite lookup_alter_is_Some. Qed.

Lemma is_Some_delete {A} (m : gmap string A) i j :
  i ≠ j → is_Some (m !! j) → is_Some (delete i m !! j).
Proof. intros. by rewrite lookup_delete_ne. Qed.

Create HintDb ends.
#[export] Hint Resolve is_Some_insert is_Some_alter : ends.

Ltac ends_mono :=
  eapply ends_exist_mono; [| |eassumption]; simpl; eauto with ends.

(** Statements that need nothing but a consistent store. *)
Section Statements.
Variables (s d : store).
Hypothesis Hs : consistent s.

Lemma create_user_consistent u rows :
  Cypher.create_user u s = inr (rows, d) → consistent d.
Proof.
  intros Hq. destruct Hs as [Hao Hbe Hre Hbu Hru Hbp Hst]. query_inv Hq. split; simpl; try done; by ends_mono.
Qed.

Lemma create_book_consistent b rows :
  0 ≤ Book.quantity b → Cypher.create_book b s = inr (rows, d) → consistent d.
Proof.
  intros Hb Hq. destruct Hs as [Hao Hbe Hre Hbu Hru Hbp Hst]. query_inv Hq. split; simpl; try done; try (by ends_mono).
  - intros r Hr. destruct (Hao r Hr). eauto with ends.
  - intros isbn b' [[<- <-]|[_ ?]]%lookup_insert_Some; simpl; eauto.
Qed.

Lemma link_author_consistent isbn name rows :
  Cypher.link_author isbn name s = inr (rows, d) → consistent d.
Proof.
  intros Hq. destruct Hs as [Hao Hbe Hre Hbu Hru Hbp Hst]. query_inv Hq; [|done]. split; simpl; try done.
  intros r [Hr| ->%list_elem_of_singleton]%elem_of_app.
  - destruct (Hao r Hr). split; [by apply elem_of_union_l|done].
  - simpl. split; [by apply elem_of_union_r, elem_of_singleton|]. by apply has_book_true.
Qed.

Lemma unlink_authors_consistent isbn rows :
  Cypher.unlink_authors isbn s = inr (rows, d) → consistent d.
Proof.
  intros Hq. destruct Hs as [Hao Hbe Hre Hbu Hru Hbp Hst]. query_inv Hq; [|done]. split; simpl; try done.
  intros r [_ Hr]%list_elem_of_filter. auto.
Qed.

Lemma delete_author_consistent name rows :
  Cypher.delete_author name s = inr (rows, d) → consistent d.
Proof.
  intros Hq. destruct Hs as [Hao Hbe Hre Hbu Hru Hbp Hst]. query_inv Hq; try done. split; simpl; try done.
  intros r Hr. destruct (Hao r Hr). split; [|done].
  apply elem_of_difference. split; [done|]. intros Heq%elem_of_singleton.
  match goal with H : bool_decide _ = false |- _ => apply bool_decide_eq_false in H; apply H end.
  apply Exists_exists. eauto.
Qed.

Lemma set_book_number_consistent isbn f value rows :
  0 ≤ value ∨ f = Cypher.Pages →
  Cypher.set_book_number isbn f value s = inr (rows, d) → consistent d.
Proof.
  intros Hv Hq. destruct Hs as [Hao Hbe Hre Hbu Hru Hbp Hst].
  unfold Cypher.set_book_number, Cypher.ok in Hq. simplify_eq.
  split; simpl; try done; try (by ends_mono).
  - intros r Hr. destruct (Hao r Hr). eauto with ends.
  - intros i b [[<- (b0 & Hb0 & ->)]|[_ ?]]%lookup_alter_Some; [|by eauto].
    destruct f; simpl; [by eauto|]. destruct Hv; [done|congruence].
Qed.
End Statements.

(** ** Consistency: statements on relations *)

Lemma is_Some_moved {A} (m : gmap string A) old new x i :
  is_Some (m !! i) → is_Some (<[new:=x]> (delete old m) !! (if bool_decide (i = old) then new else i)).
Proof.
  intros Hi. case_bool_decide.
  - rewrite lookup_insert_eq. eauto.
  - apply lookup_insert_is_Some'. right. by rewrite lookup_delete_ne.
Qed.

Lemma ends_exist_not_book {A} s (l : list (string * string * A)) isbn :
  ends_exist s l → Cypher.has_book s isbn = false → ∀ r, r ∈ l → rel_isbn r ≠ isbn.
Proof.
  intros Hl Hb r Hr <-. destruct (Hl r Hr) as [_ Hsome].
  apply has_book_true in Hsome. congruence.
Qed.

Lemma ends_exist_not_user {A} s (l : list (string * string * A)) username :
  ends_exist s l → Cypher.has_user s username = false → ∀ r, r ∈ l → rel_user r ≠ username.
Proof.
  intros Hl Hu r Hr <-. destruct (Hl r Hr) as [Hsome _].
  apply has_user_true in Hsome. congruence.
Qed.

Section Statements.
Variables (s d : store).
Hypothesis Hs : consistent s.

Lemma set_book_text_consistent isbn f value rows :
  Cypher.set_book_text isbn f value s = inr (rows, d) → consistent d.
Proof.
  intros Hq. destruct Hs as [Hao Hbe Hre Hbu Hru Hbp Hst].
  unfold Cypher.set_book_text, Cypher.ok in Hq.
  destruct (book_nodes s !! isbn) as [b|] eqn:Hb; [|by simplify_eq].
  destruct f; [| |]; simplify_eq.
  - case_bool_decide; [by simplify_eq|].
    destruct (Cypher.has_book s value) eqn:Hnew; simplify_eq.
    split; simpl.
    + intros r (r0 & -> & Hr)%list_elem_of_fmap. destruct (Hao r0 Hr).
      split; [done|]. by apply (is_Some_moved (book_nodes s)).
    + intros r (r0 & -> & Hr)%list_elem_of_fmap. destruct (Hbe r0 Hr).
      split; [done|]. by apply (is_Some_moved (book_nodes s)).
    + intros r (r0 & -> & Hr)%list_elem_of_fmap. destruct (Hre r0 Hr).
      split; [done|]. by apply (is_Some_moved (book_nodes s)).
    + apply rename_isbn_unique; [|done]. by eapply ends_exist_not_book.
    + apply rename_isbn_unique; [|done]. by eapply ends_exist_not_book.
    + intros r (r0 & -> & Hr)%list_elem_of_fmap. by apply (Hbp r0).
    + intros i b' [[<- <-]|[_ [_ ?]%lookup_delete_Some]]%lookup_insert_Some; eauto.
  - split; simpl; try done; try (by ends_mono).
    + intros r Hr. destruct (Hao r Hr). eauto with ends.
    + intros i b' [[<- <-]|[_ ?]]%lookup_insert_Some; simpl; eauto.
  - split; simpl; try done; try (by ends_mono).
    + intros r Hr. destruct (Hao r Hr). eauto with ends.
    + intros i b' [[<- <-]|[_ ?]]%lookup_insert_Some; simpl; eauto.
Qed.

Lemma set_user_phone_consistent username value rows :
  Cypher.set_user_phone username value s = inr (rows, d) → consistent d.
Proof.
  intros Hq. destruct Hs as [Hao Hbe Hre Hbu Hru Hbp Hst].
  unfold Cypher.set_user_phone, Cypher.ok in Hq. simplify_eq.
  split; simpl; try done; by ends_mono.
Qed.

Lemma set_user_text_consistent username f value rows :
  Cypher.set_user_text username f value s = inr (rows, d) → consistent d.
Proof.
  intros Hq. destruct Hs as [Hao Hbe Hre Hbu Hru Hbp Hst].
  unfold Cypher.set_user_text, Cypher.ok in Hq.
  destruct (user_nodes s !! username) as [u|] eqn:Hu; [|by simplify_eq].
  destruct f; [| |]; simplify_eq.
  - case_bool_decide; [by simplify_eq|].
    destruct (Cypher.has_user s value) eqn:Hnew; simplify_eq.
    split; simpl; try done.
    + intros r (r0 & -> & Hr)%list_elem_of_fmap. destruct (Hbe r0 Hr).
      split; [|done]. by apply (is_Some_moved (user_nodes s)).
    + intros r (r0 & -> & Hr)%list_elem_of_fmap. destruct (Hre r0 Hr).
      split; [|done]. by apply (is_Some_moved (user_nodes s)).
    + apply rename_user_unique; [|done]. by eapply ends_exist_not_user.
    + apply rename_user_unique; [|done]. by eapply ends_exist_not_user.
    + intros r (r0 & -> & Hr)%list_elem_of_fmap. by apply (Hbp r0).
  - split; simpl; try done; by ends_mono.
  - split; simpl; try done; by ends_mono.
Qed.

Lemma merge_borrows_consistent username isbn rows :
  Cypher.merge_borrows username isbn s = inr (rows, d) → consistent d.
Proof.
  intros Hq. destruct Hs as [Hao Hbe Hre Hbu Hru Hbp Hst].
  unfold Cypher.merge_borrows, Cypher.ok in Hq.
  destruct (Cypher.has_user s username) eqn:Hu; [|by simplify_eq/=].
  destruct (Cypher.has_book s isbn) eqn:Hb; [|by simplify_eq/=]. simpl in Hq.
  case_bool_decide as Hex; simplify_eq.
  - split; simpl; try done.
    + intros r (r0 & Hin & Hk & _)%elem_of_on_pair.
      destruct (Hbe r0 Hin). unfold rel_user, rel_isbn in *. by rewrite Hk.
    + by rewrite on_pair_keys.
    + intros r (r0 & Hin & _ & [->|[_ Hv]])%elem_of_on_pair; [by apply Hbp|].
      unfold rel_val. rewrite Hv. specialize (Hbp r0 Hin). unfold rel_val in Hbp. lia.
  - split; simpl; try done.
    + intros r [Hr| ->%list_elem_of_singleton]%elem_of_app; [by apply Hbe|].
      split; [by apply has_user_true|by apply has_book_true].
    + rewrite fmap_app. apply NoDup_app. split_and!; [done| |apply NoDup_singleton].
      intros k (r & -> & Hr)%list_elem_of_fmap ?%list_elem_of_singleton.
      apply Hex, Exists_exists. exists r. split; [done|]. by apply is_pair_true.
    + intros r [Hr| ->%list_elem_of_singleton]%elem_of_app; [by apply Hbp|done].
Qed.

Lemma decrement_stock_consistent isbn rows :
  (∀ b, book_nodes s !! isbn = Some b → 0 < b_quantity b) →
  Cypher.decrement_stock isbn s = inr (rows, d) → consistent d.
Proof.
  intros Hpos Hq. destruct Hs as [Hao Hbe Hre Hbu Hru Hbp Hst].
  unfold Cypher.decrement_stock, Cypher.ok in Hq. simplify_eq.
  split; simpl; try done; try (by ends_mono).
  - intros r Hr. destruct (Hao r Hr). eauto with ends.
  - intros i b [[<- (b0 & Hb0 & ->)]|[_ ?]]%lookup_alter_Some; [|by eauto].
    simpl. specialize (Hpos _ Hb0). lia.
Qed.

Lemma delete_borrows_consistent username isbn rows :
  Cypher.delete_borrows username isbn s = inr (rows, d) → consistent d.
Proof.
  intros Hq. destruct Hs as [Hao Hbe Hre Hbu Hru Hbp Hst].
  unfold Cypher.delete_borrows, Cypher.ok in Hq.
  destruct (Cypher.has_user s username && Cypher.has_book s isbn); simplify_eq; [|done].
  split; simpl; try done; try (by ends_mono).
  - intros r Hr. destruct (Hao r Hr). eauto with ends.
  - intros r [_ Hr]%list_elem_of_filter. destruct (Hbe r Hr). simpl. eauto with ends.
  - apply NoDup_fmap_2_strong; [|by apply NoDup_filter, (NoDup_fmap_1 fst)].
    intros r r' [_ Hr]%list_elem_of_filter [_ Hr']%list_elem_of_filter Hk.
    apply list_elem_of_lookup_1 in Hr as [i Hi], Hr' as [j Hj].
    assert (i = j) by (by eapply (unique_key_index (borrows s))). congruence.
  - intros r [_ Hr]%list_elem_of_filter. by apply Hbp.
  - intros i b [[<- (b0 & Hb0 & ->)]|[_ ?]]%lookup_alter_Some; [|by eauto].
    simpl. specialize (Hst _ _ Hb0). lia.
Qed.

Lemma decrement_borrows_consistent username isbn rows :
  (∀ r, r ∈ borrows s → r.1 = (username, isbn) → rel_val r ≠ 1) →
  Cypher.decrement_borrows username isbn s = inr (rows, d) → consistent d.
Proof.
  intros Hne Hq. destruct Hs as [Hao Hbe Hre Hbu Hru Hbp Hst].
  unfold Cypher.decrement_borrows, Cypher.ok in Hq.
  destruct (Cypher.has_user s username && Cypher.has_book s isbn); simplify_eq; [|done].
  split; simpl; try done; try (by ends_mono).
  - intros r Hr. destruct (Hao r Hr). eauto with ends.
  - intros r (r0 & Hin & Hk & _)%elem_of_on_pair.
    destruct (Hbe r0 Hin). unfold rel_user, rel_isbn in *. rewrite Hk. simpl. eauto with ends.
  - by rewrite on_pair_keys.
  - intros r (r0 & Hin & _ & [->|[Hk Hv]])%elem_of_on_pair; [by apply Hbp|].
    unfold rel_val. rewrite Hv. specialize (Hbp r0 Hin). specialize (Hne r0 Hin Hk).
    unfold rel_val in *. lia.
  - intros i b [[<- (b0 & Hb0 & ->)]|[_ ?]]%lookup_alter_Some; [|by eauto].
    simpl. specialize (Hst _ _ Hb0). lia.
Qed.

Lemma create_rates_consistent username isbn score rows :
  (∀ r, r ∈ rates s → r.1 ≠ (username, isbn)) →
  Cypher.create_rates username isbn score s = inr (rows, d) → consistent d.
Proof.
  intros Hnew Hq. destruct Hs as [Hao Hbe Hre Hbu Hru Hbp Hst].
  unfold Cypher.create_rates, Cypher.ok in Hq.
  destruct (Cypher.has_user s username) eqn:Hu; [|by simplify_eq/=].
  destruct (Cypher.has_book s isbn) eqn:Hb; simplify_eq/=; [|done].
  split; simpl; try done.
  - intros r [Hr| ->%list_elem_of_singleton]%elem_of_app; [by apply Hre|].
    split; [by apply has_user_true|by apply has_book_true].
  - rewrite fmap_app. apply NoDup_app. split_and!; [done| |apply NoDup_singleton].
    intros k (r & -> & Hr)%list_elem_of_fmap ?%list_elem_of_singleton. by eapply Hnew.
Qed.

Lemma delete_book_consistent isbn rows :
  Cypher.delete_book isbn s = inr (rows, d) → consistent d.
Proof.
  intros Hq. destruct Hs as [Hao Hbe Hre Hbu Hru Hbp Hst].
  unfold Cypher.delete_book, Cypher.ok in Hq.
  destruct (Cypher.has_book s isbn); [|by simplify_eq].
  destruct (bool_decide (Exists (λ r, r.2 = isbn) (author_of s))) eqn:H1; [done|].
  destruct (bool_decide (Exists (λ r, rel_isbn r = isbn) (borrows s))) eqn:H2; [done|].
  destruct (bool_decide (Exists (λ r, rel_isbn r = isbn) (rates s))) eqn:H3; [done|].
  simpl in Hq. simplify_eq.
  apply bool_decide_eq_false in H1, H2, H3.
  rewrite Exists_exists in H1. rewrite Exists_exists in H2. rewrite Exists_exists in H3.
  split; simpl; try done.
  - intros r Hr. destruct (Hao r Hr). split; [done|]. apply is_Some_delete; [|done].
    intros Heq. apply H1. exists r. by split.
  - intros r Hr. destruct (Hbe r Hr). split; [done|]. apply is_Some_delete; [|done].
    intros Heq. apply H2. exists r. by split.
  - intros r Hr. destruct (Hre r Hr). split; [done|]. apply is_Some_delete; [|done].
    intros Heq. apply H3. exists r. by split.
  - intros i b [_ ?]%lookup_delete_Some. eauto.
Qed.

Lemma delete_user_consistent username rows :
  Cypher.delete_user username s = inr (rows, d) → consistent d.
Proof.
  intros Hq. destruct Hs as [Hao Hbe Hre Hbu Hru Hbp Hst].
  unfold Cypher.delete_user, Cypher.ok in Hq.
  destruct (Cypher.has_user s username); [|by simplify_eq].
  destruct (bool_decide (Exists (λ r, rel_user r = username) (borrows s))) eqn:H2; [done|].
  destruct (bool_decide (Exists (λ r, rel_user r = username) (rates s))) eqn:H3; [done|].
  simpl in Hq. simplify_eq.
  apply bool_decide_eq_false in H2, H3.
  rewrite Exists_exists in H2. rewrite Exists_exists in H3.
  split; simpl; try done.
  - intros r Hr. destruct (Hbe r Hr). split; [|done]. apply is_Some_delete; [|done].
    intros Heq. apply H2. exists r. by split.
  - intros r Hr. destruct (Hre r Hr). split; [|done]. apply is_Some_delete; [|done].
    intros Heq. apply H3. exists r. by split.
Qed.
End Statements.

(** ** Copies out *)

Section Out.
Implicit Types (l : list (string * string * Z)) (r : string * string * Z).

Lemma out_cons r l i :
  out (r :: l) i = (if decide (rel_isbn r = i) then rel_val r else 0) + out l i.
Proof. unfold out. rewrite filter_cons. by case_decide. Qed.

Lemma out_app l l' i : out (l ++ l') i = out l i + out l' i.
Proof.
  induction l as [|r l IH]; [done|]. simpl. rewrite !out_cons, IH. lia.
Qed.

Lemma matching_cons username isbn r l :
  matching username isbn (r :: l)
  = (if is_pair username isbn r then 1 else 0) + matching username isbn l.
Proof.
  unfold matching. rewrite filter_cons.
  destruct (is_pair username isbn r); case_decide; try done. simpl length. lia.
Qed.

Lemma is_pair_isbn username isbn r : is_pair username isbn r = true → rel_isbn r = isbn.
Proof. intros H%is_pair_true. unfold rel_isbn. by rewrite H. Qed.

Lemma out_fmap_same (f : string * string * Z → string * string * Z) l i :
  (∀ r, rel_isbn (f r) = rel_isbn r ∧ rel_val (f r) = rel_val r) →
  out (f <$> l) i = out l i.
Proof.
  intros Hf. induction l as [|r l IH]; [done|].
  rewrite fmap_cons, !out_cons, IH. destruct (Hf r) as [-> ->]. done.
Qed.

Lemma out_on_pair username isbn (g : Z → Z) c l i :
  (∀ v, g v = v + c) →
  out (on_pair username isbn g <$> l) i
  = out l i + (if decide (i = isbn) then c * matching username isbn l else 0).
Proof.
  intros Hg. induction l as [|r l IH].
  - unfold matching. simpl. case_decide; unfold out; simpl; lia.
  - rewrite fmap_cons, !out_cons, matching_cons, IH. unfold on_pair.
    destruct (is_pair username isbn r) eqn:E.
    + pose proof (is_pair_isbn _ _ _ E) as Hi. unfold rel_isbn, rel_val in *. simpl.
      rewrite Hi, Hg. repeat case_decide; try congruence; lia.
    + repeat case_decide; lia.
Qed.

Lemma out_filter_out username isbn l i :
  (∀ r, r ∈ l → r.1 = (username, isbn) → rel_val r = 1) →
  out (filter (λ r, is_pair username isbn r ≠ true) l) i
  = out l i - (if decide (i = isbn) then matching username isbn l else 0).
Proof.
  intros Hone. induction l as [|r l IH].
  - unfold matching. simpl. case_decide; unfold out; simpl; lia.
  - rewrite out_cons, matching_cons.
    assert (∀ r, r ∈ l → r.1 = (username, isbn) → rel_val r = 1) as Hl
      by (intros ? ?; apply Hone; by right).
    destruct (is_pair username isbn r) eqn:E.
    + rewrite filter_cons_False by (rewrite E; tauto). rewrite (IH Hl).
      pose proof (is_pair_isbn _ _ _ E) as Hi.
      rewrite (Hone r (list_elem_of_here _ _) (proj1 (is_pair_true _ _ _) E)).
      repeat case_decide; try congruence; lia.
    + rewrite filter_cons_True by (rewrite E; congruence). rewrite out_cons, (IH Hl).
      repeat case_decide; lia.
Qed.

Lemma out_rename_isbn old new l i :
  i ≠ old → i ≠ new → out (Cypher.rename_isbn old new <$> l) i = out l i.
Proof.
  intros Ho Hn. induction l as [|[[u b] v] l IH]; [done|].
  rewrite fmap_cons, !out_cons, IH. unfold rel_isbn, rel_val, Cypher.rename_isbn,
    Cypher.rename. simpl. repeat (case_decide || case_bool_decide); congruence.
Qed.

Lemma matching_one username isbn l :
  NoDup (l.*1) → Exists (λ r, is_pair username isbn r = true) l →
  matching username isbn l = 1.
Proof.
  intros Hnd (r & Hr & Hp)%Exists_exists.
  destruct (lookup_pair username isbn l) as [v|] eqn:E.
  - unfold matching. by rewrite (filter_pair_unique _ _ _ _ Hnd E).
  - rewrite lookup_pair_None in E. exfalso. apply (E r Hr). by apply is_pair_true.
Qed.

Lemma matching_none username isbn l :
  ¬ Exists (λ r, is_pair username isbn r = true) l → matching username isbn l = 0.
Proof. intros H. by apply length_filter_zero. Qed.
End Out.

Lemma stock_eq s d i :
  b_quantity <$> book_nodes d !! i = b_quantity <$> book_nodes s !! i →
  borrowed d i = borrowed s i → stock d i = stock s i.
Proof.
  unfold stock. intros Hq ->.
  destruct (book_nodes d !! i), (book_nodes s !! i); simplify_eq/=; congruence.
Qed.

Lemma agree_refl K s : agree K s s.
Proof. by intros i _. Qed.

Lemma agree_trans K s0 s d : agree K s0 s → agree [] s d → agree K s0 d.
Proof. intros H1 H2 i Hi. rewrite H2 by apply not_elem_of_nil. by apply H1. Qed.

(** ** The ledger, statement by statement *)

Lemma agree_ledger_kept K s d :
  agree K s d →
  (∀ i, i ∈ K → book_nodes s !! i = None ∨ book_nodes d !! i = None) →
  ledger_kept s d.
Proof.
  intros Ha HK i [b Hb] [b' Hb']. destruct (decide (i ∈ K)) as [Hi|Hi]; [|by apply Ha].
  destruct (HK i Hi); congruence.
Qed.

Lemma agree_frame s d :
  (∀ i, b_quantity <$> book_nodes d !! i = b_quantity <$> book_nodes s !! i) →
  (∀ i, borrowed d i = borrowed s i) → agree [] s d.
Proof. intros Hq Hb i _. by apply stock_eq. Qed.

Lemma borrowed_out s i : borrowed s i = out (borrows s) i.
Proof. done. Qed.

Section Ledger.
Variables (s d : store).

Lemma create_user_agree u rows :
  Cypher.create_user u s = inr (rows, d) → agree [] s d.
Proof. intros Hq. query_inv Hq. by apply agree_frame. Qed.

Lemma link_author_agree isbn name rows :
  Cypher.link_author isbn name s = inr (rows, d) → agree [] s d.
Proof. intros Hq. query_inv Hq; by apply agree_frame. Qed.

Lemma unlink_authors_agree isbn rows :
  Cypher.unlink_authors isbn s = inr (rows, d) → agree [] s d.
Proof. intros Hq. query_inv Hq; by apply agree_frame. Qed.

Lemma delete_author_agree name rows :
  Cypher.delete_author name s = inr (rows, d) → agree [] s d.
Proof. intros Hq. query_inv Hq; by apply agree_frame. Qed.

Lemma set_pages_agree isbn value rows :
  Cypher.set_book_number isbn Cypher.Pages value s = inr (rows, d) → agree [] s d.
Proof.
  intros Hq. unfold Cypher.set_book_number, Cypher.ok in Hq. simplify_eq.
  apply agree_frame; [|done]. intros i. simpl.
  rewrite lookup_alter. case_decide; subst; by destruct (book_nodes s !! _).
Qed.

Lemma set_user_phone_agree username value rows :
  Cypher.set_user_phone username value s = inr (rows, d) → agree [] s d.
Proof.
  intros Hq. unfold Cypher.set_user_phone, Cypher.ok in Hq. simplify_eq.
  by apply agree_frame.
Qed.

Lemma set_user_text_agree username f value rows :
  Cypher.set_user_text username f value s = inr (rows, d) → agree [] s d.
Proof.
  intros Hq. unfold Cypher.set_user_text, Cypher.ok in Hq.
  repeat case_match; simplify_eq; try (by apply agree_frame).
  apply agree_frame; [done|]. intros i. rewrite !borrowed_out. simpl.
  by apply out_fmap_same.
Qed.

Lemma create_rates_agree username isbn score rows :
  Cypher.create_rates username isbn score s = inr (rows, d) → agree [] s d.
Proof. intros Hq. query_inv Hq; by apply agree_frame. Qed.

Lemma delete_user_agree username rows :
  Cypher.delete_user username s = inr (rows, d) → agree [] s d.
Proof. intros Hq. query_inv Hq; by apply agree_frame. Qed.

Lemma create_book_agree b rows :
  Cypher.create_book b s = inr (rows, d) →
  agree [Book.isbn b] s d ∧ book_nodes s !! Book.isbn b = None.
Proof.
  intros Hq. unfold Cypher.create_book, Cypher.ok in Hq.
  destruct (Cypher.has_book s (Book.isbn b)) eqn:Hb; simplify_eq. split.
  - intros i Hi. apply stock_eq; [|done]. simpl.
    rewrite lookup_insert_ne; [done|]. intros <-. apply Hi. left.
  - apply eq_None_not_Some. intros Hsome%has_book_true. congruence.
Qed.

Lemma delete_book_agree isbn rows :
  Cypher.delete_book isbn s = inr (rows, d) →
  agree [isbn] s d ∧ book_nodes d !! isbn = None.
Proof.
  intros Hq. unfold Cypher.delete_book, Cypher.ok in Hq.
  destruct (Cypher.has_book s isbn) eqn:Hb; simplify_eq.
  - destruct (_ || _); simplify_eq. split; [|by apply lookup_delete_eq].
    intros i Hi. apply stock_eq; [|done]. simpl.
    rewrite lookup_delete_ne; [done|]. intros <-. apply Hi. left.
  - split; [by apply agree_refl|].
    apply eq_None_not_Some. intros Hsome%has_book_true. congruence.
Qed.

Lemma set_book_text_ledger isbn f value rows :
  Cypher.set_book_text isbn f value s = inr (rows, d) → ledger_kept s d.
Proof.
  intros Hq. unfold Cypher.set_book_text, Cypher.ok in Hq.
  destruct (book_nodes s !! isbn) as [b|] eqn:Hb; [|simplify_eq; by intros i _ _].
  destruct f; simplify_eq.
  - case_bool_decide as Hne; [simplify_eq; by intros i _ _|].
    destruct (Cypher.has_book s value) eqn:Hnew; simplify_eq.
    eapply (agree_ledger_kept [isbn; value]).
    + intros i Hi. apply stock_eq; simpl.
      * rewrite lookup_insert_ne, lookup_delete_ne; [done| |]; intros <-; apply Hi;
          [left|right; left].
      * rewrite !borrowed_out. simpl. apply out_rename_isbn; intros ->; apply Hi;
          [left|right; left].
    + intros i [->|[->|?%elem_of_nil]%elem_of_cons]%elem_of_cons; [| |done].
      * right. simpl. rewrite lookup_insert_ne by done. apply lookup_delete_eq.
      * left. apply eq_None_not_Some. intros Hsome%has_book_true. congruence.
  - eapply (agree_ledger_kept []); [|by intros ? ?%elem_of_nil].
    apply agree_frame; [|done]. intros i. simpl.
    rewrite lookup_insert. case_decide; subst; by rewrite ?Hb.
  - eapply (agree_ledger_kept []); [|by intros ? ?%elem_of_nil].
    apply agree_frame; [|done]. intros i. simpl.
    rewrite lookup_insert. case_decide; subst; by rewrite ?Hb.
Qed.

Lemma decrement_borrows_agree username isbn rows :
  Cypher.decrement_borrows username isbn s = inr (rows, d) → agree [] s d.
Proof.
  intros Hq. unfold Cypher.decrement_borrows, Cypher.ok in Hq.
  destruct (Cypher.has_user s username && Cypher.has_book s isbn); simplify_eq;
    [|by apply agree_refl].
  intros i _. unfold stock. rewrite !borrowed_out. simpl.
  rewrite (out_on_pair _ _ _ (-1)) by (intros; lia).
  fold (matching username isbn (borrows s)).
  rewrite lookup_alter. case_decide; subst.
  - rewrite decide_True by done. destruct (book_nodes s !! isbn); simpl; [|done].
    f_equal. lia.
  - rewrite decide_False by done. destruct (book_nodes s !! i); simpl; [|done].
    f_equal. lia.
Qed.

Lemma delete_borrows_agree username isbn rows :
  (∀ r, r ∈ borrows s → r.1 = (username, isbn) → rel_val r = 1) →
  Cypher.delete_borrows username isbn s = inr (rows, d) → agree [] s d.
Proof.
  intros Hone Hq. unfold Cypher.delete_borrows, Cypher.ok in Hq.
  destruct (Cypher.has_user s username && Cypher.has_book s isbn); simplify_eq;
    [|by apply agree_refl].
  intros i _. unfold stock. rewrite !borrowed_out. simpl.
  rewrite (out_filter_out _ _ _ _ Hone).
  fold (matching username isbn (borrows s)).
  rewrite lookup_alter. case_decide; subst.
  - rewrite decide_True by done. destruct (book_nodes s !! isbn); simpl; [|done].
    f_equal. lia.
  - rewrite decide_False by done. destruct (book_nodes s !! i); simpl; [|done].
    f_equal. lia.
Qed.
End Ledger.

(** Checking out: one more copy out, one copy less on the shelf. *)
Lemma check_out_agree username isbn s d1 d2 rows1 rows2 :
  consistent s →
  is_Some (user_nodes s !! username) → is_Some (book_nodes s !! isbn) →
  Cypher.merge_borrows username isbn s = inr (rows1, d1) →
  Cypher.decrement_stock isbn d1 = inr (rows2, d2) →
  agree [] s d2.
Proof.
  intros Hs Hu%has_user_true Hb%has_book_true Hm Hd.
  unfold Cypher.merge_borrows, Cypher.ok in Hm. rewrite Hu, Hb in Hm. simpl in Hm.
  unfold Cypher.decrement_stock, Cypher.ok in Hd. simplify_eq.
  intros i _. unfold stock. rewrite !borrowed_out.
  assert (out (borrows d1) i = out (borrows s) i + (if decide (i = isbn) then 1 else 0)
          ∧ book_nodes d1 = book_nodes s) as [Hout Hbooks].
  { case_bool_decide as Hex; simplify_eq; simpl; split; try done.
    - rewrite (out_on_pair _ _ _ 1) by done.
      rewrite (matching_one _ _ _ (borrows_unique _ Hs) Hex). case_decide; lia.
    - rewrite out_app, out_cons. unfold rel_isbn, rel_val, out. simpl.
      repeat case_decide; try congruence; lia. }
  simpl. rewrite Hout, Hbooks, lookup_alter. case_decide; subst.
  - rewrite decide_True by done. destruct (book_nodes s !! isbn); simpl; [|done].
    f_equal. lia.
  - rewrite decide_False by done. destruct (book_nodes s !! i); simpl; [|done].
    f_equal. lia.
Qed.

(** The first statement of a check-out alone: one more copy out, the shelf
    as it was. *)
Lemma merge_borrows_stock username isbn s d rows :
  consistent s →
  Cypher.merge_borrows username isbn s = inr (rows, d) →
  agree [isbn] s d
  ∧ (stock d isbn = stock s isbn ∨ stock d isbn = Z.succ <$> stock s isbn).
Proof.
  intros Hs Hm. unfold Cypher.merge_borrows, Cypher.ok in Hm.
  destruct (Cypher.has_user s username && Cypher.has_book s isbn); simplify_eq;
    [|split; [apply agree_refl|by left]].
  assert (∀ i, out (borrows d) i
               = out (borrows s) i + (if decide (i = isbn) then 1 else 0)
          ∧ book_nodes d = book_nodes s) as Hout.
  { intros i. case_bool_decide as Hex; simplify_eq; simpl; split; try done.
    - rewrite (out_on_pair _ _ _ 1) by done.
      rewrite (matching_one _ _ _ (borrows_unique _ Hs) Hex). case_decide; lia.
    - rewrite out_app, out_cons. unfold rel_isbn, rel_val, out. simpl.
      repeat case_decide; try congruence; lia. }
  split.
  - intros i Hi. destruct (Hout i) as [Ho Hb]. unfold stock. rewrite !borrowed_out, Ho, Hb.
    rewrite decide_False by (intros ->; apply Hi; left).
    destruct (book_nodes s !! i); simpl; [|done]. f_equal. lia.
  - right. destruct (Hout isbn) as [Ho Hb]. unfold stock. rewrite !borrowed_out, Ho, Hb.
    rewrite decide_True by done.
    destruct (book_nodes s !! isbn); simpl; [|done]. f_equal. lia.
Qed.

(** ** The ledger, operation by operation *)

Create HintDb consist.
Create HintDb ledger.
#[export] Hint Resolve create_user_consistent link_author_consistent unlink_authors_consistent
  delete_author_consistent set_book_text_consistent set_user_phone_consistent
  set_user_text_consistent merge_borrows_consistent delete_borrows_consistent
  delete_book_consistent delete_user_consistent : consist.
#[export] Hint Resolve create_user_agree link_author_agree unlink_authors_agree
  delete_author_agree set_pages_agree set_user_phone_agree set_user_text_agree
  create_rates_agree delete_user_agree decrement_borrows_agree : ledger.

Ltac ro_query H :=
  lazymatch type of H with
  | Cypher.match_book _ _ = _ => query_inv H
  | Cypher.match_user _ _ = _ => query_inv H
  | Cypher.match_borrows _ _ _ = _ => query_inv H
  | Cypher.match_rates _ _ _ = _ => query_inv H
  | Cypher.count_author_books _ _ = _ => query_inv H
  | Cypher.count_book_user_relations _ _ = _ => query_inv H
  | Cypher.count_user_book_relations _ _ = _ => query_inv H
  | Cypher.book_borrowers _ _ = _ => query_inv H
  | Cypher.user_borrowings _ _ = _ => query_inv H
  | Cypher.recommend _ _ = _ => query_inv H
  end.

Section Ledger.
Variable s0 : store.
Variable o : op.

Lemma Inv_step K s d : Inv s0 K s → consistent d → agree [] s d → Inv s0 K d.
Proof. intros [? ?] ? ?. split; [done|]. by eapply agree_trans. Qed.

Lemma post_Inv r d : Inv s0 [] d → post s0 o r d.
Proof.
  intros [? ?]. split; [done|]. intros _.
  eapply agree_ledger_kept; [done|]. by intros ? ?%elem_of_nil.
Qed.
End Ledger.

Ltac inv_query :=
  match goal with
  | H : _ ?s = inr (_, _) |- _ => progress (ro_query H)
  | Hi : Inv ?s0 ?K ?s, H : _ ?s = inr (_, ?d) |- _ =>
    assert (Inv s0 K d)
      by (apply (Inv_step s0 K s d Hi); [destruct Hi; eauto 2 with consist|eauto 2 with ledger]);
    clear H Hi
  end.

Ltac led_go s0 :=
  repeat (first [ wp_step | wp_loop (Inv s0 []) | inv_query ]);
  try (by apply post_Inv);
  try (match goal with H : Inv _ _ _ |- _ => by destruct H end).

Section Operations.
Variable s0 : store.
Hypothesis Hs0 : consistent s0.

Lemma Inv_start : Inv s0 [] s0.
Proof. split; [done|apply agree_refl]. Qed.

Lemma add_user_ledger user :
  wp (run_op (AddUser user)) (post s0 (AddUser user)) s0.
Proof. pose proof Inv_start. simpl. unfold add_user. led_go s0. Qed.

Lemma edit_user_ledger username field value :
  wp (run_op (EditUser username field value)) (post s0 (EditUser username field value)) s0.
Proof. pose proof Inv_start. simpl. unfold edit_user. led_go s0. Qed.

Lemma book_stats_ledger isbn :
  wp (run_op (BookStats isbn)) (post s0 (BookStats isbn)) s0.
Proof. pose proof Inv_start. simpl. unfold get_book_stats. led_go s0. Qed.

Lemma user_stats_ledger username :
  wp (run_op (UserStats username)) (post s0 (UserStats username)) s0.
Proof. pose proof Inv_start. simpl. unfold get_user_stats. led_go s0. Qed.

Lemma recommend_ledger username :
  wp (run_op (Recommend username)) (post s0 (Recommend username)) s0.
Proof. pose proof Inv_start. simpl. unfold recommend_books. led_go s0. Qed.

Lemma remove_user_ledger username :
  wp (run_op (RemoveUser username)) (post s0 (RemoveUser username)) s0.
Proof. pose proof Inv_start. simpl. unfold remove_user. led_go s0. Qed.
End Operations.

Lemma agree_then_kept s0 s d : agree [] s0 s → ledger_kept s d → ledger_kept s0 d.
Proof.
  intros Ha Hk i Hi Hd. rewrite <-(Ha i) by apply not_elem_of_nil. apply Hk; [|done].
  specialize (Ha i (not_elem_of_nil _)). unfold stock in Ha.
  destruct Hi as [b Hb]. rewrite Hb in Ha. by destruct (book_nodes s !! i).
Qed.

Lemma post_Inv_but s0 o K r d :
  Inv s0 K d →
  (∀ i, i ∈ K → book_nodes s0 !! i = None ∨ book_nodes d !! i = None) →
  post s0 o r d.
Proof. intros [? ?] ?. split; [done|]. intros _. by eapply agree_ledger_kept. Qed.

(** Nothing is said of the ledger after a check-out that failed. *)
Lemma post_check_out_failed s0 isbn username d :
  consistent d → post s0 (CheckOut isbn username) (inr (Flag false)) d.
Proof. intros ?. split; [done|]. simpl. tauto. Qed.

(** With one Borrows relation per pair, the last row read is the row. *)
Lemma matched_value (s : store) username isbn quantity :
  NoDup (fst <$> borrows s) →
  last (rel_val <$> filter (λ r, is_pair username isbn r = true) (borrows s)) = Some quantity →
  ∀ r, r ∈ borrows s → r.1 = (username, isbn) → rel_val r = quantity.
Proof.
  intros Hnd Hlast r Hr Hk.
  destruct (lookup_pair username isbn (borrows s)) as [v|] eqn:E.
  - rewrite (filter_pair_unique _ _ _ _ Hnd E) in Hlast. simpl in Hlast. simplify_eq.
    assert (r ∈ filter (λ r, is_pair username isbn r = true) (borrows s)) as Hin.
    { apply list_elem_of_filter. split; [by apply is_pair_true|done]. }
    rewrite (filter_pair_unique _ _ _ _ Hnd E) in Hin.
    by apply list_elem_of_singleton in Hin as ->.
  - rewrite lookup_pair_None in E. by destruct (E r Hr).
Qed.

Lemma found_row {A} (o : option A) :
  negb (bool_decide (is_Some (last (option_list o)))) = false → is_Some o.
Proof. rewrite last_option_list. by intros ?%negb_false_iff%bool_decide_eq_true. Qed.

Section Operations.
Variable s0 : store.
Hypothesis Hs0 : consistent s0.

Lemma add_book_ledger book :
  0 ≤ Book.quantity book →
  wp (run_op (AddBook book)) (post s0 (AddBook book)) s0.
Proof.
  intros Hq. simpl. unfold add_book. repeat wp_step.
  - by apply post_Inv, Inv_start.
  - match goal with H : Cypher.create_book _ _ = _ |- _ =>
      pose proof (create_book_consistent _ _ Hs0 _ _ Hq H) as Hd;
      pose proof (create_book_agree _ _ _ _ H) as [Ha Hnew]; clear H
    end.
    assert (Inv s0 [Book.isbn book] d) as Hinv by done.
    assert (∀ d', Inv s0 [Book.isbn book] d' → ∀ r, post s0 (AddBook book) r d') as Hexit.
    { intros d' Hd' r. eapply post_Inv_but; [done|].
      intros i ->%list_elem_of_singleton. by left. }
    repeat (first [ wp_step | wp_loop (Inv s0 [Book.isbn book]) | inv_query ]); eauto.
Qed.

Lemma edit_book_ledger isbn field value :
  wp (run_op (EditBook isbn field value)) (post s0 (EditBook isbn field value)) s0.
Proof.
  pose proof (Inv_start s0 Hs0). simpl. unfold edit_book. led_go s0.
  - match goal with Hlt : (?n <? 0) = false |- _ => apply Z.ltb_ge in Hlt; rename Hlt into Hn end.
    match goal with Hq : Cypher.set_book_number _ _ _ _ = _ |- _ =>
      pose proof (set_book_number_consistent _ _ Hs0 _ _ _ _ (or_introl Hn) Hq) as Hd;
      rename Hq into Hset
    end.
    split; [done|]. simpl. intros Hns.
    rewrite bool_decide_eq_false_2 in Hset by tauto.
    apply set_pages_agree in Hset.
    eapply agree_ledger_kept; [done|]. by intros ? ?%elem_of_nil.
  - match goal with H : Cypher.set_book_text _ _ _ _ = _ |- _ =>
      pose proof (set_book_text_consistent _ _ Hs0 _ _ _ _ H) as Hd;
      apply set_book_text_ledger in H
    end.
    by split.
Qed.

Lemma check_out_ledger isbn username :
  wp (run_op (CheckOut isbn username)) (post s0 (CheckOut isbn username)) s0.
Proof.
  pose proof (Inv_start s0 Hs0). simpl. unfold check_out_book_for_user. led_go s0.
  all: match goal with
       | Hb : negb (bool_decide (is_Some (last (option_list (book_nodes _ !! _))))) = false,
         Hu : negb (bool_decide (is_Some (last (option_list (user_nodes _ !! _))))) = false
         |- _ => apply found_row in Hb, Hu
       end.
  all: match goal with
       | Hm : Cypher.merge_borrows _ _ _ = _ |- _ =>
         pose proof (merge_borrows_consistent _ _ Hs0 _ _ _ Hm) as Hd1
       end.
  all: try (by apply post_check_out_failed).
  match goal with
  | Hm : Cypher.merge_borrows _ _ ?s = inr (_, ?d1),
    Hd : Cypher.decrement_stock _ ?d1 = inr (_, ?d2),
    Hq : (_ <=? 0) = false, Hbook : is_Some (book_nodes _ !! _),
    Huser : is_Some (user_nodes _ !! _) |- _ =>
    pose proof (check_out_agree _ _ _ _ _ _ _ Hs0 Huser Hbook Hm Hd) as Ha;
    apply Z.leb_gt in Hq; rewrite last_option_list in Hq;
    assert (book_nodes d1 = book_nodes s) as Hbooks by (clear Hd; query_inv Hm; done);
    assert (consistent d2) as Hd2;
    [eapply (decrement_stock_consistent _ _ Hd1); [|exact Hd];
     intros b Hb'; rewrite Hbooks in Hb'; by rewrite Hb' in Hq|]
  end.
  apply post_Inv. by split.
Qed.
End Operations.

Section Operations.
Variable s0 : store.
Hypothesis Hs0 : consistent s0.

Lemma return_ledger isbn username :
  wp (run_op (ReturnBook isbn username)) (post s0 (ReturnBook isbn username)) s0.
Proof.
  pose proof (Inv_start s0 Hs0). simpl. unfold return_book_for_user. led_go s0.
  all: match goal with
       | Hl : last _ = Some ?q |- _ =>
         pose proof (matched_value _ _ _ _ (borrows_unique _ Hs0) Hl) as Hrow
       end.
  - match goal with Hq : (_ =? 1) = true |- _ => apply Z.eqb_eq in Hq; subst end.
    apply post_Inv. split; [by eauto 2 with consist|by eapply delete_borrows_agree].
  - match goal with Hq : (_ =? 1) = false |- _ => apply Z.eqb_neq in Hq end.
    apply post_Inv. split; [|by eauto 2 with ledger].
    eapply decrement_borrows_consistent; [done| |done].
    intros r Hr Hk. by rewrite (Hrow r Hr Hk).
Qed.

Lemma rate_ledger username isbn score :
  wp (run_op (RateBook username isbn score)) (post s0 (RateBook username isbn score)) s0.
Proof.
  pose proof (Inv_start s0 Hs0). simpl. unfold rate_book. led_go s0.
  all: match goal with
       | Hc : Cypher.create_rates _ _ _ ?s = inr (_, ?d) |- _ =>
         assert (consistent d) as Hd;
         [|apply post_Inv; split; [done|by eauto 2 with ledger]]
       end.
  - eapply create_rates_consistent; [done| |done].
    intros r Hr Hk.
    match goal with
    | Hnil : _ <$> filter _ (rates ?s) = [] |- _ =>
      apply fmap_nil_inv in Hnil;
      assert (r ∈ filter (λ r, is_pair username isbn r = true) (rates s)) as Hin;
      [by apply list_elem_of_filter; split; [apply is_pair_true|]
      |rewrite Hnil in Hin; by apply elem_of_nil in Hin]
    end.
  - match goal with
    | Hc : Cypher.create_rates _ _ _ _ = _, Hf : _ && _ = false |- _ =>
      unfold Cypher.create_rates, Cypher.ok in Hc; rewrite Hf in Hc; by simplify_eq
    end.
Qed.

Lemma remove_book_ledger isbn :
  wp (run_op (RemoveBook isbn)) (post s0 (RemoveBook isbn)) s0.
Proof.
  pose proof (Inv_start s0 Hs0). simpl. unfold remove_book. led_go s0.
  all: match goal with
       | Hi : Inv _ [] ?s, Hq : Cypher.delete_book _ ?s = inr (_, ?d) |- _ =>
         destruct Hi as [Hc Ha];
         pose proof (delete_book_consistent _ _ Hc _ _ Hq) as Hd;
         apply delete_book_agree in Hq as [Hq Hgone];
         eapply (post_Inv_but _ _ [isbn]);
         [split; [done|]; intros i Hi; rewrite (Hq i Hi);
          apply Ha, not_elem_of_nil
         |intros i ->%list_elem_of_singleton; by right]
       end.
Qed.
End Operations.

(** Every operation keeps the store consistent, and every operation that
    succeeds, but the edit of a stock, keeps the ledger. *)
Lemma run_op_ledger (o : op) (s : store) :
  consistent s → input_ok o → wp (run_op o) (post s o) s.
Proof.
  intros Hs Hin. destruct o.
  - by apply add_book_ledger.
  - by apply add_user_ledger.
  - by apply edit_book_ledger.
  - by apply edit_user_ledger.
  - by apply check_out_ledger.
  - by apply return_ledger.
  - by apply book_stats_ledger.
  - by apply user_stats_ledger.
  - by apply rate_ledger.
  - by apply recommend_ledger.
  - by apply remove_book_ledger.
  - by apply remove_user_ledger.
Qed.

(** ** The stock invariant *)

(** Stores reached from a consistent one are consistent. *)
Lemma run_ops_consistent (os : list op) (w : world) :
  Forall input_ok os → consistent (db w) → consistent (db (run_ops os w)).
Proof.
  intros Hos. revert w. induction Hos as [|o os Ho _ IH]; intros [s faults events] Hs; [done|].
  simpl. apply IH. by apply (wp_run _ _ _ faults events (run_op_ledger o s Hs Ho)).
Qed.

Lemma library_consistent : consistent library.
Proof.
  apply (run_ops_consistent _ (calm empty_store)); [|apply consistent_empty].
  repeat constructor. simpl. lia.
Qed.

Lemma one_copy_out_consistent : consistent one_copy_out.
Proof.
  apply (run_ops_consistent _ (calm library)); [|apply library_consistent].
  by repeat constructor.
Qed.

Lemma db_map_answer {A} (f : A → answer) (m : M A) (w : world) :
  db (map_answer f m w).2 = db (m w).2.
Proof. unfold map_answer, bind. by destruct (m w) as [[e|a] w']. Qed.

(** [add_book] keeps the ledger of the books that are there, whatever the
    quantity the new book comes with. *)
Lemma add_book_keeps_ledger (book : Book.t) (s0 : store) :
  wp (add_book book) (λ _ d, ledger_kept s0 d) s0.
Proof.
  assert (ledger_kept s0 s0) as Hrefl by (by intros i _ _).
  unfold add_book. repeat wp_step; try done.
  match goal with H : Cypher.create_book _ _ = _ |- _ =>
    apply create_book_agree in H as [Ha Hnew]
  end.
  assert (∀ d', agree [Book.isbn book] s0 d' → ledger_kept s0 d') as Hexit.
  { intros d' Hd'. eapply agree_ledger_kept; [done|].
    intros i ->%list_elem_of_singleton. by left. }
  wp_loop (agree [Book.isbn book] s0).
  - by apply Hexit.
  - repeat wp_step; by apply Hexit.
  - repeat wp_step; by apply Hexit.
  - match goal with H : Cypher.link_author _ _ _ = _ |- _ => apply link_author_agree in H end.
    by eapply agree_trans.
  - done.
Qed.

Section CheckOut.
Variable s0 : store.
Hypothesis Hs0 : consistent s0.

(** What a check-out can do to the ledger, whether it succeeds or not. *)
Lemma check_out_bound isbn username :
  wp (check_out_book_for_user isbn username)
     (λ _ d, agree [isbn] s0 d
             ∧ (stock d isbn = stock s0 isbn ∨ stock d isbn = Z.succ <$> stock s0 isbn)) s0.
Proof.
  assert (agree [isbn] s0 s0
          ∧ (stock s0 isbn = stock s0 isbn ∨ stock s0 isbn = Z.succ <$> stock s0 isbn))
    as Hsame by (split; [apply agree_refl|by left]).
  unfold check_out_book_for_user.
  repeat (first [ wp_step
                | match goal with H : _ ?s = inr (_, _) |- _ => progress (ro_query H) end ]);
    try done.
  all: try (match goal with
            | Hm : Cypher.merge_borrows _ _ _ = inr (_, ?d) |- _ ∧ (stock ?d _ = _ ∨ _) =>
              by apply (merge_borrows_stock _ _ _ _ _ Hs0 Hm)
            end).
  all: match goal with
       | Hb : negb (bool_decide (is_Some (last (option_list (book_nodes _ !! _))))) = false,
         Hu : negb (bool_decide (is_Some (last (option_list (user_nodes _ !! _))))) = false,
         Hm : Cypher.merge_borrows _ _ _ = _, Hd : Cypher.decrement_stock _ _ = _ |- _ =>
         apply found_row in Hb, Hu;
         pose proof (check_out_agree _ _ _ _ _ _ _ Hs0 Hu Hb Hm Hd) as Ha
       end.
  all: split; [intros i _; apply Ha, not_elem_of_nil|left; apply Ha, not_elem_of_nil].
Qed.
End CheckOut.




(** C2 in the library of the scenarios. *)
Lemma check_out_contract_witness :
  ∃ s', check_out_book_for_user "111" "alice" (calm library) =
        (inr true,
         World s' [] [Event LSuccess "checked out book isbn={} for user username={}"
                            [AStr "111"; AStr "alice"]])
    ∧ borrow_count s' "alice" "111" = Some 1
    ∧ b_quantity <$> book_nodes s' !! "111" = Some 1.
Proof.
  destruct (check_out_contract "111" "alice" library []) as (_ & _ & _ & _ & Hok).
  edestruct Hok as (s' & Hrun & Hcount & _ & Hbooks & _).
  - vm_compute. reflexivity.
  - vm_compute. reflexivity.
  - vm_compute. reflexivity.
  - exists s'. split; [exact Hrun|]. rewrite Hcount, Hbooks. split; vm_compute; reflexivity.
Defined.

(** C3 with one copy out. *)
Lemma return_contract_witness :
  ∃ s', return_book_for_user "111" "alice" (calm one_copy_out) =
        (inr true,
         World s' [] [Event LSuccess "returned book isbn={} for user username={}"
                            [AStr "111"; AStr "alice"]])
    ∧ borrow_count s' "alice" "111" = None
    ∧ b_quantity <$> book_nodes s' !! "111" = Some 2.
Proof.
  destruct (return_contract "111" "alice" one_copy_out []) as (_ & _ & Hok).
  edestruct Hok as (s' & Hrun & Hcount & _ & Hbooks & _).
  - apply (borrows_unique _ one_copy_out_consistent).
  - vm_compute. by eexists.
  - vm_compute. reflexivity.
  - vm_compute. reflexivity.
  - exists s'. split; [exact Hrun|]. rewrite Hcount, Hbooks. split; vm_compute; reflexivity.
Defined.

(** C4 on a rated book. *)
Lemma ratings_are_unique_and_kept_witness :
  rate_book "alice" "111" 5 (calm library) =
    (inr true,
     World rated_library []
           [Event LSuccess "added rating score={} by user username={} to book isbn={}"
                  [AInt 5; AStr "alice"; AStr "111"]])
  ∧ rate_book "alice" "111" 1 (calm rated_library) =
    (inr false,
     World rated_library []
           [Event LError "user username={} has already rated book isbn={} with score={}"
                  [AStr "alice"; AStr "111"; AInt 5]]).
Proof.
  destruct ratings_are_unique_and_kept as (Hdup & Hnew & _ & _). unfold calm. split.
  - rewrite (Hnew library "alice" "111" 5 []); [vm_compute; reflexivity|..].
    + vm_compute. by eexists.
    + vm_compute. by eexists.
    + vm_compute. reflexivity.
  - edestruct (Hdup rated_library "alice" "111" 1) as [_ Hcalm].
    + vm_compute. by eexists.
    + vm_compute. by eexists.
    + vm_compute. reflexivity.
    + apply (Hcalm []).
Defined.

(** C6 on a rated book and a free one. *)
Lemma deletion_guard_witness :
  remove_book "111" (calm rated_library) =
    (inr false,
     World rated_library [] [Event LError "book isbn={} is involved in {} user relations"
                                   [AStr "111"; AInt 1]])
  ∧ remove_user "bob" (calm rated_library) =
    (inr true,
     World (with_users (delete "bob") rated_library) []
           [Event LSuccess "removed user username={}" [AStr "bob"]]).
Proof.
  destruct (deletion_guard rated_library []) as (Hblocked & _ & _ & Hfree). split.
  - change (AInt 1) with (AInt (book_relations rated_library "111")). apply Hblocked.
    + vm_compute. by eexists.
    + right. change (rates rated_library) with [("alice", "111", 5)]. by left.
  - apply Hfree.
    + vm_compute. by eexists.
    + change (borrows rated_library) with (@nil (string * string * Z)).
      change (rates rated_library) with [("alice", "111", 5)].
      intros [Hex|Hex]; apply Exists_exists in Hex as (r & Hr & Hu).
      * by apply elem_of_nil in Hr.
      * apply list_elem_of_singleton in Hr as ->. done.
Defined.

(** ** What leaves an operation *)

(** X1.  [__run_session] (with [__handle_cyphererror]) never raises.  It answers
    [True] exactly when the statement went through, the log untouched; it
    answers [False] with the store as it was and one error line that
    carries the message of the store, as it came. *)
Lemma run_session_reports {R} (q : query R) (w : world) :
  let outcome := run_session q w in
  (outcome.1 = inr true ∧ log outcome.2 = log w
   ∧ ∃ rows, q (db w) = inr (rows, db outcome.2))
  ∨ (outcome.1 = inr false ∧ db outcome.2 = db w
     ∧ ∃ message, log outcome.2 = (log w ++ [Event LError "{}" [AStr message]])%list
         ∧ (head (pending w) = Some (Some message) ∨ q (db w) = inl message)).
Proof.
  destruct w as [s faults events]. unfold run_session, try_except_cypher, bind. simpl.
  destruct faults as [|[message|] faults].
  - rewrite session_run_calm. destruct (q s) as [message|[rows d]] eqn:Hq.
    + right. split_and!; try done. exists message. split; [done|by right].
    + left. split_and!; try done. by exists rows.
  - rewrite session_run_fault. right. split_and!; try done. exists message. split; [done|by left].
  - rewrite session_run_pass. destruct (q s) as [message|[rows d]] eqn:Hq.
    + right. split_and!; try done. exists message. split; [done|by right].
    + left. split_and!; try done. by exists rows.
Qed.

Section Returns.
Context {A B : Type}.

Lemma returns_ret (a : A) : returns (ret a).
Proof. intros w. by exists a. Qed.

Lemma returns_emit l t a : returns (emit l t a).
Proof. intros w. by exists tt. Qed.

Lemma returns_bind (m : M A) (k : A → M B) :
  returns m → (∀ a, returns (k a)) → returns (bind m k).
Proof.
  intros Hm Hk w. unfold bind. destruct (Hm w) as [a Ha].
  destruct (m w) as [[e|a'] w']; simplify_eq/=. apply Hk.
Qed.

Lemma returns_run_session (q : query A) : returns (run_session q).
Proof.
  intros [s faults events]. unfold run_session, try_except_cypher, bind, session_run.
  simpl. destruct faults as [|[?|] ?]; [|by eexists|];
    destruct (q s) as [?|[? ?]]; by eexists.
Qed.

Lemma cypher_only_ret (a : A) : raises_cypher_only (ret a).
Proof. by intros w message. Qed.

Lemma cypher_only_emit l t a : raises_cypher_only (emit l t a).
Proof. by intros w message. Qed.

Lemma cypher_only_session_run (q : query A) : raises_cypher_only (session_run q).
Proof.
  intros [s faults events] message. unfold session_run. simpl.
  destruct faults as [|[?|] ?]; [| done |]; by destruct (q s) as [?|[? ?]].
Qed.

Lemma cypher_only_bind (m : M A) (k : A → M B) :
  raises_cypher_only m → (∀ a, raises_cypher_only (k a)) → raises_cypher_only (bind m k).
Proof.
  intros Hm Hk w message. unfold bind. specialize (Hm w).
  destruct (m w) as [[e|a] w']; simpl in *.
  - intros [= ->]. by apply (Hm message).
  - apply Hk.
Qed.

Lemma returns_cypher_only (m : M A) : returns m → raises_cypher_only m.
Proof. intros Hm w message. destruct (Hm w) as [a ->]. done. Qed.

(** What a [try ... except CypherError] block with a handler that returns
    lets out. *)
Lemma returns_try (m : M A) (h : string → M A) :
  raises_cypher_only m → (∀ message, returns (h message)) →
  returns (try_except_cypher m h).
Proof.
  intros Hm Hh w. unfold try_except_cypher. specialize (Hm w).
  destruct (m w) as [[[message|message]|a] w']; simpl in *.
  - apply Hh.
  - by destruct (Hm message).
  - by exists a.
Qed.
End Returns.

Lemma returns_handle_cyphererror message : returns (handle_cyphererror message).
Proof. intros w. by exists false. Qed.

Ltac returns_step :=
  lazymatch goal with
  | |- returns (bind _ _) => apply returns_bind; [|intros ?]
  | |- returns (ret _) => apply returns_ret
  | |- returns (emit _ _ _) => apply returns_emit
  | |- returns (error _ _) => apply returns_emit
  | |- returns (success _ _) => apply returns_emit
  | |- returns (run_session _) => apply returns_run_session
  | |- returns (link_author_to_book _ _) => apply returns_run_session
  | |- returns (handle_cyphererror _) => apply returns_handle_cyphererror
  | |- returns (try_except_cypher _ _) => apply returns_try; [|intros ?]
  | |- returns (map_answer _ _) => apply returns_bind; [|intros ?]
  | |- returns (if ?b then _ else _) => destruct b
  | |- returns (match ?x with _ => _ end) => destruct x
  | |- raises_cypher_only (bind _ _) => apply cypher_only_bind; [|intros ?]
  | |- raises_cypher_only (ret _) => apply cypher_only_ret
  | |- raises_cypher_only (emit _ _ _) => apply cypher_only_emit
  | |- raises_cypher_only (error _ _) => apply cypher_only_emit
  | |- raises_cypher_only (success _ _) => apply cypher_only_emit
  | |- raises_cypher_only (session_run _) => apply cypher_only_session_run
  | |- raises_cypher_only (get_book _) => apply cypher_only_session_run
  | |- raises_cypher_only (get_user _) => apply cypher_only_session_run
  | |- raises_cypher_only (run_session _) => apply returns_cypher_only, returns_run_session
  | |- raises_cypher_only (if ?b then _ else _) => destruct b
  | |- raises_cypher_only (match ?x with _ => _ end) => destruct x
  end.

Lemma returns_link_authors isbn names : returns (link_authors isbn names).
Proof. induction names as [|name rest IH]; simpl; repeat returns_step. done. Qed.

Lemma cypher_only_delete_author_if_orphan name counts :
  raises_cypher_only (delete_author_if_orphan name counts).
Proof. induction counts as [|c rest IH]; simpl; repeat returns_step; done. Qed.

Lemma cypher_only_check_orphaned_authors removed :
  raises_cypher_only (check_orphaned_authors removed).
Proof.
  induction removed as [|name rest IH]; simpl; repeat returns_step; try done.
  apply cypher_only_delete_author_if_orphan.
Qed.

(** X2.  Apart from the authors branch of [edit_book], the two statistics and
    [edit_book] on an empty value list, no operation lets an exception out,
    whatever the store does: each returns its result. *)
Theorem no_exception_escapes (o : op) (w : world) :
  ¬ may_raise o → ∃ a, (run_op o w).1 = inr a.
Proof.
  intros Hsafe. revert w. change (returns (run_op o)).
  destruct o; simpl in Hsafe; simpl.
  - unfold add_book. repeat returns_step. apply returns_link_authors.
  - unfold add_user. repeat returns_step.
  - unfold edit_book. apply returns_bind; [|intros ?; apply returns_ret].
    case_bool_decide; [tauto|]. destruct value as [|v [|v' rest]]; [tauto| |];
      repeat returns_step.
  - unfold edit_user. repeat returns_step.
  - unfold check_out_book_for_user. repeat returns_step.
  - unfold return_book_for_user. repeat returns_step.
  - tauto.
  - tauto.
  - unfold rate_book. repeat returns_step.
  - unfold recommend_books. repeat returns_step.
  - unfold remove_book. repeat returns_step.
    apply cypher_only_check_orphaned_authors.
  - unfold remove_user. repeat returns_step.
Qed.

Lemma no_exception_escapes_witness :
  ∃ a, (run_op (RemoveBook "111") (World one_copy_out [None; Some "connection lost"] [])).1
       = inr a.
Proof. apply (no_exception_escapes (RemoveBook "111")). simpl. tauto. Defined.

(** ** No store fault is swallowed *)

Section Accounts.
Context {A B : Type}.

Lemma accounted_quiet (w w' : world) (r : exn + A) :
  pending w' = pending w → log w' = log w → accounted w r w'.
Proof.
  intros Hp Hl. exists [], []. rewrite Hp, Hl.
  split_and!; [done|by rewrite app_nil_r|]. by intros ? ?%elem_of_nil.
Qed.

Lemma accounts_ret (a : A) : accounts (ret a).
Proof. intros w. by apply accounted_quiet. Qed.

Lemma accounts_raise (e : exn) : accounts (raise (A:=A) e).
Proof. intros w. by apply accounted_quiet. Qed.

Lemma accounts_emit l t a : accounts (emit l t a).
Proof.
  intros w. exists [], [Event l t a]. split_and!; [done..|]. by intros ? ?%elem_of_nil.
Qed.

Lemma accounts_session_run (q : query A) : accounts (session_run q).
Proof.
  intros [s faults events]. unfold session_run. simpl.
  destruct faults as [|[message|] faults].
  - destruct (q s) as [?|[? ?]]; by apply accounted_quiet.
  - exists [Some message], []. simpl. split_and!; [done|by rewrite app_nil_r|].
    intros ? [= ->]%list_elem_of_singleton. by right.
  - exists [None], [].
    destruct (q s) as [?|[? ?]]; simpl; (split_and!; [done|by rewrite app_nil_r|]);
      by intros ? [=]%list_elem_of_singleton.
Qed.

Lemma accounts_bind (m : M A) (k : A → M B) :
  accounts m → (∀ a, accounts (k a)) → accounts (bind m k).
Proof.
  intros Hm Hk w. unfold bind. specialize (Hm w).
  destruct (m w) as [[e|a] w1]; simpl in *.
  - destruct Hm as (consumed & added & ? & ? & Hlogged).
    exists consumed, added. split_and!; [done..|].
    intros message Hin. destruct (Hlogged message Hin) as [?|[= ->]]; eauto.
  - destruct Hm as (consumed & added & Hp & Hl & Hlogged).
    destruct (Hk a w1) as (consumed' & added' & Hp' & Hl' & Hlogged').
    exists (consumed ++ consumed')%list, (added ++ added')%list.
    split_and!.
    + by rewrite Hp, Hp', (assoc_L (++)).
    + by rewrite Hl', Hl, (assoc_L (++)).
    + intros message [Hin|Hin]%elem_of_app.
      * destruct (Hlogged message Hin) as [?|[=]]. left. apply elem_of_app. by left.
      * destruct (Hlogged' message Hin) as [?|?]; [|by right].
        left. apply elem_of_app. by right.
Qed.

Lemma accounts_try (m : M A) (h : string → M A) :
  accounts m → logs_message h → accounts (try_except_cypher m h).
Proof.
  intros Hm Hh w. unfold try_except_cypher. specialize (Hm w).
  destruct (m w) as [[[caught|?]|a] w1]; simpl in *; [|done..].
  destruct Hm as (consumed & added & Hp & Hl & Hlogged).
  destruct (Hh caught w1) as (added' & Hp' & Hl' & Hin').
  exists consumed, (added ++ added')%list. split_and!.
  - by rewrite Hp'.
  - by rewrite Hl', Hl, (assoc_L (++)).
  - intros message Hin. left. apply elem_of_app.
    destruct (Hlogged message Hin) as [?|[= ->]]; [by left|by right].
Qed.
End Accounts.

Lemma handle_cyphererror_logs : logs_message handle_cyphererror.
Proof.
  intros message w. exists [fault_line message]. split_and!; [done..|].
  apply list_elem_of_here.
Qed.

Lemma handle_then_ret_logs {A} (f : bool → A) :
  logs_message (λ message, do b <- handle_cyphererror message; ret (f b)).
Proof.
  intros message w. exists [fault_line message]. split_and!; [done..|].
  apply list_elem_of_here.
Qed.

Ltac accounts_step :=
  lazymatch goal with
  | |- accounts (bind _ _) => apply accounts_bind; [|intros ?]
  | |- accounts (ret _) => apply accounts_ret
  | |- accounts (raise _) => apply accounts_raise
  | |- accounts (emit _ _ _) => apply accounts_emit
  | |- accounts (error _ _) => apply accounts_emit
  | |- accounts (success _ _) => apply accounts_emit
  | |- accounts (session_run _) => apply accounts_session_run
  | |- accounts (get_book _) => apply accounts_session_run
  | |- accounts (get_user _) => apply accounts_session_run
  | |- accounts (run_session _) =>
    apply accounts_try; [|apply handle_cyphererror_logs]
  | |- accounts (link_author_to_book _ _) =>
    apply accounts_try; [|apply handle_cyphererror_logs]
  | |- accounts (try_except_cypher _ handle_cyphererror) =>
    apply accounts_try; [|apply handle_cyphererror_logs]
  | |- accounts (try_except_cypher _ _) =>
    apply accounts_try; [|apply (handle_then_ret_logs _)]
  | |- accounts (map_answer _ _) => apply accounts_bind; [|intros ?]
  | |- accounts (if ?b then _ else _) => destruct b
  | |- accounts (match ?x with _ => _ end) => destruct x
  end.

Lemma accounts_link_authors isbn names : accounts (link_authors isbn names).
Proof. induction names as [|name rest IH]; simpl; repeat accounts_step. done. Qed.

Lemma accounts_delete_if_orphan name counts : accounts (delete_if_orphan name counts).
Proof. induction counts as [|c rest IH]; simpl; repeat accounts_step; done. Qed.

Lemma accounts_clean_up_orphans removed : accounts (clean_up_orphans removed).
Proof.
  induction removed as [|name rest IH]; simpl; repeat accounts_step; try done.
  apply accounts_delete_if_orphan.
Qed.

Lemma accounts_delete_author_if_orphan name counts :
  accounts (delete_author_if_orphan name counts).
Proof. induction counts as [|c rest IH]; simpl; repeat accounts_step; done. Qed.

Lemma accounts_check_orphaned_authors removed : accounts (check_orphaned_authors removed).
Proof.
  induction removed as [|name rest IH]; simpl; repeat accounts_step; try done.
  apply accounts_delete_author_if_orphan.
Qed.

(** X3.  No store fault is swallowed.  Whatever the operation and the faults the
    store raises during it, every fault that came up is on the log as an
    error line with the message of the store, unmodified, or it is the
    exception that leaves the operation; the lines logged before stay. *)
Theorem store_faults_are_accounted (o : op) (w : world) :
  let outcome := run_op o w in
  ∃ consumed added,
    pending w = (consumed ++ pending outcome.2)%list
    ∧ log outcome.2 = (log w ++ added)%list
    ∧ ∀ message, Some message ∈ consumed →
        Event LError "{}" [AStr message] ∈ added ∨ outcome.1 = inl (CypherError message).
Proof.
  revert w. change (accounts (run_op o)).
  destruct o; simpl.
  - unfold add_book. repeat accounts_step. apply accounts_link_authors.
  - unfold add_user. repeat accounts_step.
  - unfold edit_book. repeat accounts_step;
      first [apply accounts_link_authors | apply accounts_clean_up_orphans].
  - unfold edit_user. repeat accounts_step.
  - unfold check_out_book_for_user. repeat accounts_step.
  - unfold return_book_for_user. repeat accounts_step.
  - unfold get_book_stats. repeat accounts_step.
  - unfold get_user_stats. repeat accounts_step.
  - unfold rate_book. repeat accounts_step.
  - unfold recommend_books. repeat accounts_step.
  - unfold remove_book. repeat accounts_step. apply accounts_check_orphaned_authors.
  - unfold remove_user. repeat accounts_step.
Qed.

(** ** Adding and editing: refusals and edge cases *)

Lemma store_eq (a b : store) :
  book_nodes a = book_nodes b → user_nodes a = user_nodes b →
  author_nodes a = author_nodes b → author_of a = author_of b →
  borrows a = borrows b → rates a = rates b → a = b.
Proof. destruct a, b. simpl. by intros -> -> -> -> -> ->. Qed.

Lemma has_author_true s name : Cypher.has_author s name = true ↔ name ∈ author_nodes s.
Proof. apply bool_decide_eq_true. Qed.

(** X4.  [add_book] on an isbn that is taken, [add_user] on a username that is
    taken: the [CREATE] is refused by the node key, the call answers
    [False] with the message of the store on the log, and the store is as
    it was: no author of the refused book is created or linked. *)
Theorem add_existing_is_refused (s : store) (events : list event) :
  (∀ book, is_Some (book_nodes s !! Book.isbn book) →
     add_book book (World s [] events) =
     (inr false, World s [] (events ++ [Event LError "{}" [AStr Cypher.key_exists]]))) ∧
  (∀ user, is_Some (user_nodes s !! User.username user) →
     add_user user (World s [] events) =
     (inr false, World s [] (events ++ [Event LError "{}" [AStr Cypher.key_exists]]))).
Proof.
  split.
  - intros book Hb%has_book_true.
    unfold add_book, run_session, try_except_cypher, bind.
    rewrite session_run_calm. unfold Cypher.create_book. by rewrite Hb.
  - intros user Hu%has_user_true.
    unfold add_user, run_session, try_except_cypher, bind.
    rewrite session_run_calm. unfold Cypher.create_user. by rewrite Hu.
Qed.

Lemma add_existing_is_refused_witness :
  add_book book111 (calm library) =
    (inr false, World library [] [Event LError "{}" [AStr Cypher.key_exists]])
  ∧ add_user alice (calm library) =
    (inr false, World library [] [Event LError "{}" [AStr Cypher.key_exists]]).
Proof.
  destruct (add_existing_is_refused library []) as [Hbook Huser].
  split; [apply Hbook | apply Huser]; vm_compute; by eexists.
Defined.

(** X5.  [add_book] on a free isbn: the Book node gets the four fields, every
    name of the author list becomes an Author node if it is not one, and
    the book gets one Author_Of relation per entry of the list, in order, a
    name given twice being linked twice. *)
Theorem add_book_creates (book : Book.t) (s : store) (events : list event) :
  book_nodes s !! Book.isbn book = None →
  add_book book (World s [] events) =
  (inr true,
   World (Store (<[Book.isbn book :=
                     BookNode (Book.title book) (Book.pages book) (Book.quantity book) ∅]>
                   (book_nodes s))
                (user_nodes s)
                (author_nodes s ∪ list_to_set (Book.authors book))
                (author_of s ++ ((λ name, (name, Book.isbn book)) <$> Book.authors book))%list
                (borrows s) (rates s))
         [] (events ++ [Event LSuccess "added book {}" [AStr (Book.isbn book)]])).
Proof.
  intros Hb%has_book_false.
  unfold add_book, run_session, try_except_cypher, bind.
  rewrite session_run_calm. unfold Cypher.create_book, Cypher.ok. rewrite Hb. simpl.
  rewrite link_authors_calm by (simpl; rewrite lookup_insert_eq; by eexists).
  done.
Qed.

Lemma add_book_creates_witness :
  add_book book222 (calm library) =
  (inr true,
   World (Store (<["222" := BookNode "Emma" 300 1 ∅]> (book_nodes library))
                (user_nodes library) (author_nodes library ∪ list_to_set ["C"])
                (author_of library ++ [("C", "222")])%list
                (borrows library) (rates library))
         [] [Event LSuccess "added book {}" [AStr "222"]]).
Proof. apply (add_book_creates book222 library []). vm_compute. reflexivity. Defined.

Lemma link_authors_missing isbn names s events :
  book_nodes s !! isbn = None →
  link_authors isbn names (World s [] events) = (inr true, World s [] events).
Proof.
  intros Hb%has_book_false. induction names as [|name rest IH]; [done|].
  simpl. unfold bind, link_author_to_book, run_session, try_except_cypher, bind.
  rewrite session_run_calm. unfold Cypher.link_author. rewrite Hb. simpl. apply IH.
Qed.

Lemma with_books_alter_missing f isbn s :
  book_nodes s !! isbn = None → with_books (alter f isbn) s = s.
Proof. intros Hb. unfold with_books. rewrite alter_id' by done. by destruct s. Qed.

Lemma with_users_alter_missing f username s :
  user_nodes s !! username = None → with_users (alter f username) s = s.
Proof. intros Hu. unfold with_users. rewrite alter_id' by done. by destruct s. Qed.



(** X7.  The value list of [edit_book], for a field other than [authors]: more
    than one value is refused with an error line, before any statement is
    sent; no value at all is not refused but makes the unpacking raise
    [ValueError], which leaves the operation with nothing logged. *)
Theorem edit_book_value_count (isbn field : string) (w : world) :
  field ≠ "authors" →
  (∀ v v' rest,
     edit_book isbn field (v :: v' :: rest) w =
     (inr false,
      World (db w) (pending w)
            (log w ++ [Event LError "field {} only accepts exactly 1 value but got {}"
                             [AStr field; AList (v :: v' :: rest)]]))) ∧
  (∃ message, edit_book isbn field [] w = (inl (ValueError message), w)).
Proof.
  intros Hf. unfold edit_book. rewrite bool_decide_eq_false_2 by done.
  split; [done|]. by eexists.
Qed.

Lemma edit_book_value_count_witness :
  edit_book "111" "title" ["Dune"; "Messiah"] (World library [Some "down"] []) =
    (inr false,
     World library [Some "down"]
           [Event LError "field {} only accepts exactly 1 value but got {}"
                  [AStr "title"; AList ["Dune"; "Messiah"]]])
  ∧ ∃ message, edit_book "111" "title" [] (World library [Some "down"] [])
               = (inl (ValueError message), World library [Some "down"] []).
Proof.
  destruct (edit_book_value_count "111" "title" (World library [Some "down"] []))
    as [Hmany Hnone]; [done|].
  split; [apply Hmany | apply Hnone].
Defined.



(** ** Adding and removing again *)

(** [remove_book] on a book that no Borrows or Rates relation touches, step
    by step. *)
Lemma remove_book_free isbn s events :
  is_Some (book_nodes s !! isbn) → ¬ book_in_use s isbn →
  remove_book isbn (World s [] events) =
  (inr true,
   World (with_books (delete isbn)
            (foldl drop_orphan (with_author_of (filter (λ r, r.2 ≠ isbn)) s)
                   (filter (λ r, r.2 = isbn) (author_of s)).*1))
         [] (events ++ [Event LSuccess "removed book isbn={}" [AStr isbn]])).
Proof.
  intros Hb%has_book_true Huse.
  unfold remove_book, try_except_cypher, bind. rewrite session_run_calm.
  unfold Cypher.count_book_user_relations. rewrite Hb. simpl.
  destruct (Z.eqb_spec (Z.of_nat (length (filter (λ r, rel_isbn r = isbn) (borrows s))
                                  + length (filter (λ r, rel_isbn r = isbn) (rates s)))) 0)
    as [Hz|Hz]; [|by rewrite count_two_zero in Hz]. simpl.
  rewrite session_run_calm. unfold Cypher.unlink_authors. rewrite Hb. simpl.
  rewrite check_orphaned_authors_calm. simpl.
  set (s1 := with_author_of (filter (λ r, r.2 ≠ isbn)) s).
  set (removed := (filter (λ r, r.2 = isbn) (author_of s)).*1).
  destruct (drop_orphans_frame removed s1) as (Hbk & Hus & Hof & Hbo & Hra & Hau).
  unfold run_session, try_except_cypher, bind. rewrite session_run_calm.
  unfold Cypher.delete_book.
  assert (Cypher.has_book (foldl drop_orphan s1 removed) isbn = true) as ->.
  { unfold Cypher.has_book. by rewrite Hbk. }
  rewrite Hof, Hbo, Hra. simpl.
  rewrite (bool_decide_eq_false_2 (Exists _ (filter _ _))); last first.
  { rewrite Exists_exists. intros (r & [? ?]%list_elem_of_filter & ?). done. }
  rewrite !bool_decide_eq_false_2 by (unfold book_in_use in Huse; tauto). done.
Qed.

Lemma filter_all {A} (P : A → Prop) `{∀ x, Decision (P x)} (l : list A) :
  (∀ x, x ∈ l → P x) → filter P l = l.
Proof.
  induction l as [|x l IH]; intros Hall; [done|].
  rewrite filter_cons_True by (apply Hall; left). f_equal. apply IH.
  intros y Hy. apply Hall. by right.
Qed.

Lemma filter_none {A} (P : A → Prop) `{∀ x, Decision (P x)} (l : list A) :
  (∀ x, x ∈ l → ¬ P x) → filter P l = [].
Proof.
  induction l as [|x l IH]; intros Hall; [done|].
  rewrite filter_cons_False by (apply Hall; left). apply IH.
  intros y Hy. apply Hall. by right.
Qed.

(** X9.  A book that is added and removed again leaves the store as it was,
    its authors included: those the book brought in are deleted with it,
    those that have other books stay.  (An author node of the store that
    has no book would go as well, hence the last hypothesis.) *)
Theorem add_then_remove_book (book : Book.t) (s : store) (events : list event) :
  consistent s →
  book_nodes s !! Book.isbn book = None →
  (∀ a, a ∈ Book.authors book → a ∈ author_nodes s → Exists (λ r, r.1 = a) (author_of s)) →
  ∃ w, add_book book (World s [] events) = (inr true, w)
    ∧ remove_book (Book.isbn book) w =
      (inr true,
       World s [] (log w ++ [Event LSuccess "removed book isbn={}" [AStr (Book.isbn book)]])).
Proof.
  intros Hs Hfree Hauth.
  unfold add_book, run_session, try_except_cypher, bind.
  rewrite session_run_calm. unfold Cypher.create_book, Cypher.ok.
  rewrite (has_book_false _ _ Hfree). simpl.
  rewrite link_authors_calm by (simpl; rewrite lookup_insert_eq; by eexists). simpl.
  eexists. split; [reflexivity|]. set (isbn := Book.isbn book) in *.
  assert (∀ r, r ∈ author_of s → r.2 ≠ isbn) as Hof.
  { intros r Hr Heq. destruct (author_of_ends _ Hs r Hr) as [_ [b Hb]]. congruence. }
  assert (∀ r : string * string * Z, r ∈ borrows s → rel_isbn r ≠ isbn) as Hbo.
  { intros r Hr Heq. destruct (borrows_ends _ Hs r Hr) as [_ [b Hb]]. congruence. }
  assert (∀ r : string * string * Z, r ∈ rates s → rel_isbn r ≠ isbn) as Hra.
  { intros r Hr Heq. destruct (rates_ends _ Hs r Hr) as [_ [b Hb]]. congruence. }
  rewrite remove_book_free; simpl.
  - f_equal. f_equal.
    set (names := Book.authors book).
    assert (filter (λ r : string * string, r.2 = isbn)
              (author_of s ++ ((λ name, (name, isbn)) <$> names))%list
            = (λ name, (name, isbn)) <$> names) as ->.
    { rewrite filter_app, filter_none by done. simpl. apply filter_all.
      by intros r (name & -> & _)%list_elem_of_fmap. }
    rewrite <-list_fmap_compose. simpl.
    assert ((fst ∘ (λ name : string, (name, isbn))) <$> names = names) as ->.
    { clearbody names. induction names as [|name rest IH]; [done|].
      rewrite fmap_cons. simpl. f_equal. exact IH. }
    match goal with |- with_books _ (foldl drop_orphan ?s1 _) = _ => set (s1' := s1) end.
    destruct (drop_orphans_frame names s1') as (Hbk & Hus & Hao & Hbw & Hrt & Hau).
    assert (author_of s1' = author_of s) as Hs1.
    { unfold s1'. simpl. rewrite filter_app, filter_all by done.
      rewrite filter_none; [by rewrite app_nil_r|].
      intros r (name & -> & _)%list_elem_of_fmap. simpl. tauto. }
    apply store_eq; simpl; rewrite ?Hbk, ?Hus, ?Hao, ?Hbw, ?Hrt; try done.
    + unfold s1'. simpl. by apply delete_insert_id.
    + apply set_eq. intros a. rewrite Hau, Hs1. unfold s1'. simpl.
      rewrite elem_of_union, elem_of_list_to_set. split.
      * intros [[?|Hin] Hnot]; [done|].
        destruct (decide (Exists (λ r, r.1 = a) (author_of s))) as [Hex|Hno].
        -- apply Exists_exists in Hex as (r & Hr & <-). by apply (author_of_ends _ Hs).
        -- exfalso. apply Hnot. split; [done|]. intros r Hr ?. apply Hno, Exists_exists. eauto.
      * intros Hin. split; [by left|]. intros [Hname Hnone].
        apply (Hauth a Hname) in Hin. apply Exists_exists in Hin as (r & Hr & ?).
        by apply (Hnone r).
  - rewrite lookup_insert_eq. by eexists.
  - unfold book_in_use. simpl. rewrite !Exists_exists.
    intros [(r & Hr & ?)|(r & Hr & ?)]; [by apply (Hbo r)|by apply (Hra r)].
Qed.

Lemma library_has_no_C : "C" ∉ author_nodes library.
Proof. apply (bool_decide_unpack ("C" ∉ author_nodes library)). by vm_compute. Qed.

Lemma add_then_remove_book_witness :
  ∃ w, add_book book222 (calm library) = (inr true, w)
    ∧ remove_book "222" w =
      (inr true, World library [] (log w ++ [Event LSuccess "removed book isbn={}" [AStr "222"]])).
Proof.
  apply (add_then_remove_book book222 library []).
  - apply library_consistent.
  - vm_compute. reflexivity.
  - intros a ->%list_elem_of_singleton Hin. by destruct (library_has_no_C Hin).
Defined.

(** X10.  [remove_user] after [add_user] gives the store back. *)
Theorem add_then_remove_user (user : User.t) (s : store) (events : list event) :
  consistent s →
  user_nodes s !! User.username user = None →
  ∃ w, add_user user (World s [] events) = (inr true, w)
    ∧ remove_user (User.username user) w =
      (inr true,
       World s [] (log w ++ [Event LSuccess "removed user username={}"
                                   [AStr (User.username user)]])).
Proof.
  intros Hs Hfree.
  unfold add_user, run_session, try_except_cypher, bind.
  rewrite session_run_calm. unfold Cypher.create_user, Cypher.ok.
  rewrite (has_user_false _ _ Hfree). simpl.
  eexists. split; [reflexivity|]. set (username := User.username user) in *.
  assert (¬ (Exists (λ r : string * string * Z, rel_user r = username) (borrows s)
             ∨ Exists (λ r : string * string * Z, rel_user r = username) (rates s))) as Hno.
  { rewrite !Exists_exists. intros [(r & Hr & Heq)|(r & Hr & Heq)].
    - destruct (borrows_ends _ Hs r Hr) as [[u Hu] _]. congruence.
    - destruct (rates_ends _ Hs r Hr) as [[u Hu] _]. congruence. }
  unfold remove_user, try_except_cypher, bind. rewrite session_run_calm.
  unfold Cypher.count_user_book_relations. unfold Cypher.has_user at 1. simpl.
  rewrite bool_decide_eq_true_2 by (rewrite lookup_insert_eq; by eexists). simpl.
  rewrite (proj2 (count_two_zero _ _ _ _) Hno). simpl.
  rewrite session_run_calm. unfold Cypher.delete_user, Cypher.has_user. simpl.
  rewrite bool_decide_eq_true_2 by (rewrite lookup_insert_eq; by eexists).
  rewrite !bool_decide_eq_false_2 by tauto. simpl.
  do 3 f_equal. apply store_eq; simpl; try done. by apply delete_insert_id.
Qed.

Lemma add_then_remove_user_witness :
  ∃ w, add_user (User.mk "carol" "Carol" 5550102) (calm library) = (inr true, w)
    ∧ remove_user "carol" w =
      (inr true,
       World library [] (log w ++ [Event LSuccess "removed user username={}" [AStr "carol"]])).
Proof.
  apply (add_then_remove_user (User.mk "carol" "Carol" 5550102) library []).
  - apply library_consistent.
  - vm_compute. reflexivity.
Defined.

(** ** Checking out and returning again *)

Lemma stock_back (m : gmap string book_node) isbn :
  alter (add_quantity 1) isbn (alter (add_quantity (-1)) isbn m) = m.
Proof.
  apply map_eq. intros j. destruct (decide (isbn = j)) as [->|Hne];
    [|by rewrite !lookup_alter_ne].
  rewrite 2!lookup_alter_eq. destruct (m !! j) as [[t p q e]|]; [|done].
  unfold add_quantity, set_quantity. simpl. do 2 f_equal. lia.
Qed.

Lemma is_pair_key {A} username isbn (r r' : string * string * A) :
  r.1 = r'.1 → is_pair username isbn r = is_pair username isbn r'.
Proof. destruct r as [[? ?] ?], r' as [[? ?] ?]. simpl. by intros [= -> ->]. Qed.

Lemma on_pair_back username isbn (l : list (string * string * Z)) :
  on_pair username isbn (λ quantity, quantity - 1)
    <$> (on_pair username isbn (λ quantity, quantity + 1) <$> l) = l.
Proof.
  induction l as [|r l IH]; [done|]. rewrite !fmap_cons. f_equal; [|exact IH].
  unfold on_pair at 1.
  rewrite (is_pair_key _ _ _ r) by apply on_pair_key.
  unfold on_pair. destruct (is_pair username isbn r); [|done].
  destruct r as [k v]. simpl. f_equal. lia.
Qed.

Lemma filter_pair_on_pair username isbn g (l : list (string * string * Z)) :
  filter (λ r, is_pair username isbn r = true) (on_pair username isbn g <$> l)
  = on_pair username isbn g <$> filter (λ r, is_pair username isbn r = true) l.
Proof.
  induction l as [|r l IH]; [done|]. rewrite fmap_cons, !filter_cons.
  rewrite (is_pair_key _ _ (on_pair username isbn g r) r) by apply on_pair_key.
  case_decide; [rewrite fmap_cons|]; by rewrite IH.
Qed.

(** X11.  A copy that is checked out and returned leaves the store as it was:
    the book has its quantity back, and the Borrows relation of the pair
    is gone again if the check-out made it, back at its count if not. *)
Theorem check_out_then_return (isbn username : string) (s : store) (events : list event)
    (b : book_node) :
  consistent s →
  book_nodes s !! isbn = Some b → 0 < b_quantity b →
  is_Some (user_nodes s !! username) →
  ∃ w, check_out_book_for_user isbn username (World s [] events) = (inr true, w)
    ∧ return_book_for_user isbn username w =
      (inr true,
       World s [] (log w ++ [Event LSuccess "returned book isbn={} for user username={}"
                                   [AStr isbn; AStr username]])).
Proof.
  intros Hs Hb Hq Hu.
  assert (Cypher.has_book s isbn = true) as Hhb by (apply has_book_true; by eexists).
  assert (Cypher.has_user s username = true) as Hhu by by apply has_user_true.
  unfold check_out_book_for_user, get_book, get_user, try_except_cypher, bind.
  rewrite session_run_calm. unfold Cypher.match_book, Cypher.ok. rewrite Hb. simpl.
  destruct (Z.leb_spec (b_quantity b) 0) as [|_]; [lia|].
  rewrite session_run_calm. unfold Cypher.match_user, Cypher.ok.
  destruct Hu as [u Hu]. rewrite Hu. simpl.
  rewrite session_run_calm. unfold Cypher.merge_borrows, Cypher.ok. rewrite Hhu, Hhb. simpl.
  destruct (lookup_pair username isbn (borrows s)) as [n|] eqn:Hn.
  - (* the pair has a relation: it counts one more, then one less *)
    pose proof (filter_pair_unique _ _ _ _ (borrows_unique _ Hs) Hn) as Hone.
    assert (1 ≤ n) as Hpos.
    { apply (borrows_positive _ Hs (username, isbn, n)). by apply lookup_pair_Some_elem. }
    rewrite bool_decide_eq_true_2; last first.
    { apply Exists_exists. exists (username, isbn, n).
      split; [by apply lookup_pair_Some_elem|by apply is_pair_true]. }
    rewrite session_run_calm. unfold Cypher.decrement_stock, Cypher.ok. simpl.
    eexists. split; [reflexivity|]. simpl.
    unfold return_book_for_user, try_except_cypher, bind.
    rewrite session_run_calm. unfold Cypher.match_borrows, Cypher.ok, Cypher.has_user,
      Cypher.has_book. simpl.
    rewrite !bool_decide_eq_true_2
      by first [by eexists | rewrite lookup_alter_eq, Hb; by eexists]. simpl.
    rewrite filter_pair_on_pair, Hone. simpl.
    assert (is_pair username isbn (username, isbn, n) = true) as Hp by (by apply is_pair_true).
    unfold on_pair at 1. simpl. rewrite Hp. simpl.
    destruct (Z.eqb_spec (n + 1) 1) as [|_]; [lia|].
    rewrite session_run_calm. unfold Cypher.decrement_borrows, Cypher.ok, Cypher.has_user,
      Cypher.has_book. simpl.
    rewrite !bool_decide_eq_true_2
      by first [by eexists | rewrite lookup_alter_eq, Hb; by eexists]. simpl.
    rewrite filter_pair_on_pair, Hone. simpl.
    do 3 f_equal. apply store_eq; simpl; try done.
    + apply stock_back.
    + apply on_pair_back.
  - (* the pair has none: the relation is made, then deleted *)
    pose proof (proj1 (lookup_pair_None _ _ _) Hn) as Hnone.
    rewrite bool_decide_eq_false_2; last first.
    { rewrite Exists_exists. intros (r & Hr & Hp%is_pair_true). by apply (Hnone r). }
    rewrite session_run_calm. unfold Cypher.decrement_stock, Cypher.ok. simpl.
    eexists. split; [reflexivity|]. simpl.
    unfold return_book_for_user, try_except_cypher, bind.
    rewrite session_run_calm. unfold Cypher.match_borrows, Cypher.ok, Cypher.has_user,
      Cypher.has_book. simpl.
    rewrite !bool_decide_eq_true_2
      by first [by eexists | rewrite lookup_alter_eq, Hb; by eexists]. simpl.
    rewrite filter_app, (filter_pair_nil _ _ _ Hnone). simpl.
    rewrite filter_cons_True by (by apply is_pair_true). simpl.
    rewrite session_run_calm. unfold Cypher.delete_borrows, Cypher.ok, Cypher.has_user,
      Cypher.has_book. simpl.
    rewrite !bool_decide_eq_true_2
      by first [by eexists | rewrite lookup_alter_eq, Hb; by eexists]. simpl.
    rewrite !filter_app, (filter_pair_nil _ _ _ Hnone). simpl.
    rewrite filter_cons_True by (by apply is_pair_true). simpl.
    do 3 f_equal. apply store_eq; simpl; try done.
    + apply stock_back.
    + rewrite filter_app.
      rewrite (filter_cons_False _ (username, isbn, 1))
        by (intros Hp; apply Hp; by apply is_pair_true).
      rewrite filter_nil, app_nil_r. apply filter_all.
      intros r Hr Hp%is_pair_true. by apply (Hnone r).
Qed.

Lemma check_out_then_return_witness :
  ∃ w, check_out_book_for_user "111" "alice" (calm one_copy_out) = (inr true, w)
    ∧ return_book_for_user "111" "alice" w =
      (inr true,
       World one_copy_out []
             (log w ++ [Event LSuccess "returned book isbn={} for user username={}"
                              [AStr "111"; AStr "alice"]])).
Proof.
  apply (check_out_then_return "111" "alice" one_copy_out [] (BookNode "Dune" 412 1 ∅)).
  - apply one_copy_out_consistent.
  - vm_compute. reflexivity.
  - reflexivity.
  - vm_compute. by eexists.
Defined.

(** ** Queries, missing nodes, a failure between two statements *)

Ltac read_only :=
  repeat (first [ wp_step | match goal with H : _ ?s = inr (_, _) |- _ => progress (ro_query H) end ]);
  try done.

(** X12.  The three queries of the engine, [get_book_stats], [get_user_stats]
    and [recommend_books], never write: whatever the store answers or
    raises, the store is afterwards what it was. *)
Theorem queries_leave_the_store (w : world) :
  (∀ isbn, db (get_book_stats isbn w).2 = db w)
  ∧ (∀ username, db (get_user_stats username w).2 = db w)
  ∧ (∀ username, db (recommend_books username w).2 = db w).
Proof.
  destruct w as [s faults events]. simpl. split_and!.
  - intros isbn. apply (wp_run _ (λ _ d, d = s)). unfold get_book_stats. read_only.
  - intros username. apply (wp_run _ (λ _ d, d = s)). unfold get_user_stats. read_only.
  - intros username. apply (wp_run _ (λ _ d, d = s)). unfold recommend_books. read_only.
Qed.



(** X14.  The statistics of what is not there.  On an isbn without Book node
    [get_book_stats] answers [False]; on a username without User node
    [get_user_stats] answers the empty list; each logs that the node does
    not exist, and sends no further statement. *)
Theorem stats_of_missing (s : store) (faults : list (option string)) (events : list event) :
  (∀ isbn, book_nodes s !! isbn = None →
     get_book_stats isbn (World s (None :: faults) events) =
     (inr (inl false),
      World s faults (events ++ [Event LError "book isbn={} does not exist" [AStr isbn]])))
  ∧ (∀ username, user_nodes s !! username = None →
     get_user_stats username (World s (None :: faults) events) =
     (inr (inr []),
      World s faults
            (events ++ [Event LError "user username={} does not exist" [AStr username]]))).
Proof.
  split.
  - intros isbn Hb. unfold get_book_stats, get_book, bind.
    rewrite session_run_pass. unfold Cypher.match_book, Cypher.ok. by rewrite Hb.
  - intros username Hu. unfold get_user_stats, get_user, bind.
    rewrite session_run_pass. unfold Cypher.match_user, Cypher.ok. by rewrite Hu.
Qed.

Lemma stats_of_missing_witness :
  get_book_stats "999" (World library [None; Some "down"] []) =
    (inr (inl false),
     World library [Some "down"] [Event LError "book isbn={} does not exist" [AStr "999"]])
  ∧ get_user_stats "carol" (World library [None; Some "down"] []) =
    (inr (inr []),
     World library [Some "down"]
           [Event LError "user username={} does not exist" [AStr "carol"]]).
Proof.
  destruct (stats_of_missing library [Some "down"] []) as [Hbook Huser].
  split; [apply Hbook | apply Huser]; vm_compute; reflexivity.
Defined.

(** X15.  [rate_book] looks for the user first, then for the book: without the
    user it answers [False] and logs that the user does not exist, also
    when the book is missing as well; with the user and without the book
    it logs that the book does not exist.  Nothing is written. *)
Theorem rate_book_needs_user_and_book (username isbn : string) (score : Z) (s : store)
    (events : list event) :
  (user_nodes s !! username = None →
     rate_book username isbn score (World s [] events) =
     (inr false,
      World s [] (events ++ [Event LError "user username={} does not exist" [AStr username]])))
  ∧ (is_Some (user_nodes s !! username) → book_nodes s !! isbn = None →
     rate_book username isbn score (World s [] events) =
     (inr false,
      World s [] (events ++ [Event LError "book isbn={} does not exist" [AStr isbn]]))).
Proof.
  split.
  - intros Hu. unfold rate_book, get_user, try_except_cypher, bind.
    rewrite session_run_calm. unfold Cypher.match_user, Cypher.ok. by rewrite Hu.
  - intros [u Hu] Hb. unfold rate_book, get_user, get_book, try_except_cypher, bind.
    rewrite session_run_calm. unfold Cypher.match_user, Cypher.ok. rewrite Hu. simpl.
    by rewrite Hb.
Qed.

Lemma rate_book_needs_user_and_book_witness :
  rate_book "carol" "999" 4 (calm library) =
    (inr false,
     World library [] [Event LError "user username={} does not exist" [AStr "carol"]])
  ∧ rate_book "alice" "999" 4 (calm library) =
    (inr false, World library [] [Event LError "book isbn={} does not exist" [AStr "999"]]).
Proof.
  split.
  - apply (proj1 (rate_book_needs_user_and_book "carol" "999" 4 library [])).
    vm_compute. reflexivity.
  - apply (proj2 (rate_book_needs_user_and_book "alice" "999" 4 library [])).
    + vm_compute. by eexists.
    + vm_compute. reflexivity.
Defined.

(** X16.  A check-out is two statements, and not one transaction: when the store
    fails on the second, the Borrows relation has been merged (the pair
    counts one copy more) while the quantity of the book is what it was,
    and the call answers [False] with the message of the store logged. *)
Theorem check_out_is_not_atomic (isbn username message : string) (s : store)
    (faults : list (option string)) (events : list event) (b : book_node) :
  book_nodes s !! isbn = Some b → 0 < b_quantity b →
  is_Some (user_nodes s !! username) →
  ∃ d, check_out_book_for_user isbn username
         (World s (None :: None :: None :: Some message :: faults) events) =
       (inr false, World d faults (events ++ [Event LError "{}" [AStr message]]))
    ∧ borrow_count d username isbn = Some (default 0 (borrow_count s username isbn) + 1)
    ∧ book_nodes d = book_nodes s.
Proof.
  intros Hb Hq [u Hu].
  unfold check_out_book_for_user, get_book, get_user, try_except_cypher, bind.
  rewrite session_run_pass. unfold Cypher.match_book, Cypher.ok. rewrite Hb. simpl.
  destruct (Z.leb_spec (b_quantity b) 0) as [|_]; [lia|].
  rewrite session_run_pass. unfold Cypher.match_user, Cypher.ok. rewrite Hu. simpl.
  rewrite session_run_pass. unfold Cypher.merge_borrows, Cypher.ok.
  rewrite (proj2 (has_user_true s username)) by by eexists.
  rewrite (proj2 (has_book_true s isbn)) by by eexists. simpl.
  destruct (merge_borrows_count username isbn (borrows s)) as [Hcount _].
  simpl in Hcount. revert Hcount.
  case_bool_decide; intros Hcount; simpl; (eexists; split; [reflexivity|]);
    (split; [exact Hcount|done]).
Qed.

Lemma check_out_is_not_atomic_witness :
  ∃ d, check_out_book_for_user "111" "alice"
         (World library [None; None; None; Some "down"] []) =
       (inr false, World d [] [Event LError "{}" [AStr "down"]])
    ∧ borrow_count d "alice" "111" = Some 1
    ∧ book_nodes d = book_nodes library.
Proof.
  apply (check_out_is_not_atomic "111" "alice" "down" library [] [] (BookNode "Dune" 412 2 ∅)).
  - vm_compute. reflexivity.
  - reflexivity.
  - vm_compute. by eexists.
Defined.

(** ** Writing a key *)

Section Moves.
Context {A : Type}.
Implicit Types (l : list (string * string * A)).

Lemma lookup_pair_rename_isbn old new u l :
  (∀ r, r ∈ l → rel_isbn r ≠ new) →
  lookup_pair u new (Cypher.rename_isbn old new <$> l) = lookup_pair u old l.
Proof.
  intros Hnew. induction l as [|[[u' i'] v] l IH]; [done|].
  rewrite fmap_cons, !lookup_pair_cons, IH by (intros r Hr; apply Hnew; by right).
  assert (i' ≠ new) as Hi by (apply (Hnew (u', i', v)); left).
  unfold is_pair, Cypher.rename_isbn, Cypher.rename, rel_user, rel_isbn, rel_val. simpl.
  repeat case_bool_decide; simplify_eq/=; done.
Qed.

Lemma lookup_pair_rename_isbn_other old new u i l :
  i ≠ old → i ≠ new →
  lookup_pair u i (Cypher.rename_isbn old new <$> l) = lookup_pair u i l.
Proof.
  intros Ho Hn. induction l as [|[[u' i'] v] l IH]; [done|].
  rewrite fmap_cons, !lookup_pair_cons, IH.
  unfold is_pair, Cypher.rename_isbn, Cypher.rename, rel_user, rel_isbn, rel_val. simpl.
  repeat case_bool_decide; simplify_eq/=; done.
Qed.

Lemma lookup_pair_rename_user old new i l :
  (∀ r, r ∈ l → rel_user r ≠ new) →
  lookup_pair new i (Cypher.rename_user old new <$> l) = lookup_pair old i l.
Proof.
  intros Hnew. induction l as [|[[u' i'] v] l IH]; [done|].
  rewrite fmap_cons, !lookup_pair_cons, IH by (intros r Hr; apply Hnew; by right).
  assert (u' ≠ new) as Hi by (apply (Hnew (u', i', v)); left).
  unfold is_pair, Cypher.rename_user, rel_user, rel_isbn, rel_val. simpl.
  repeat case_bool_decide; simplify_eq/=; done.
Qed.

Lemma lookup_pair_rename_user_other old new u i l :
  u ≠ old → u ≠ new →
  lookup_pair u i (Cypher.rename_user old new <$> l) = lookup_pair u i l.
Proof.
  intros Ho Hn. induction l as [|[[u' i'] v] l IH]; [done|].
  rewrite fmap_cons, !lookup_pair_cons, IH.
  unfold is_pair, Cypher.rename_user, rel_user, rel_isbn, rel_val. simpl.
  repeat case_bool_decide; simplify_eq/=; done.
Qed.
End Moves.

(** X17.  Writing the key of a book.  [edit_book isbn "isbn" [new]] is refused
    by the node key when [new] is the isbn of another book: the call
    answers [False], the message of the store is logged and nothing
    changes.  When [new] is free the book moves to it with what hangs on
    it: who held how many copies of [isbn] holds as many of [new], the
    ratings follow, and the other books are not touched. *)
Theorem edit_isbn_moves_the_book (isbn new : string) (s : store) (events : list event)
    (b : book_node) :
  consistent s → book_nodes s !! isbn = Some b → new ≠ isbn →
  (is_Some (book_nodes s !! new) →
     edit_book isbn "isbn" [new] (World s [] events) =
     (inr false, World s [] (events ++ [Event LError "{}" [AStr Cypher.key_exists]])))
  ∧ (book_nodes s !! new = None →
     ∃ d, edit_book isbn "isbn" [new] (World s [] events) =
          (inr true,
           World d [] (events ++ [Event LSuccess "edited book with field={} and new value={}"
                                        [AStr "isbn"; AStr new]]))
       ∧ book_nodes d !! new = Some b ∧ book_nodes d !! isbn = None
       ∧ (∀ username, borrow_count d username new = borrow_count s username isbn
                      ∧ rating d username new = rating s username isbn)
       ∧ (∀ username other, other ≠ isbn → other ≠ new →
            book_nodes d !! other = book_nodes s !! other
            ∧ borrow_count d username other = borrow_count s username other
            ∧ rating d username other = rating s username other)).
Proof.
  intros Hs Hb Hne.
  assert (edit_book isbn "isbn" [new] =
          do written <- run_session (Cypher.set_book_text isbn Cypher.Key new);
          if negb written then ret false else
          exec success "edited book with field={} and new value={}" [AStr "isbn"; AStr new];
          ret true) as -> by done.
  unfold run_session, try_except_cypher, bind. rewrite session_run_calm.
  unfold Cypher.set_book_text, Cypher.ok. rewrite Hb.
  rewrite bool_decide_eq_false_2 by done. split.
  - intros Hnew%has_book_true. by rewrite Hnew.
  - intros Hfree. rewrite (has_book_false _ _ Hfree). simpl.
    eexists. split; [reflexivity|]. simpl.
    assert (∀ r : string * string * Z, r ∈ borrows s → rel_isbn r ≠ new) as Hbo.
    { intros r Hr Heq. destruct (borrows_ends _ Hs r Hr) as [_ [? ?]]. congruence. }
    assert (∀ r : string * string * Z, r ∈ rates s → rel_isbn r ≠ new) as Hra.
    { intros r Hr Heq. destruct (rates_ends _ Hs r Hr) as [_ [? ?]]. congruence. }
    split_and!.
    + by rewrite lookup_insert_eq.
    + rewrite lookup_insert_ne by done. by rewrite lookup_delete_eq.
    + intros username. unfold borrow_count, rating. simpl.
      by rewrite !lookup_pair_rename_isbn.
    + intros username other Ho Hn. unfold borrow_count, rating. simpl.
      rewrite lookup_insert_ne, lookup_delete_ne by done.
      by rewrite !lookup_pair_rename_isbn_other.
Qed.

Lemma edit_isbn_moves_the_book_witness :
  ∃ d, edit_book "111" "isbn" ["112"] (calm one_copy_out) =
       (inr true,
        World d [] [Event LSuccess "edited book with field={} and new value={}"
                          [AStr "isbn"; AStr "112"]])
    ∧ borrow_count d "alice" "112" = Some 1 ∧ book_nodes d !! "111" = None.
Proof.
  destruct (edit_isbn_moves_the_book "111" "112" one_copy_out [] (BookNode "Dune" 412 1 ∅))
    as [_ Hmove].
  - apply one_copy_out_consistent.
  - vm_compute. reflexivity.
  - discriminate.
  - destruct Hmove as (d & Hrun & _ & Hgone & Hcount & _); [vm_compute; reflexivity|].
    exists d. split; [exact Hrun|]. split; [|exact Hgone].
    rewrite (proj1 (Hcount "alice")). vm_compute. reflexivity.
Defined.

(** X18.  Writing the key of a user, likewise: [edit_user username "username"
    new] is refused when [new] is taken, and moves the user with the
    borrowings and the ratings when it is free. *)
Theorem edit_username_moves_the_user (username new : string) (s : store)
    (events : list event) (u : user_node) :
  consistent s → user_nodes s !! username = Some u → new ≠ username →
  (is_Some (user_nodes s !! new) →
     edit_user username "username" new (World s [] events) =
     (inr false, World s [] (events ++ [Event LError "{}" [AStr Cypher.key_exists]])))
  ∧ (user_nodes s !! new = None →
     ∃ d, edit_user username "username" new (World s [] events) =
          (inr true,
           World d [] (events ++ [Event LSuccess "edited book with field={} and new value={}"
                                        [AStr "username"; AStr new]]))
       ∧ user_nodes d !! new = Some u ∧ user_nodes d !! username = None
       ∧ book_nodes d = book_nodes s
       ∧ (∀ isbn, borrow_count d new isbn = borrow_count s username isbn
                  ∧ rating d new isbn = rating s username isbn)
       ∧ (∀ other isbn, other ≠ username → other ≠ new →
            user_nodes d !! other = user_nodes s !! other
            ∧ borrow_count d other isbn = borrow_count s other isbn
            ∧ rating d other isbn = rating s other isbn)).
Proof.
  intros Hs Hu Hne.
  assert (edit_user username "username" new =
          do written <- run_session (Cypher.set_user_text username Cypher.UKey new);
          if negb written then ret false else
          exec success "edited book with field={} and new value={}"
                       [AStr "username"; AStr new];
          ret true) as -> by done.
  unfold run_session, try_except_cypher, bind. rewrite session_run_calm.
  unfold Cypher.set_user_text, Cypher.ok. rewrite Hu.
  rewrite bool_decide_eq_false_2 by done. split.
  - intros Hnew%has_user_true. by rewrite Hnew.
  - intros Hfree. rewrite (has_user_false _ _ Hfree). simpl.
    eexists. split; [reflexivity|]. simpl.
    assert (∀ r : string * string * Z, r ∈ borrows s → rel_user r ≠ new) as Hbo.
    { intros r Hr Heq. destruct (borrows_ends _ Hs r Hr) as [[? ?] _]. congruence. }
    assert (∀ r : string * string * Z, r ∈ rates s → rel_user r ≠ new) as Hra.
    { intros r Hr Heq. destruct (rates_ends _ Hs r Hr) as [[? ?] _]. congruence. }
    split_and!.
    + by rewrite lookup_insert_eq.
    + rewrite lookup_insert_ne by done. by rewrite lookup_delete_eq.
    + done.
    + intros isbn. unfold borrow_count, rating. simpl.
      by rewrite !lookup_pair_rename_user.
    + intros other isbn Ho Hn. unfold borrow_count, rating. simpl.
      rewrite lookup_insert_ne, lookup_delete_ne by done.
      by rewrite !lookup_pair_rename_user_other.
Qed.

Lemma edit_username_moves_the_user_witness :
  ∃ d, edit_user "alice" "username" "alicia" (calm one_copy_out) =
       (inr true,
        World d [] [Event LSuccess "edited book with field={} and new value={}"
                          [AStr "username"; AStr "alicia"]])
    ∧ borrow_count d "alicia" "111" = Some 1 ∧ user_nodes d !! "alice" = None.
Proof.
  destruct (edit_username_moves_the_user "alice" "alicia" one_copy_out []
              (UserNode "Alice" 5550100 ∅)) as [_ Hmove].
  - apply one_copy_out_consistent.
  - vm_compute. reflexivity.
  - discriminate.
  - destruct Hmove as (d & Hrun & _ & Hgone & _ & Hcount & _); [vm_compute; reflexivity|].
    exists d. split; [exact Hrun|]. split; [|exact Hgone].
    rewrite (proj1 (Hcount "111")). vm_compute. reflexivity.
Defined.

(** ** Authors without a book *)

Lemma rename_keeps_authors old new (l : list (string * string)) :
  (Cypher.rename old new <$> l).*1 = l.*1.
Proof. rewrite <-list_fmap_compose. by apply list_fmap_ext. Qed.

Lemma same_authors_tidy s d : same_authors s d → tidy s → tidy d.
Proof. intros [Hn Ho] Hs a. rewrite Hn, Ho. apply Hs. Qed.

Ltac authors_query H :=
  query_inv H;
  try match goal with
      | H : same_authors _ ?s |- same_authors _ _ =>
        first [ exact H
              | destruct H as [? ?]; split; simpl; [done|]; by rewrite ?rename_keeps_authors ]
      end.

Ltac authors_go :=
  repeat (first
    [ wp_step
    | match goal with
      | H : ?q ?s = inr (_, _) |- _ => progress (authors_query H)
      end ]); try done.

(** The operations that do not deal with authors leave the Author nodes
    and their relations alone, whatever the store raises. *)
Lemma authors_frame (o : op) (s0 s : store) :
  ¬ touches_authors o → same_authors s0 s → wp (run_op o) (λ _ d, same_authors s0 d) s.
Proof.
  intros Ho Hs. destruct o; simpl in Ho; simpl; try tauto.
  - unfold add_user. authors_go.
  - unfold edit_book. case_bool_decide; [done|]. authors_go.
  - unfold edit_user. authors_go.
  - unfold check_out_book_for_user. authors_go.
  - unfold return_book_for_user. authors_go.
  - unfold get_book_stats. authors_go.
  - unfold get_user_stats. authors_go.
  - unfold rate_book. authors_go.
  - unfold recommend_books. authors_go.
  - unfold remove_user. authors_go.
Qed.

(** [edit_book] on the authors of a book that exists, step by step. *)
Lemma edit_authors_calm isbn names s events :
  is_Some (book_nodes s !! isbn) →
  let s2 := foldl drop_orphan (with_author_of (filter (λ r, r.2 ≠ isbn)) s)
                  (filter (λ r, r.2 = isbn) (author_of s)).*1 in
  edit_book isbn "authors" names (World s [] events) =
  (inr true,
   World (Store (book_nodes s2) (user_nodes s2) (author_nodes s2 ∪ list_to_set names)
                (author_of s2 ++ ((λ n, (n, isbn)) <$> names))%list (borrows s2) (rates s2))
         [] (events ++ [Event LSuccess "edited book with field={} and new value={}"
                              [AStr "authors"; AList names]])).
Proof.
  intros Hb s2. unfold edit_book. simpl. unfold bind.
  rewrite session_run_calm. unfold Cypher.unlink_authors.
  rewrite (proj2 (has_book_true s isbn) Hb). simpl.
  rewrite clean_up_orphans_calm. simpl. fold s2.
  rewrite link_authors_calm; [done|].
  destruct (drop_orphans_frame (filter (λ r, r.2 = isbn) (author_of s)).*1
              (with_author_of (filter (λ r, r.2 ≠ isbn)) s)) as (Hbk & _).
  fold s2 in Hbk. by rewrite Hbk.
Qed.

(** Unlinking the authors of a book and dropping those it leaves alone
    makes no orphan. *)
Lemma tidy_after_unlink isbn s :
  tidy s →
  tidy (foldl drop_orphan (with_author_of (filter (λ r, r.2 ≠ isbn)) s)
              (filter (λ r, r.2 = isbn) (author_of s)).*1).
Proof.
  intros Hs a.
  destruct (drop_orphans_frame (filter (λ r, r.2 = isbn) (author_of s)).*1
              (with_author_of (filter (λ r, r.2 ≠ isbn)) s))
    as (_ & _ & Hof & _ & _ & Hau).
  rewrite Hau, Hof. simpl. intros [Hin Hnot].
  apply Hs in Hin. apply list_elem_of_fmap in Hin as ([a' i] & -> & Hin). simpl in *.
  destruct (decide (i = isbn)) as [->|Hne].
  - destruct (decide (Exists (λ r, r.1 = a') (filter (λ r, r.2 ≠ isbn) (author_of s))))
      as [Hex|Hno].
    + apply Exists_exists in Hex as (r & Hr & <-). apply list_elem_of_fmap. by exists r.
    + exfalso. apply Hnot. split.
      * apply list_elem_of_fmap. exists (a', isbn). split; [done|].
        by apply list_elem_of_filter.
      * intros r Hr ?. apply Hno, Exists_exists. eauto.
  - apply list_elem_of_fmap. exists (a', i). split; [done|]. by apply list_elem_of_filter.
Qed.

Lemma remove_book_calm isbn s events :
  (db (remove_book isbn (World s [] events)).2 = s)
  ∨ (db (remove_book isbn (World s [] events)).2 =
     with_books (delete isbn)
       (foldl drop_orphan (with_author_of (filter (λ r, r.2 ≠ isbn)) s)
              (filter (λ r, r.2 = isbn) (author_of s)).*1)).
Proof.
  destruct (book_nodes s !! isbn) as [b|] eqn:Hb.
  - destruct (decide (Exists (λ r, rel_isbn r = isbn) (borrows s)
                      ∨ Exists (λ r, rel_isbn r = isbn) (rates s))) as [Huse|Hfree].
    + left. unfold remove_book, try_except_cypher, bind. rewrite session_run_calm.
      unfold Cypher.count_book_user_relations.
      rewrite (proj2 (has_book_true s isbn)) by by eexists. simpl.
      destruct (Z.eqb_spec (Z.of_nat (length (filter (λ r, rel_isbn r = isbn) (borrows s))
                                      + length (filter (λ r, rel_isbn r = isbn) (rates s)))) 0)
        as [Hz|Hz]; [|done]. rewrite count_two_zero in Hz. tauto.
    + right. rewrite remove_book_free; [done|by eexists|done].
  - left. unfold remove_book, try_except_cypher, bind. rewrite session_run_calm.
    unfold Cypher.count_book_user_relations. rewrite (has_book_false _ _ Hb). simpl.
    rewrite session_run_calm. unfold Cypher.unlink_authors. rewrite (has_book_false _ _ Hb).
    simpl. unfold run_session, try_except_cypher, bind. rewrite session_run_calm.
    unfold Cypher.delete_book. by rewrite (has_book_false _ _ Hb).
Qed.

(** X19.  No orphan author is made.  From a store where every Author node has
    a book, every operation leaves such a store, as long as the store
    raises no error during an operation that deals with authors
    ([add_book], [edit_book] on the authors, [remove_book]): the authors a
    book loses are deleted when it was their last, and only then. *)
Theorem no_orphan_authors (o : op) (w : world) :
  tidy (db w) → pending w = [] ∨ ¬ touches_authors o →
  tidy (db (run_op o w).2).
Proof.
  destruct w as [s faults events]. simpl. intros Hs [->|Ho]; last first.
  { eapply same_authors_tidy; [|exact Hs].
    apply (wp_run _ (λ _ d, same_authors s d)). by apply authors_frame. }
  assert (¬ touches_authors o → tidy (db (run_op o (World s [] events)).2)) as Hframe.
  { intros Ho. eapply same_authors_tidy; [|exact Hs].
    apply (wp_run _ (λ _ d, same_authors s d)). by apply authors_frame. }
  destruct o; try (apply Hframe; simpl; tauto).
  - (* add_book *)
    unfold run_op. rewrite db_map_answer.
    destruct (book_nodes s !! Book.isbn book) as [b|] eqn:Hb.
    + unfold add_book, run_session, try_except_cypher, bind.
      rewrite session_run_calm. unfold Cypher.create_book.
      rewrite (proj2 (has_book_true s _)) by by eexists. done.
    + unfold add_book, run_session, try_except_cypher, bind.
      rewrite session_run_calm. unfold Cypher.create_book, Cypher.ok.
      rewrite (has_book_false _ _ Hb). simpl.
      rewrite link_authors_calm by (simpl; rewrite lookup_insert_eq; by eexists). simpl.
      intros a. simpl. intros [Hin|Hin%elem_of_list_to_set]%elem_of_union;
        rewrite fmap_app, elem_of_app.
      * left. by apply Hs.
      * right. rewrite <-list_fmap_compose. apply list_elem_of_fmap. by exists a.
  - (* edit_book on the authors *)
    destruct (decide (field = "authors")) as [->|Hf]; [|by apply Hframe].
    unfold run_op. rewrite db_map_answer.
    destruct (book_nodes s !! isbn) as [b|] eqn:Hb.
    + rewrite edit_authors_calm by by eexists. simpl.
      pose proof (tidy_after_unlink isbn s Hs) as Hs2.
      intros a. simpl. intros [Hin|Hin%elem_of_list_to_set]%elem_of_union;
        rewrite fmap_app, elem_of_app.
      * left. by apply Hs2.
      * right. rewrite <-list_fmap_compose. apply list_elem_of_fmap. by exists a.
    + unfold edit_book. simpl. unfold bind.
      rewrite session_run_calm. unfold Cypher.unlink_authors.
      rewrite (has_book_false _ _ Hb). simpl.
      by rewrite link_authors_missing.
  - (* remove_book *)
    unfold run_op. rewrite db_map_answer.
    destruct (remove_book_calm isbn s events) as [->| ->]; [done|].
    apply (tidy_after_unlink isbn s Hs).
Qed.

Lemma library_tidy : tidy library.
Proof.
  intros a Hin.
  assert (author_nodes library = {["A"; "B"]}) as Ha by (by vm_compute).
  assert ((author_of library).*1 = ["A"; "B"]) as -> by (by vm_compute).
  rewrite Ha in Hin.
  apply elem_of_union in Hin as [->%elem_of_singleton| ->%elem_of_singleton];
    [apply list_elem_of_here | apply list_elem_of_further, list_elem_of_here].
Qed.

Lemma no_orphan_authors_witness :
  tidy (db (run_op (EditBook "111" "authors" ["B"; "C"]) (calm library)).2).
Proof.
  apply (no_orphan_authors (EditBook "111" "authors" ["B"; "C"]) (calm library)).
  - exact library_tidy.
  - left. reflexivity.
Defined.
